(** * llm-council: the browser client of the multi-LLM debate service

    A shallow embedding of [frontend/src/api.ts] (the three HTTP client
    functions) and of the submit path of the React component [App]
    ([handleSubmit], its stream-event callback and the assembly of the
    recorded turn), followed by the properties the specification states
    about them.

    Conventions of the embedding.
    - A JavaScript string is its sequence of UTF-16 code units ([Js.jsstring]).
    - A record used as a dictionary ([Record<string, string>]) is the
      list of its own properties in the order [Object.keys] and
      [Object.entries] enumerate them: array indices first, in ascending
      order, then the other names in the order of their creation.  A
      lookup falls back on [Object.prototype], and an assignment to
      [__proto__] creates no property ([Dict.read], [Dict.assign]).
    - Platform functions ([TextDecoder], [JSON.parse], [JSON.stringify],
      [String.prototype.trim/split/startsWith/slice]) are embedded from
      their standards; numbers in JSON texts keep their lexeme.
    - [fetch] is an environment function from requests to responses; the
      requests a run issues are logged.
    - A React state updater [setX(f)] is applied to the state in the order
      the updaters are queued.
    - The component reads the values of the server at their TypeScript
      types; a run that meets a value outside its declared type ends as
      [IO.Untyped] and is not followed further. *)

From Stdlib Require Import List PeanoNat NArith Bool Lia.
From Stdlib Require Import Strings.Byte.
From Stdlib Require String.
Import String.StringSyntax.
Import ListNotations.

Local Open Scope string_scope.
Local Open Scope N_scope.
#[local] Set Warnings "-register-all".

(** ** JavaScript strings *)

Module Js.

Definition jsstring : Type := list N.

(** An ASCII literal as a JavaScript string. *)
Definition str (s : String.string) : jsstring :=
  map Byte.to_N (String.list_byte_of_string s).

Fixpoint eqb (a b : jsstring) : bool :=
  match a, b with
  | [], [] => true
  | x :: a', y :: b' => (x =? y) && eqb a' b'
  | _, _ => false
  end.

(** [s.startsWith(p)] *)
Fixpoint startsWith (s p : jsstring) : bool :=
  match p, s with
  | [], _ => true
  | _ :: _, [] => false
  | y :: p', x :: s' => (x =? y) && startsWith s' p'
  end.

(** [s.slice(n)] for a start index [n >= 0]. *)
Definition slice (n : nat) (s : jsstring) : jsstring := skipn n s.

(** [s.split(sep)] for a separator of one code unit; the result always
    has at least one element. *)
Fixpoint split (sep : N) (s : jsstring) : list jsstring :=
  match s with
  | [] => [[]]
  | c :: s' =>
      if c =? sep then [] :: split sep s'
      else match split sep s' with
           | l :: ls => (c :: l) :: ls
           | [] => [[c]]
           end
  end.

(** [a.pop()]: the last element (or [undefined]) and the array left. *)
Definition pop {A : Type} (a : list A) : option A * list A :=
  match rev a with
  | [] => (None, [])
  | x :: r => (Some x, rev r)
  end.

(** White space and line terminators of ECMAScript, as [trim] strips them. *)
Definition is_space (c : N) : bool :=
  ((9 <=? c) && (c <=? 13)) || (c =? 32) || (c =? 160) || (c =? 5760)
  || ((8192 <=? c) && (c <=? 8202)) || (c =? 8232) || (c =? 8233)
  || (c =? 8239) || (c =? 8287) || (c =? 12288) || (c =? 65279).

Fixpoint trimStart (s : jsstring) : jsstring :=
  match s with
  | c :: s' => if is_space c then trimStart s' else s
  | [] => []
  end.

Definition trim (s : jsstring) : jsstring :=
  rev (trimStart (rev (trimStart s))).

(** Truthiness of a string: non-empty. *)
Definition truthy (s : jsstring) : bool :=
  match s with [] => false | _ => true end.

(** Errors that are thrown; every one is an instance of [Error] and has a
    [message]. *)
Inductive exn : Type :=
| Error (message : jsstring)
| TypeError (message : jsstring)
| SyntaxError (message : jsstring).

Definition message (e : exn) : jsstring :=
  match e with Error m | TypeError m | SyntaxError m => m end.

Inductive result (A : Type) : Type :=
| Ok (a : A)
| Throw (e : exn).
Arguments Ok {A} a.
Arguments Throw {A} e.

End Js.
Import Js.

(** ** [TextDecoder] for UTF-8 (WHATWG Encoding) *)

Module TextDecoder.

(** State of the UTF-8 decoder between two bytes. *)
Record utf8 : Type := {
  code_point : N;
  bytes_seen : N;
  bytes_needed : N;
  lower : N;
  upper : N
}.

Definition utf8_init : utf8 :=
  {| code_point := 0; bytes_seen := 0; bytes_needed := 0;
     lower := 128; upper := 191 |}.

Definition REPLACEMENT : N := 65533.

(** A byte read while no sequence is open. *)
Definition lead (b : N) : utf8 * list N :=
  if b <=? 127 then (utf8_init, [b])
  else if (194 <=? b) && (b <=? 223) then
    ({| code_point := N.land b 31; bytes_seen := 0; bytes_needed := 1;
        lower := 128; upper := 191 |}, [])
  else if (224 <=? b) && (b <=? 239) then
    ({| code_point := N.land b 15; bytes_seen := 0; bytes_needed := 2;
        lower := if b =? 224 then 160 else 128;
        upper := if b =? 237 then 159 else 191 |}, [])
  else if (240 <=? b) && (b <=? 244) then
    ({| code_point := N.land b 7; bytes_seen := 0; bytes_needed := 3;
        lower := if b =? 240 then 144 else 128;
        upper := if b =? 244 then 143 else 191 |}, [])
  else (utf8_init, [REPLACEMENT]).

(** The decoder's handler: one byte in, the code points it completes out.
    A byte that cannot continue the open sequence ends it with U+FFFD and
    is then read again with no sequence open. *)
Definition handler (st : utf8) (b : N) : utf8 * list N :=
  if bytes_needed st =? 0 then lead b
  else if (b <? lower st) || (upper st <? b) then
    let '(st', out) := lead b in (st', REPLACEMENT :: out)
  else
    let cp := N.lor (N.shiftl (code_point st) 6) (N.land b 63) in
    let seen := bytes_seen st + 1 in
    if seen =? bytes_needed st then (utf8_init, [cp])
    else ({| code_point := cp; bytes_seen := seen;
             bytes_needed := bytes_needed st;
             lower := 128; upper := 191 |}, []).

Fixpoint run (st : utf8) (bytes : list byte) : utf8 * list N :=
  match bytes with
  | [] => (st, [])
  | b :: rest =>
      let '(st1, out1) := handler st (Byte.to_N b) in
      let '(st2, out2) := run st1 rest in
      (st2, out1 ++ out2)
  end.

(** A code point as UTF-16 code units. *)
Definition utf16 (cp : N) : jsstring :=
  if cp <? 65536 then [cp]
  else let v := cp - 65536 in
       [55296 + N.shiftr v 10; 56320 + N.land v 1023].

(** The decoder object: the UTF-8 state and the "BOM seen" flag.  The
    first code point of the stream is dropped when it is U+FEFF. *)
Record t : Type := { state : utf8; bom_seen : bool }.

Definition create : t := {| state := utf8_init; bom_seen := false |}.

Definition serialize (seen : bool) (cps : list N) : bool * jsstring :=
  match cps with
  | [] => (seen, [])
  | cp :: rest =>
      if negb seen && (cp =? 65279) then (true, flat_map utf16 rest)
      else (true, flat_map utf16 cps)
  end.

(** [dec.decode(value, { stream: true })] *)
Definition decode_stream (d : t) (value : list byte) : t * jsstring :=
  let '(st, cps) := run (state d) value in
  let '(seen, text) := serialize (bom_seen d) cps in
  ({| state := st; bom_seen := seen |}, text).

(** Decoding of a whole body at once: the end of the input closes an open
    sequence with U+FFFD. *)
Definition decode (bytes : list byte) : jsstring :=
  let '(st, cps) := run utf8_init bytes in
  let tail := if bytes_needed st =? 0 then [] else [REPLACEMENT] in
  snd (serialize false (cps ++ tail)).

End TextDecoder.

(** ** Records used as dictionaries *)

Module Dict.

Definition t (V : Type) : Type := list (jsstring * V).

(** The own property [k] of [d] ([None] when there is none). *)
Fixpoint get {V : Type} (k : jsstring) (d : t V) : option V :=
  match d with
  | [] => None
  | (k', v) :: d' => if Js.eqb k k' then Some v else get k d'
  end.

(** The own property [k] of [d] set to [v]: an existing property keeps
    its place, a new one is created last. *)
Fixpoint set {V : Type} (k : jsstring) (v : V) (d : t V) : t V :=
  match d with
  | [] => [(k, v)]
  | (k', v') :: d' =>
      if Js.eqb k k' then (k', v) :: d' else (k', v') :: set k v d'
  end.

(** [Object.keys(d)] and [Object.entries(d)] of an object whose own
    properties are listed in enumeration order. *)
Definition keys {V : Type} (d : t V) : list jsstring := map fst d.
Definition entries {V : Type} (d : t V) : list (jsstring * V) := d.

(** *** Objects with strings as values, under [Object.prototype]

    The dictionaries of the component ([content], [errors], [known],
    [PROVIDER_COLORS]) are ordinary objects: a name they do not own is
    looked up in [Object.prototype], and the name [__proto__] is an
    accessor there. *)

Definition PROTO : jsstring := str "__proto__".

(** The functions every ordinary object inherits. *)
Definition prototype_functions : list jsstring :=
  map str
    ["constructor"; "hasOwnProperty"; "isPrototypeOf"; "propertyIsEnumerable";
     "toLocaleString"; "toString"; "valueOf"; "__defineGetter__";
     "__defineSetter__"; "__lookupGetter__"; "__lookupSetter__"].

(** [k] names a member of [Object.prototype]. *)
Definition inherited (k : jsstring) : bool :=
  Js.eqb k PROTO || existsb (Js.eqb k) prototype_functions.

(** The text of the member of [Object.prototype] named [k], as string
    concatenation and template literals print it: [Object.prototype]
    itself for [__proto__], a built-in function for the other names (the
    wording of the text of a built-in function is the engine's). *)
Definition inherited_text (k : jsstring) : option jsstring :=
  if Js.eqb k PROTO then Some (str "[object Object]")
  else if Js.eqb k (str "constructor")
       then Some (str "function Object() { [native code] }")
  else if existsb (Js.eqb k) prototype_functions
       then Some (str "function " ++ k ++ str "() { [native code] }")
  else None.

(** [d[k]] where the code uses the value as a text or tests whether it
    is there: the own property, else the inherited member, else
    [undefined]. *)
Definition read (k : jsstring) (d : t jsstring) : option jsstring :=
  match get k d with
  | Some v => Some v
  | None => inherited_text k
  end.

(** The array index [k] is the canonical text of: a number from 0 to
    2^32 - 2, written in decimal digits without a leading zero. *)
Definition index (k : jsstring) : option N :=
  match k with
  | [] => None
  | c :: r =>
      if forallb (fun x => (48 <=? x) && (x <=? 57)) k
         && (negb (c =? 48) || match r with [] => true | _ :: _ => false end)
      then
        let n := fold_left (fun a x => a * 10 + (x - 48)) k 0 in
        if n <? 4294967295 then Some n else None
      else None
  end.

(** A new property whose name is the array index [n] takes its place
    among the array indices, which come first and in ascending order. *)
Fixpoint insert_index (n : N) (k : jsstring) (v : jsstring) (d : t jsstring)
  : t jsstring :=
  match d with
  | [] => [(k, v)]
  | (k', v') :: d' =>
      match index k' with
      | Some n' =>
          if n' <? n then (k', v') :: insert_index n k v d' else (k, v) :: d
      | None => (k, v) :: d
      end
  end.

(** A name that is neither a member of [Object.prototype] nor an array
    index: as a new property it is created last. *)
Definition ordinary (k : jsstring) : bool :=
  negb (inherited k)
  && match index k with Some _ => false | None => true end.

(** [d[k] = v] for a string [v]: the setter of [__proto__] ignores a
    value that is not an object; any other name becomes or stays an own
    property. *)
Definition assign (k : jsstring) (v : jsstring) (d : t jsstring) : t jsstring :=
  if Js.eqb k PROTO then d
  else
    match get k d, index k with
    | None, Some n => insert_index n k v d
    | _, _ => set k v d
    end.

End Dict.

(** ** JSON texts and values (ECMA-404, [JSON.parse], [JSON.stringify]) *)

Module JSON.

Inductive value : Type :=
| JNull
| JBool (b : bool)
| JNum (lexeme : jsstring)
| JStr (s : jsstring)
| JArr (items : list value)
| JObj (members : Dict.t value).

Definition is_ws (c : N) : bool :=
  (c =? 32) || (c =? 9) || (c =? 10) || (c =? 13).

Fixpoint skip_ws (s : jsstring) : jsstring :=
  match s with
  | c :: s' => if is_ws c then skip_ws s' else s
  | [] => []
  end.

Definition is_digit (c : N) : bool := (48 <=? c) && (c <=? 57).

Fixpoint digits (s : jsstring) : jsstring * jsstring :=
  match s with
  | c :: s' =>
      if is_digit c then let '(ds, r) := digits s' in (c :: ds, r)
      else ([], s)
  | [] => ([], [])
  end.

Definition hex (c : N) : option N :=
  if is_digit c then Some (c - 48)
  else if (97 <=? c) && (c <=? 102) then Some (c - 87)
  else if (65 <=? c) && (c <=? 70) then Some (c - 55)
  else None.

Definition hex4 (a b c d : N) : option N :=
  match hex a, hex b, hex c, hex d with
  | Some x, Some y, Some z, Some w => Some (((x * 16 + y) * 16 + z) * 16 + w)
  | _, _, _, _ => None
  end.

(** The character an escape [\e] stands for ([\u] apart). *)
Definition escape (e : N) : option N :=
  if (e =? 34) || (e =? 92) || (e =? 47) then Some e
  else if e =? 98 then Some 8
  else if e =? 102 then Some 12
  else if e =? 110 then Some 10
  else if e =? 114 then Some 13
  else if e =? 116 then Some 9
  else None.

Definition consc (c : N) (r : option (jsstring * jsstring))
  : option (jsstring * jsstring) :=
  match r with
  | Some (s, rest) => Some (c :: s, rest)
  | None => None
  end.

(** The characters of a string literal after its opening quote, up to
    and including the closing quote. *)
Fixpoint chars (s : jsstring) : option (jsstring * jsstring) :=
  match s with
  | [] => None
  | c :: r =>
      if c =? 34 then Some ([], r)
      else if c =? 92 then
        match r with
        | [] => None
        | e :: r1 =>
            if e =? 117 then
              match r1 with
              | h1 :: h2 :: h3 :: h4 :: r2 =>
                  match hex4 h1 h2 h3 h4 with
                  | Some u => consc u (chars r2)
                  | None => None
                  end
              | _ => None
              end
            else
              match escape e with
              | Some u => consc u (chars r1)
              | None => None
              end
        end
      else if c <? 32 then None
      else consc c (chars r)
  end.

(** An optional sign character. *)
Definition opt_sign (accept : N -> bool) (s : jsstring) : jsstring * jsstring :=
  match s with
  | c :: r => if accept c then ([c], r) else ([], s)
  | [] => ([], s)
  end.

(** The integer part: 0, or a digit from 1 to 9 and digits. *)
Definition int_part (s : jsstring) : option (jsstring * jsstring) :=
  match s with
  | [] => None
  | c :: r =>
      if c =? 48 then Some ([c], r)
      else if is_digit c then let '(ds, r') := digits r in Some (c :: ds, r')
      else None
  end.

(** The optional fraction: a point and one digit or more. *)
Definition frac_part (s : jsstring) : option (jsstring * jsstring) :=
  match s with
  | d :: r =>
      if d =? 46 then
        match digits r with
        | ([], _) => None
        | (ds, r') => Some (d :: ds, r')
        end
      else Some ([], s)
  | [] => Some ([], s)
  end.

(** The optional exponent: e or E, an optional sign, one digit or more. *)
Definition exp_part (s : jsstring) : option (jsstring * jsstring) :=
  match s with
  | e :: r =>
      if (e =? 101) || (e =? 69) then
        let '(sg, r1) := opt_sign (fun g => (g =? 43) || (g =? 45)) r in
        match digits r1 with
        | ([], _) => None
        | (ds, r2) => Some (e :: sg ++ ds, r2)
        end
      else Some ([], s)
  | [] => Some ([], s)
  end.

(** A number literal: an optional minus sign, the integer part, the
    optional fraction and the optional exponent. *)
Definition number (s : jsstring) : option (jsstring * jsstring) :=
  let '(sign, s1) := opt_sign (fun c => c =? 45) s in
  match int_part s1 with
  | None => None
  | Some (ip, s2) =>
      match frac_part s2 with
      | None => None
      | Some (fp, s3) =>
          match exp_part s3 with
          | None => None
          | Some (ep, s4) => Some (sign ++ ip ++ fp ++ ep, s4)
          end
      end
  end.

(** Recursive descent.  Every call consumes a character of the text, so
    the length of the text bounds the calls: the fuel [parse] gives is
    never used up (lemma [parse_value_fuel_enough]). *)
Fixpoint parse_value (fuel : nat) (s : jsstring) : option (value * jsstring) :=
  match fuel with
  | O => None
  | S f =>
      let s := skip_ws s in
      if startsWith s (str "null") then Some (JNull, skipn 4 s)
      else if startsWith s (str "true") then Some (JBool true, skipn 4 s)
      else if startsWith s (str "false") then Some (JBool false, skipn 5 s)
      else
        match s with
        | [] => None
        | c :: r =>
            if c =? 34 then
              match chars r with
              | Some (x, r') => Some (JStr x, r')
              | None => None
              end
            else if c =? 91 then
              match skip_ws r with
              | c2 :: r2 =>
                  if c2 =? 93 then Some (JArr [], r2)
                  else match parse_elements f r with
                       | Some (vs, r') => Some (JArr vs, r')
                       | None => None
                       end
              | [] => None
              end
            else if c =? 123 then
              match skip_ws r with
              | c2 :: r2 =>
                  if c2 =? 125 then Some (JObj [], r2)
                  else match parse_members f r with
                       | Some (ms, r') =>
                           Some (JObj (fold_left (fun d kv => Dict.set (fst kv) (snd kv) d) ms []), r')
                       | None => None
                       end
              | [] => None
              end
            else
              match number s with
              | Some (l, r') => Some (JNum l, r')
              | None => None
              end
        end
  end
with parse_elements (fuel : nat) (s : jsstring) : option (list value * jsstring) :=
  match fuel with
  | O => None
  | S f =>
      match parse_value f s with
      | None => None
      | Some (v, r) =>
          match skip_ws r with
          | c :: r' =>
              if c =? 44 then
                match parse_elements f r' with
                | Some (vs, r'') => Some (v :: vs, r'')
                | None => None
                end
              else if c =? 93 then Some ([v], r')
              else None
          | [] => None
          end
      end
  end
with parse_members (fuel : nat) (s : jsstring)
  : option (list (jsstring * value) * jsstring) :=
  match fuel with
  | O => None
  | S f =>
      match skip_ws s with
      | q :: r =>
          if q =? 34 then
            match chars r with
            | None => None
            | Some (k, r1) =>
                match skip_ws r1 with
                | c1 :: r2 =>
                    if c1 =? 58 then
                      match parse_value f r2 with
                      | None => None
                      | Some (v, r3) =>
                          match skip_ws r3 with
                          | c3 :: r4 =>
                              if c3 =? 44 then
                                match parse_members f r4 with
                                | Some (ms, r5) => Some ((k, v) :: ms, r5)
                                | None => None
                                end
                              else if c3 =? 125 then Some ([(k, v)], r4)
                              else None
                          | [] => None
                          end
                      end
                    else None
                | [] => None
                end
            end
          else None
      | [] => None
      end
  end.

(** [JSON.parse(text)]; a text that is not JSON throws a [SyntaxError]
    (the wording of its message is the engine's). *)
Definition parse (text : jsstring) : result value :=
  match parse_value (S (length text)) text with
  | Some (v, rest) =>
      match skip_ws rest with
      | [] => Ok v
      | _ :: _ => Throw (SyntaxError (str "Unexpected non-whitespace character after JSON"))
      end
  | None => Throw (SyntaxError (str "Unexpected token in JSON"))
  end.

Definition hexdigit (n : N) : N := if n <? 10 then 48 + n else 87 + n.

(** The escape [\uXXXX] of a code unit, in lower-case digits. *)
Definition uescape (c : N) : jsstring :=
  [92; 117; hexdigit (N.shiftr c 12); hexdigit (N.land (N.shiftr c 8) 15);
   hexdigit (N.land (N.shiftr c 4) 15); hexdigit (N.land c 15)].

Definition is_high (c : N) : bool := (55296 <=? c) && (c <=? 56319).
Definition is_low (c : N) : bool := (56320 <=? c) && (c <=? 57343).

Definition quote_unit (c : N) : jsstring :=
  if c =? 34 then [92; 34]
  else if c =? 92 then [92; 92]
  else if c =? 8 then [92; 98]
  else if c =? 12 then [92; 102]
  else if c =? 10 then [92; 110]
  else if c =? 13 then [92; 114]
  else if c =? 9 then [92; 116]
  else if c <? 32 then uescape c
  else [c].

(** The characters of a quoted string; a surrogate outside a pair is
    written as an escape. *)
Fixpoint quote_chars (s : jsstring) : jsstring :=
  match s with
  | [] => []
  | c :: r =>
      if is_high c then
        match r with
        | d :: r' =>
            if is_low d then c :: d :: quote_chars r'
            else uescape c ++ quote_chars r
        | [] => uescape c
        end
      else if is_low c then uescape c ++ quote_chars r
      else quote_unit c ++ quote_chars r
  end.

Definition quote (s : jsstring) : jsstring := [34] ++ quote_chars s ++ [34].

Fixpoint join (sep : jsstring) (parts : list jsstring) : jsstring :=
  match parts with
  | [] => []
  | [x] => x
  | x :: rest => x ++ sep ++ join sep rest
  end.

(** [JSON.stringify(v)] without indentation. *)
Fixpoint stringify (v : value) : jsstring :=
  match v with
  | JNull => str "null"
  | JBool true => str "true"
  | JBool false => str "false"
  | JNum l => l
  | JStr x => quote x
  | JArr items => [91] ++ join [44] (map stringify items) ++ [93]
  | JObj members =>
      [123]
      ++ join [44] (map (fun kv => quote (fst kv) ++ [58] ++ stringify (snd kv)) members)
      ++ [125]
  end.

(** Truthiness of a value; a number is falsy when its mantissa has no
    digit other than 0 (the rounding of a lexeme such as 1e-400 to zero
    is not followed). *)
Fixpoint nonzero_mantissa (l : jsstring) : bool :=
  match l with
  | [] => false
  | c :: r =>
      if (c =? 101) || (c =? 69) then false
      else ((49 <=? c) && (c <=? 57)) || nonzero_mantissa r
  end.

Definition truthy (v : value) : bool :=
  match v with
  | JNull => false
  | JBool b => b
  | JNum l => nonzero_mantissa l
  | JStr x => Js.truthy x
  | JArr _ | JObj _ => true
  end.

(** [String(v)]: the conversion [new Error(v)] applies to its message.
    A number is printed as its lexeme, which is the text of the number
    for the integers written without sign, fraction or exponent. *)
Fixpoint ToString (v : value) : jsstring :=
  match v with
  | JNull => str "null"
  | JBool true => str "true"
  | JBool false => str "false"
  | JNum l => l
  | JStr x => x
  | JArr items =>
      join [44] (map (fun i => match i with JNull => [] | _ => ToString i end) items)
  | JObj _ => str "[object Object]"
  end.

(** [v.k] for a property name [k] that no prototype defines: reading a
    property of [null] throws, a value without the property gives
    [undefined]. *)
Definition member (v : value) (k : jsstring) : result (option value) :=
  match v with
  | JNull => Throw (TypeError (str "Cannot read properties of null"))
  | JObj members => Ok (Dict.get k members)
  | _ => Ok None
  end.

End JSON.

(** ** The network: requests, responses and [fetch] *)

Module Request.
Record t : Type := {
  url : jsstring;
  method : jsstring;
  headers : list (jsstring * jsstring);
  body : option jsstring
}.
End Request.

Module Response.

(** The body of a response as its reader yields it: chunks of bytes, then
    the end of the stream or a failure of the connection. *)
Record stream : Type := {
  chunks : list (list byte);
  failure : option exn
}.

Record t : Type := {
  status : N;
  statusText : jsstring;
  body : option stream
}.

(** [res.ok]: the status is in the range 200-299. *)
Definition ok (res : t) : bool := (200 <=? status res) && (status res <=? 299).

(** [res.json()]: the whole body, decoded as UTF-8 and parsed. *)
Definition json (res : t) : result JSON.value :=
  match body res with
  | None => JSON.parse []
  | Some b =>
      match failure b with
      | Some e => Throw e
      | None => JSON.parse (TextDecoder.decode (concat (chunks b)))
      end
  end.

End Response.

(** ** Effects: the requests issued, the caller's state, exceptions *)

Module IO.

Record world (S : Type) : Type := World {
  requests : list Request.t;
  state : S
}.
Arguments World {S} requests state.
Arguments requests {S} w.
Arguments state {S} w.

(** How a computation ends.  [Untyped] stands for a run that received
    data outside its declared TypeScript type; such runs are not
    followed further. *)
Inductive outcome (A : Type) : Type :=
| Return (a : A)
| Raise (e : exn)
| Untyped.
Arguments Return {A} a.
Arguments Raise {A} e.
Arguments Untyped {A}.

Definition t (S A : Type) : Type := world S -> world S * outcome A.

Definition ret {S A : Type} (a : A) : t S A := fun w => (w, Return a).

Definition bind {S A B : Type} (m : t S A) (k : A -> t S B) : t S B :=
  fun w =>
    match m w with
    | (w', Return a) => k a w'
    | (w', Raise e) => (w', Raise e)
    | (w', Untyped) => (w', Untyped)
    end.

Definition raise {S A : Type} (e : exn) : t S A := fun w => (w, Raise e).

Definition untyped {S A : Type} : t S A := fun w => (w, Untyped).

Definition lift {S A : Type} (r : result A) : t S A :=
  match r with
  | Ok a => ret a
  | Throw e => raise e
  end.

Definition get {S : Type} : t S S := fun w => (w, Return (state w)).

Definition modify {S : Type} (f : S -> S) : t S unit :=
  fun w => (World (requests w) (f (state w)), Return tt).

(** [try { m } catch (e) { h e }] *)
Definition try_catch {S A : Type} (m : t S A) (h : exn -> t S A) : t S A :=
  fun w =>
    match m w with
    | (w', Raise e) => h e w'
    | r => r
    end.

(** [try { m } catch (e) { h e } finally { f }] *)
Definition try_catch_finally {S : Type} (m : t S unit) (h : exn -> t S unit)
  (f : t S unit) : t S unit :=
  fun w =>
    match try_catch m h w with
    | (w', Return tt) => f w'
    | (w', Raise e) => bind f (fun _ => raise e) w'
    | (w', Untyped) => (w', Untyped)
    end.

(** [fetch(url, init)] against a server; the request is logged. *)
Definition fetch {S : Type} (server : Request.t -> result Response.t)
  (req : Request.t) : t S Response.t :=
  fun w => (World (requests w ++ [req]) (state w),
            match server req with
            | Ok res => Return res
            | Throw e => Raise e
            end).

End IO.

Declare Scope io_scope.
Delimit Scope io_scope with io.
Notation "x <- m ;; k" := (IO.bind m (fun x => k))
  (at level 61, m at next level, right associativity) : io_scope.
Notation "m ;; k" := (IO.bind m (fun _ => k))
  (at level 61, right associativity) : io_scope.

(** ** [frontend/src/api.ts] *)

Module Api.

Inductive MessageRole : Type := user | assistant.

Module ChatMessage.
Record t : Type := { role : MessageRole; content : jsstring }.

Definition to_json (m : t) : JSON.value :=
  JSON.JObj
    [(str "role", JSON.JStr (match role m with
                             | user => str "user"
                             | assistant => str "assistant"
                             end));
     (str "content", JSON.JStr (content m))].
End ChatMessage.

Module ProviderResponse.
Record t : Type := {
  provider_id : jsstring;
  content : jsstring;
  error : option jsstring
}.
End ProviderResponse.

Module DebateResponse.
Record t : Type := { responses : list ProviderResponse.t }.
End DebateResponse.

(** The three shapes of the union share [model_id]; a field of a shape is
    optional, so an event is a record of optional fields. *)
Module StreamEvent.
Record t : Type := {
  model_id : jsstring;
  delta : option jsstring;
  done : option bool;
  error : option jsstring
}.
End StreamEvent.

Section Client.

Context {S : Type}.
(** [import.meta.env.VITE_API_URL] and the server behind [fetch]. *)
Variable VITE_API_URL : option jsstring.
Variable server : Request.t -> result Response.t.

Local Open Scope io_scope.

Definition API_BASE : jsstring :=
  match VITE_API_URL with
  | Some u => if Js.truthy u then u else str "/api"
  | None => str "/api"
  end.

Definition getAvailableModels : IO.t S JSON.value :=
  res <- IO.fetch server
           {| Request.url := API_BASE ++ str "/models";
              Request.method := str "GET";
              Request.headers := [];
              Request.body := None |} ;;
  if negb (Response.ok res) then IO.ret (JSON.JArr [])
  else
    data <- IO.lift (Response.json res) ;;
    models <- IO.lift (JSON.member data (str "models")) ;;
    IO.ret (match models with
            | Some m => if JSON.truthy m then m else JSON.JArr []
            | None => JSON.JArr []
            end).

(** [{ messages, model_ids: modelIds }]; a property whose value is
    [undefined] is not serialised. *)
Definition payload (messages : list ChatMessage.t)
  (modelIds : option (list jsstring)) : JSON.value :=
  JSON.JObj
    ((str "messages", JSON.JArr (map ChatMessage.to_json messages))
     :: match modelIds with
        | Some ids => [(str "model_ids", JSON.JArr (map JSON.JStr ids))]
        | None => []
        end).

Definition sendDebateRound (messages : list ChatMessage.t)
  (modelIds : option (list jsstring)) : IO.t S JSON.value :=
  res <- IO.fetch server
           {| Request.url := API_BASE ++ str "/debate";
              Request.method := str "POST";
              Request.headers := [(str "Content-Type", str "application/json")];
              Request.body := Some (JSON.stringify (payload messages modelIds)) |} ;;
  if negb (Response.ok res) then
    let err := match Response.json res with
               | Ok v => v
               | Throw _ => JSON.JObj []
               end in
    e <- IO.lift (JSON.member err (str "error")) ;;
    IO.raise (Error (match e with
                     | Some v => if JSON.truthy v then JSON.ToString v
                                 else Response.statusText res
                     | None => Response.statusText res
                     end))
  else IO.lift (Response.json res).

Section Stream.

Variable onEvent : JSON.value -> IO.t S unit.

(** The [for] loop over the complete lines of one read. *)
Fixpoint for_lines (lines : list jsstring) : IO.t S unit :=
  match lines with
  | [] => IO.ret tt
  | line :: rest =>
      (if startsWith line (str "data: ") then
         IO.try_catch
           (data <- IO.lift (JSON.parse (slice 6 line)) ;;
            onEvent data)
           (fun _ => IO.ret tt)
       else IO.ret tt) ;;
      for_lines rest
  end.

(** The [while (true)] loop over the reads; it returns the buffer
    that is left when the reader reports the end. *)
Fixpoint read_loop (dec : TextDecoder.t) (buf : jsstring)
  (chunks : list (list byte)) (failure : option exn) : IO.t S jsstring :=
  match chunks with
  | [] =>
      match failure with
      | Some e => IO.raise e
      | None => IO.ret buf
      end
  | value :: rest =>
      let '(dec, text) := TextDecoder.decode_stream dec value in
      let buf := buf ++ text in
      let lines := split 10 buf in
      let '(last, lines) := pop lines in
      let buf := match last with Some l => l | None => [] end in
      for_lines lines ;;
      read_loop dec buf rest failure
  end.

Definition sendDebateRoundStream (messages : list ChatMessage.t)
  (modelIds : option (list jsstring)) : IO.t S unit :=
  res <- IO.fetch server
           {| Request.url := API_BASE ++ str "/debate/stream";
              Request.method := str "POST";
              Request.headers := [(str "Content-Type", str "application/json")];
              Request.body := Some (JSON.stringify (payload messages modelIds)) |} ;;
  if negb (Response.ok res) then
    let err := match Response.json res with
               | Ok v => v
               | Throw _ => JSON.JObj []
               end in
    e <- IO.lift (JSON.member err (str "error")) ;;
    IO.raise (Error (match e with
                     | Some v => if JSON.truthy v then JSON.ToString v
                                 else Response.statusText res
                     | None => Response.statusText res
                     end))
  else
    match Response.body res with
    | None => IO.raise (Error (str "No response body"))
    | Some reader =>
        _ <- read_loop TextDecoder.create []
               (Response.chunks reader) (Response.failure reader) ;;
        IO.ret tt
    end.

End Stream.

End Client.

End Api.

(** ** [frontend/src/App.tsx]: state, stream callback, submit *)

Module App.

Import Api.

Module Turn.
Record t : Type := {
  user : jsstring;
  responses : list ProviderResponse.t
}.
End Turn.

Module StreamingTurn.
Record t : Type := {
  user : jsstring;
  content : Dict.t jsstring;
  errors : Dict.t jsstring
}.
End StreamingTurn.

Definition known : Dict.t jsstring :=
  [(str "chatgpt", str "ChatGPT");
   (str "gemini", str "Gemini");
   (str "grok", str "Grok");
   (str "kimi", str "Kimi");
   (str "claude", str "Claude")].

(** [known[id] ?? id], as the template literal of [handleSubmit] prints
    it: for a name of [Object.prototype] the lookup yields the inherited
    member, and what is printed is its text. *)
Definition getProviderLabel (id : jsstring) : jsstring :=
  match Dict.read id known with
  | Some label => label
  | None => id
  end.

(** The component's state ([useState] hooks); [selectedModels] is a
    [Set], held as its elements in insertion order. *)
Record state : Type := {
  turns : list Turn.t;
  input : jsstring;
  loading : bool;
  streaming : bool;
  streamingTurn : option StreamingTurn.t;
  error : option jsstring;
  availableModels : list jsstring;
  selectedModels : list jsstring;
  showModelSelector : bool
}.

Definition initial : state :=
  {| turns := []; input := []; loading := false; streaming := false;
     streamingTurn := None; error := None; availableModels := [];
     selectedModels := []; showModelSelector := false |}.

Definition with_turns (f : list Turn.t -> list Turn.t) (s : state) : state :=
  {| turns := f (turns s); input := input s; loading := loading s;
     streaming := streaming s; streamingTurn := streamingTurn s;
     error := error s; availableModels := availableModels s;
     selectedModels := selectedModels s;
     showModelSelector := showModelSelector s |}.

Definition with_input (v : jsstring) (s : state) : state :=
  {| turns := turns s; input := v; loading := loading s;
     streaming := streaming s; streamingTurn := streamingTurn s;
     error := error s; availableModels := availableModels s;
     selectedModels := selectedModels s;
     showModelSelector := showModelSelector s |}.

Definition with_loading (v : bool) (s : state) : state :=
  {| turns := turns s; input := input s; loading := v;
     streaming := streaming s; streamingTurn := streamingTurn s;
     error := error s; availableModels := availableModels s;
     selectedModels := selectedModels s;
     showModelSelector := showModelSelector s |}.

Definition with_streamingTurn
  (f : option StreamingTurn.t -> option StreamingTurn.t) (s : state) : state :=
  {| turns := turns s; input := input s; loading := loading s;
     streaming := streaming s; streamingTurn := f (streamingTurn s);
     error := error s; availableModels := availableModels s;
     selectedModels := selectedModels s;
     showModelSelector := showModelSelector s |}.

Definition with_error (v : option jsstring) (s : state) : state :=
  {| turns := turns s; input := input s; loading := loading s;
     streaming := streaming s; streamingTurn := streamingTurn s;
     error := v; availableModels := availableModels s;
     selectedModels := selectedModels s;
     showModelSelector := showModelSelector s |}.

Definition with_selectedModels (f : list jsstring -> list jsstring)
  (s : state) : state :=
  {| turns := turns s; input := input s; loading := loading s;
     streaming := streaming s; streamingTurn := streamingTurn s;
     error := error s; availableModels := availableModels s;
     selectedModels := f (selectedModels s);
     showModelSelector := showModelSelector s |}.

Definition setTurns (f : list Turn.t -> list Turn.t) : IO.t state unit :=
  IO.modify (with_turns f).
Definition setInput (v : jsstring) : IO.t state unit := IO.modify (with_input v).
Definition setLoading (v : bool) : IO.t state unit := IO.modify (with_loading v).
Definition setStreamingTurn
  (f : option StreamingTurn.t -> option StreamingTurn.t) : IO.t state unit :=
  IO.modify (with_streamingTurn f).
Definition setError (v : option jsstring) : IO.t state unit :=
  IO.modify (with_error v).
Definition setSelectedModels (f : list jsstring -> list jsstring)
  : IO.t state unit := IO.modify (with_selectedModels f).

(** *** The values of the server seen at their declared types *)

Definition optional_string (v : option JSON.value) : option (option jsstring) :=
  match v with
  | None => Some None
  | Some (JSON.JStr x) => Some (Some x)
  | Some _ => None
  end.

Definition optional_bool (v : option JSON.value) : option (option bool) :=
  match v with
  | None => Some None
  | Some (JSON.JBool b) => Some (Some b)
  | Some _ => None
  end.

(** [data as StreamEvent] *)
Definition as_StreamEvent (v : JSON.value) : option StreamEvent.t :=
  match v with
  | JSON.JObj ms =>
      match Dict.get (str "model_id") ms,
            optional_string (Dict.get (str "delta") ms),
            optional_bool (Dict.get (str "done") ms),
            optional_string (Dict.get (str "error") ms) with
      | Some (JSON.JStr id), Some d, Some n, Some e =>
          Some {| StreamEvent.model_id := id; StreamEvent.delta := d;
                  StreamEvent.done := n; StreamEvent.error := e |}
      | _, _, _, _ => None
      end
  | _ => None
  end.

Definition as_ProviderResponse (v : JSON.value) : option ProviderResponse.t :=
  match v with
  | JSON.JObj ms =>
      match Dict.get (str "provider_id") ms,
            Dict.get (str "content") ms,
            Dict.get (str "error") ms with
      | Some (JSON.JStr id), Some (JSON.JStr c), Some JSON.JNull =>
          Some {| ProviderResponse.provider_id := id;
                  ProviderResponse.content := c;
                  ProviderResponse.error := None |}
      | Some (JSON.JStr id), Some (JSON.JStr c), Some (JSON.JStr e) =>
          Some {| ProviderResponse.provider_id := id;
                  ProviderResponse.content := c;
                  ProviderResponse.error := Some e |}
      | _, _, _ => None
      end
  | _ => None
  end.

Fixpoint all_some {A B : Type} (f : A -> option B) (l : list A) : option (list B) :=
  match l with
  | [] => Some []
  | x :: l' =>
      match f x, all_some f l' with
      | Some y, Some ys => Some (y :: ys)
      | _, _ => None
      end
  end.

(** The promised [DebateResponse] *)
Definition as_DebateResponse (v : JSON.value) : option DebateResponse.t :=
  match v with
  | JSON.JObj ms =>
      match Dict.get (str "responses") ms with
      | Some (JSON.JArr items) =>
          match all_some as_ProviderResponse items with
          | Some rs => Some {| DebateResponse.responses := rs |}
          | None => None
          end
      | _ => None
      end
  | _ => None
  end.

(** *** The conversation sent with a round *)

Definition error_truthy (e : option jsstring) : bool :=
  match e with
  | Some x => Js.truthy x
  | None => false
  end.

Definition turnMessages (t : Turn.t) : list ChatMessage.t :=
  {| ChatMessage.role := user; ChatMessage.content := Turn.user t |}
  :: map (fun r =>
            {| ChatMessage.role := assistant;
               ChatMessage.content :=
                 str "Model " ++ getProviderLabel (ProviderResponse.provider_id r)
                 ++ str ": " ++ ProviderResponse.content r |})
       (filter (fun r => Js.truthy (ProviderResponse.content r)
                         && negb (error_truthy (ProviderResponse.error r)))
          (Turn.responses t)).

Definition build_messages (ts : list Turn.t) (text : jsstring) : list ChatMessage.t :=
  flat_map turnMessages ts
  ++ [{| ChatMessage.role := user; ChatMessage.content := text |}].

(** *** The stream callback and the recorded turn *)

(** The updater the callback queues for an event [ev]. *)
Definition on_event (ev : StreamEvent.t) (prev : option StreamingTurn.t)
  : option StreamingTurn.t :=
  match prev with
  | None => None
  | Some prev =>
      let id := StreamEvent.model_id ev in
      let content :=
        match StreamEvent.delta ev with
        | Some d =>
            if Js.truthy d then
              Dict.assign id
                (match Dict.read id (StreamingTurn.content prev) with
                 | Some c => c
                 | None => []
                 end ++ d)
                (StreamingTurn.content prev)
            else StreamingTurn.content prev
        | None => StreamingTurn.content prev
        end in
      let errors :=
        match StreamEvent.error ev with
        | Some e =>
            if Js.truthy e then Dict.assign id e (StreamingTurn.errors prev)
            else StreamingTurn.errors prev
        | None => StreamingTurn.errors prev
        end in
      Some {| StreamingTurn.user := StreamingTurn.user prev;
              StreamingTurn.content := content;
              StreamingTurn.errors := errors |}
  end.

(** The [responses] array built when the stream has ended.  An entry
    of a name that [Object.prototype] defines and that has no error of
    its own gets the inherited member as its [error]: a value that is
    not null, held here as its text. *)
Definition assemble (prev : StreamingTurn.t) : list ProviderResponse.t :=
  let responses :=
    map (fun e =>
           {| ProviderResponse.provider_id := fst e;
              ProviderResponse.content := snd e;
              ProviderResponse.error := Dict.read (fst e) (StreamingTurn.errors prev) |})
      (Dict.entries (StreamingTurn.content prev)) in
  fold_left
    (fun responses id =>
       if existsb (fun r => Js.eqb (ProviderResponse.provider_id r) id) responses
       then responses
       else responses
            ++ [{| ProviderResponse.provider_id := id;
                   ProviderResponse.content := [];
                   ProviderResponse.error := Dict.read id (StreamingTurn.errors prev) |}])
    (Dict.keys (StreamingTurn.errors prev)) responses.

(** The updater run after the stream: record the turn, clear the lane
    state. *)
Definition finish (s : state) : state :=
  match streamingTurn s with
  | None => s
  | Some prev =>
      with_turns
        (fun t => t ++ [{| Turn.user := StreamingTurn.user prev;
                           Turn.responses := assemble prev |}])
        (with_streamingTurn (fun _ => None) s)
  end.

(** The callback given to [sendDebateRoundStream].  Reading [ev.model_id]
    throws when the value parsed is [null]; the updater is queued for an
    event of the declared type. *)
Definition onStreamEvent (data : JSON.value) : IO.t state unit :=
  IO.bind (IO.lift (JSON.member data (str "model_id")))
    (fun _ =>
       match as_StreamEvent data with
       | Some ev => setStreamingTurn (on_event ev)
       | None => IO.untyped
       end).

Definition toggleModel (modelId : jsstring) : IO.t state unit :=
  setSelectedModels
    (fun prev =>
       if existsb (Js.eqb modelId) prev
       then filter (fun m => negb (Js.eqb modelId m)) prev
       else prev ++ [modelId]).

Definition deselectAll : IO.t state unit := setSelectedModels (fun _ => []).

Definition with_availableModels (v : list jsstring) (s : state) : state :=
  {| turns := turns s; input := input s; loading := loading s;
     streaming := streaming s; streamingTurn := streamingTurn s;
     error := error s; availableModels := v;
     selectedModels := selectedModels s;
     showModelSelector := showModelSelector s |}.

Definition setAvailableModels (v : list jsstring) : IO.t state unit :=
  IO.modify (with_availableModels v).

(** [set.add(x)] and [new Set(items)] on a set held as its elements in
    insertion order. *)
Definition Set_add (x : jsstring) (set : list jsstring) : list jsstring :=
  if existsb (Js.eqb x) set then set else set ++ [x].

Definition new_Set (items : list jsstring) : list jsstring :=
  fold_left (fun set x => Set_add x set) items [].

Definition selectAll : IO.t state unit :=
  IO.bind IO.get (fun s => setSelectedModels (fun _ => new_Set (availableModels s))).

(** The value of [getAvailableModels] at its declared type [string[]]. *)
Definition as_string_array (v : JSON.value) : option (list jsstring) :=
  match v with
  | JSON.JArr items =>
      all_some (fun i => match i with JSON.JStr x => Some x | _ => None end) items
  | _ => None
  end.

(** *** What the component shows *)

Definition PROVIDER_COLORS : Dict.t jsstring :=
  [(str "chatgpt", str "var(--chatgpt)");
   (str "gemini", str "var(--gemini)");
   (str "grok", str "var(--grok)");
   (str "kimi", str "var(--kimi)");
   (str "claude", str "var(--claude)")].

(** [PROVIDER_COLORS[id] || "var(--muted)"], as the text the style
    property is set to. *)
Definition providerColor (id : jsstring) : jsstring :=
  match Dict.read id PROVIDER_COLORS with
  | Some c => if Js.truthy c then c else str "var(--muted)"
  | None => str "var(--muted)"
  end.

(** The two placeholders, an em dash and an ellipsis. *)
Definition DASH : jsstring := [8212].
Definition ELLIPSIS : jsstring := [8230].

(** The inside of a response card: the error paragraph or the content,
    with the text of the value shown (a value that is not a string, as
    the function an inherited name yields, leaves the paragraph
    empty on the page). *)
Inductive shown : Type :=
| ShownError (text : jsstring)
| ShownContent (text : jsstring).

Record card : Type := {
  key : jsstring;
  label : jsstring;
  color : jsstring;
  body : shown
}.

(** [{getProviderLabel(id)}] as the child of the label of a card: a
    string is shown; the function that a name inherited from
    [Object.prototype] yields is not (for [__proto__], which yields an
    object, React refuses the child). *)
Definition shownLabel (id : jsstring) : jsstring :=
  if Dict.inherited id then [] else getProviderLabel id.

(** The card of a response of a recorded turn. *)
Definition responseCard (r : ProviderResponse.t) : card :=
  {| key := ProviderResponse.provider_id r;
     label := shownLabel (ProviderResponse.provider_id r);
     color := providerColor (ProviderResponse.provider_id r);
     body :=
       match ProviderResponse.error r with
       | Some ((_ :: _) as e) => ShownError e
       | _ =>
           ShownContent (if Js.truthy (ProviderResponse.content r)
                         then ProviderResponse.content r else DASH)
       end |}.

(** [a.indexOf(v)], [None] standing for -1. *)
Fixpoint indexOf (v : jsstring) (a : list jsstring) : option nat :=
  match a with
  | [] => None
  | x :: rest =>
      if Js.eqb x v then Some O
      else match indexOf v rest with
           | Some i => Some (S i)
           | None => None
           end
  end.

(** [a.filter((v, i) => p(v, i))], the indices counted from [i]. *)
Fixpoint filter_from {A : Type} (p : A -> nat -> bool) (i : nat) (a : list A) : list A :=
  match a with
  | [] => []
  | x :: rest =>
      if p x i then x :: filter_from p (S i) rest else filter_from p (S i) rest
  end.

(** The provider names of the cards of the turn being streamed:
    [[...Object.keys(content), ...Object.keys(errors)]
       .filter((v, i, a) => a.indexOf(v) === i)]. *)
Definition streamingLanes (st : StreamingTurn.t) : list jsstring :=
  let a := Dict.keys (StreamingTurn.content st) ++ Dict.keys (StreamingTurn.errors st) in
  filter_from
    (fun v i => match indexOf v a with
                | Some j => Nat.eqb j i
                | None => false
                end) O a.

(** The card of a provider of the turn being streamed. *)
Definition streamingCard (st : StreamingTurn.t) (modelId : jsstring) : card :=
  {| key := modelId;
     label := shownLabel modelId;
     color := providerColor modelId;
     body :=
       match Dict.read modelId (StreamingTurn.errors st) with
       | Some ((_ :: _) as e) => ShownError e
       | _ =>
           ShownContent
             match Dict.read modelId (StreamingTurn.content st) with
             | Some ((_ :: _) as c) => c
             | _ => ELLIPSIS
             end
       end |}.

(** [disabled] of the submit button. *)
Definition submitDisabled (s : state) : bool :=
  loading s || negb (Js.truthy (Js.trim (input s)))
  || Nat.eqb (length (selectedModels s)) 0.

Section Submit.

Variable VITE_API_URL : option jsstring.
Variable server : Request.t -> result Response.t.

Local Open Scope io_scope.

Definition NO_MODEL : jsstring :=
  str "Please select at least one model to participate.".

Definition handleSubmit : IO.t state unit :=
  s <- IO.get ;;
  let text := Js.trim (input s) in
  if negb (Js.truthy text) || loading s then IO.ret tt
  else if Nat.eqb (length (selectedModels s)) 0 then setError (Some NO_MODEL)
  else
    setInput [] ;;
    setError None ;;
    let messages := build_messages (turns s) text in
    setLoading true ;;
    if streaming s then
      setStreamingTurn
        (fun _ => Some {| StreamingTurn.user := text;
                          StreamingTurn.content := [];
                          StreamingTurn.errors := [] |}) ;;
      IO.try_catch_finally
        (sendDebateRoundStream VITE_API_URL server onStreamEvent
           messages (Some (selectedModels s)) ;;
         IO.modify finish)
        (fun err =>
           setError (Some (Js.message err)) ;;
           setStreamingTurn (fun _ => None))
        (setLoading false)
    else
      IO.try_catch_finally
        (data <- sendDebateRound VITE_API_URL server
                   messages (Some (selectedModels s)) ;;
         match as_DebateResponse data with
         | Some r =>
             setTurns (fun prev =>
                         prev ++ [{| Turn.user := text;
                                     Turn.responses := DebateResponse.responses r |}])
         | None => IO.untyped
         end)
        (fun err => setError (Some (Js.message err)))
        (setLoading false).

(** The effect run when the component mounts:
    [getAvailableModels().then(models => ...)], every model selected.  A
    rejection of the promise is handled nowhere and ends the effect. *)
Definition loadModels : IO.t state unit :=
  models <- getAvailableModels VITE_API_URL server ;;
  match as_string_array models with
  | Some models =>
      setAvailableModels models ;;
      setSelectedModels (fun _ => new_Set models)
  | None => IO.untyped
  end.

End Submit.

End App.


(** * Notions the properties are stated with *)

Module Stream.

(** Reading a text from left to right: the lines a newline has ended, and
    the characters since the last newline. *)
Fixpoint scan (cur : jsstring) (text : jsstring) : list jsstring * jsstring :=
  match text with
  | [] => ([], cur)
  | c :: t =>
      if c =? 10 then let '(ls, p) := scan [] t in (cur :: ls, p)
      else scan (cur ++ [c]) t
  end.

Definition complete_lines (text : jsstring) : list jsstring := fst (scan [] text).
Definition pending (text : jsstring) : jsstring := snd (scan [] text).

(** The event a line stands for: the JSON value after the prefix
    [data: ], when there is the prefix and the rest is a JSON text. *)
Definition event_of_line (line : jsstring) : option JSON.value :=
  if startsWith line (str "data: ") then
    match JSON.parse (skipn 6 line) with
    | Ok v => Some v
    | Throw _ => None
    end
  else None.

Fixpoint events_of_lines (lines : list jsstring) : list JSON.value :=
  match lines with
  | [] => []
  | l :: rest =>
      match event_of_line l with
      | Some v => v :: events_of_lines rest
      | None => events_of_lines rest
      end
  end.

Definition events_of (text : jsstring) : list JSON.value :=
  events_of_lines (complete_lines text).

(** The text a reader sees of a body: its bytes, decoded as a stream. *)
Definition text_of (bytes : list byte) : jsstring :=
  snd (TextDecoder.decode_stream TextDecoder.create bytes).

(** One call of the callback per event, in order; what a call throws is
    dropped. *)
Fixpoint deliver {S : Type} (onEvent : JSON.value -> IO.t S unit)
  (evs : list JSON.value) : IO.t S unit :=
  match evs with
  | [] => IO.ret tt
  | ev :: rest =>
      IO.bind (IO.try_catch (onEvent ev) (fun _ => IO.ret tt))
        (fun _ => deliver onEvent rest)
  end.

(** The callback that only records the value it is called with. *)
Definition record : JSON.value -> IO.t (list JSON.value) unit :=
  fun ev => IO.modify (fun seen => seen ++ [ev]).

(** The request of a round: a POST of the JSON payload to [path]. *)
Definition post (VITE_API_URL : option jsstring) (path : jsstring)
  (messages : list Api.ChatMessage.t) (modelIds : option (list jsstring))
  : Request.t :=
  {| Request.url := Api.API_BASE VITE_API_URL ++ path;
     Request.method := str "POST";
     Request.headers := [(str "Content-Type", str "application/json")];
     Request.body := Some (JSON.stringify (Api.payload messages modelIds)) |}.

End Stream.

Module Lanes.

Import Api.

(** The lane state a streamed round starts from. *)
Definition opened (user : jsstring) : App.StreamingTurn.t :=
  {| App.StreamingTurn.user := user;
     App.StreamingTurn.content := [];
     App.StreamingTurn.errors := [] |}.

(** The updaters of a sequence of events, applied in order. *)
Definition run_events (evs : list StreamEvent.t)
  (start : option App.StreamingTurn.t) : option App.StreamingTurn.t :=
  fold_left (fun st ev => App.on_event ev st) evs start.

(** The delta texts of the events of provider [id], in arrival order. *)
Definition lane_deltas (id : jsstring) (evs : list StreamEvent.t) : list jsstring :=
  flat_map (fun ev =>
              if Js.eqb (StreamEvent.model_id ev) id then
                match StreamEvent.delta ev with
                | Some d => [d]
                | None => []
                end
              else []) evs.

(** The non-empty error texts of the events of provider [id]. *)
Definition lane_errors (id : jsstring) (evs : list StreamEvent.t) : list jsstring :=
  flat_map (fun ev =>
              if Js.eqb (StreamEvent.model_id ev) id then
                match StreamEvent.error ev with
                | Some e => if Js.truthy e then [e] else []
                | None => []
                end
              else []) evs.

(** The content accumulated for provider [id]: the property [id] of
    [content], or the empty text when there is none. *)
Definition accumulated (id : jsstring) (st : App.StreamingTurn.t) : jsstring :=
  match Dict.get id (App.StreamingTurn.content st) with
  | Some c => c
  | None => []
  end.

(** An event of provider [id] that carries a non-empty delta or a
    non-empty error. *)
Definition speaks (id : jsstring) (ev : StreamEvent.t) : bool :=
  Js.eqb (StreamEvent.model_id ev) id
  && (App.error_truthy (StreamEvent.delta ev)
      || App.error_truthy (StreamEvent.error ev)).

(** The last non-empty error text of provider [id], if any. *)
Definition last_error (id : jsstring) (evs : list StreamEvent.t) : option jsstring :=
  match rev (lane_errors id evs) with
  | e :: _ => Some e
  | [] => None
  end.

(** The lane state holds no empty text and no name twice. *)
Definition well_formed (st : App.StreamingTurn.t) : Prop :=
  NoDup (Dict.keys (App.StreamingTurn.content st))
  /\ NoDup (Dict.keys (App.StreamingTurn.errors st))
  /\ Forall (fun kv => snd kv <> []) (App.StreamingTurn.content st)
  /\ Forall (fun kv => snd kv <> []) (App.StreamingTurn.errors st).

Definition Delta (id text : jsstring) : StreamEvent.t :=
  {| StreamEvent.model_id := id; StreamEvent.delta := Some text;
     StreamEvent.done := None; StreamEvent.error := None |}.

Definition Done (id : jsstring) : StreamEvent.t :=
  {| StreamEvent.model_id := id; StreamEvent.delta := None;
     StreamEvent.done := Some true; StreamEvent.error := None |}.

Definition Failed (id text : jsstring) : StreamEvent.t :=
  {| StreamEvent.model_id := id; StreamEvent.delta := None;
     StreamEvent.done := None; StreamEvent.error := Some text |}.

End Lanes.

Module Http.




(** The body is a JSON object with no member [k]. *)
Definition lacks (k : jsstring) (res : Response.t) : bool :=
  match Response.json res with
  | Ok (JSON.JObj members) =>
      match Dict.get k members with
      | None => true
      | Some _ => false
      end
  | _ => false
  end.

(** The body is a JSON value other than null that has no member [k]
    (for a name [k] that no prototype defines): an object without the
    member, an array, a string, a number or a boolean. *)
Definition without (k : jsstring) (res : Response.t) : bool :=
  match Response.json res with
  | Ok JSON.JNull => false
  | Ok (JSON.JObj members) =>
      match Dict.get k members with
      | None => true
      | Some _ => false
      end
  | Ok _ => true
  | Throw _ => false
  end.

(** The body is a JSON object whose member [k] is the array [items]. *)
Definition has_array (k : jsstring) (items : list JSON.value) (res : Response.t) : Prop :=
  exists members,
    Response.json res = Ok (JSON.JObj members)
    /\ Dict.get k members = Some (JSON.JArr items).

(** A computation that issues no request. *)
Definition quiet {S A : Type} (m : IO.t S A) : Prop :=
  forall w, IO.requests (fst (m w)) = IO.requests w.

End Http.

Module Conversation.

Import Api.

Definition user_says (text : jsstring) : ChatMessage.t :=
  {| ChatMessage.role := user; ChatMessage.content := text |}.

Definition assistant_says (text : jsstring) : ChatMessage.t :=
  {| ChatMessage.role := assistant; ChatMessage.content := text |}.

(** The conversation as the specification words it: every turn gives its user
    message and its responses with their recorded content, and the new
    user message ends the sequence. *)
Definition verbatim (ts : list App.Turn.t) (text : jsstring) : list ChatMessage.t :=
  flat_map (fun t =>
              user_says (App.Turn.user t)
              :: map (fun r => assistant_says (ProviderResponse.content r))
                   (App.Turn.responses t)) ts
  ++ [user_says text].

(** The assistant messages of the responses of a turn: one for every
    response with a content and without an error, its content behind the
    label of its provider. *)
Fixpoint answers (rs : list ProviderResponse.t) : list ChatMessage.t :=
  match rs with
  | [] => []
  | r :: rest =>
      match ProviderResponse.content r, ProviderResponse.error r with
      | _ :: _, None | _ :: _, Some [] =>
          assistant_says
            (str "Model " ++ App.getProviderLabel (ProviderResponse.provider_id r)
             ++ str ": " ++ ProviderResponse.content r)
          :: answers rest
      | _, _ => answers rest
      end
  end.

Fixpoint labelled (ts : list App.Turn.t) (text : jsstring) : list ChatMessage.t :=
  match ts with
  | [] => [user_says text]
  | t :: rest =>
      user_says (App.Turn.user t) :: answers (App.Turn.responses t) ++ labelled rest text
  end.

Definition from_user (m : ChatMessage.t) : bool :=
  match ChatMessage.role m with
  | user => true
  | assistant => false
  end.

(** The path a submit posts to. *)
Definition path (s : App.state) : jsstring :=
  if App.streaming s then str "/debate/stream" else str "/debate".

End Conversation.

Module Seq.

(** The values of [l] not in [seen], each once, in the order of their
    first occurrence. *)
Fixpoint distinct_from (seen l : list jsstring) : list jsstring :=
  match l with
  | [] => []
  | x :: rest =>
      if existsb (Js.eqb x) seen then distinct_from seen rest
      else x :: distinct_from (seen ++ [x]) rest
  end.

Definition distinct (l : list jsstring) : list jsstring := distinct_from [] l.

End Seq.

Module Round.

(** The request of a submit that passes the guards. *)
Definition request (VITE_API_URL : option jsstring) (s : App.state) : Request.t :=
  Stream.post VITE_API_URL (Conversation.path s)
    (App.build_messages (App.turns s) (Js.trim (App.input s)))
    (Some (App.selectedModels s)).

(** The parts of the state that say which models there are, which are
    selected and which mode is chosen. *)
Definition same_setup (s s' : App.state) : Prop :=
  App.availableModels s' = App.availableModels s
  /\ App.selectedModels s' = App.selectedModels s
  /\ App.streaming s' = App.streaming s
  /\ App.showModelSelector s' = App.showModelSelector s.

(** The submit passes the two guards of [handleSubmit]. *)
Definition accepted (s : App.state) : Prop :=
  Js.truthy (Js.trim (App.input s)) = true
  /\ App.loading s = false
  /\ App.selectedModels s <> [].

(** The state while the round of an accepted submit is in flight. *)
Definition started (s : App.state) : App.state :=
  App.with_loading true (App.with_error None (App.with_input [] s)).

(** The state after a round that failed with [message]: nothing recorded,
    the input gone, the lane state of a streamed round dropped. *)
Definition failed (s : App.state) (message : jsstring) : App.state :=
  {| App.turns := App.turns s;
     App.input := [];
     App.loading := false;
     App.streaming := App.streaming s;
     App.streamingTurn := if App.streaming s then None else App.streamingTurn s;
     App.error := Some message;
     App.availableModels := App.availableModels s;
     App.selectedModels := App.selectedModels s;
     App.showModelSelector := App.showModelSelector s |}.

(** The state after a round that recorded [responses]. *)
Definition recorded (s : App.state) (responses : list Api.ProviderResponse.t)
  : App.state :=
  {| App.turns :=
       App.turns s
       ++ [{| App.Turn.user := Js.trim (App.input s);
              App.Turn.responses := responses |}];
     App.input := [];
     App.loading := false;
     App.streaming := App.streaming s;
     App.streamingTurn := if App.streaming s then None else App.streamingTurn s;
     App.error := None;
     App.availableModels := App.availableModels s;
     App.selectedModels := App.selectedModels s;
     App.showModelSelector := App.showModelSelector s |}.

(** The request the component issues when it mounts. *)
Definition listing (VITE_API_URL : option jsstring) : Request.t :=
  {| Request.url := Api.API_BASE VITE_API_URL ++ str "/models";
     Request.method := str "GET";
     Request.headers := [];
     Request.body := None |}.

(** The selection after the box of [modelId] was toggled. *)
Definition toggled (modelId : jsstring) (s : App.state) : list jsstring :=
  App.selectedModels
    (IO.state (fst (App.toggleModel modelId (IO.World [] s)))).

End Round.

(** * Sample inputs *)

Module Example.

(** Texts of the samples are written with an apostrophe for the double
    quote and a tilde for the newline. *)
Definition lit (s : String.string) : list byte :=
  map (fun b => if Byte.eqb b x27 then x22
                else if Byte.eqb b x7e then x0a else b)
    (String.list_byte_of_string s).

Definition js (s : String.string) : jsstring := map Byte.to_N (lit s).

(** A server that answers every request with [res]. *)
Definition serve (res : Response.t) : Request.t -> result Response.t :=
  fun _ => Ok res.

Definition streamed (chunks : list (list byte)) : Response.t :=
  {| Response.status := 200; Response.statusText := str "OK";
     Response.body := Some {| Response.chunks := chunks; Response.failure := None |} |}.

Definition answered (status : N) (statusText : String.string)
  (body : String.string) : Response.t :=
  {| Response.status := status; Response.statusText := str statusText;
     Response.body := Some {| Response.chunks := [lit body]; Response.failure := None |} |}.

(** A stream of four lines cut in the middle of the second one; the second
    line is not JSON, the third has no prefix, the last has no newline. *)
Definition two_reads : list (list byte) :=
  [lit "data: {'model_id':'a','delta':'He'}~data: {'model";
   lit "_id'~: ping~data: {'model_id':'a','done':true}~data: {'model_id':'b','done':true}"].

Definition delta_event (id text : String.string) : JSON.value :=
  JSON.JObj [(str "model_id", JSON.JStr (str id)); (str "delta", JSON.JStr (str text))].

Definition done_event (id : String.string) : JSON.value :=
  JSON.JObj [(str "model_id", JSON.JStr (str id)); (str "done", JSON.JBool true)].

(** An event whose text has a three-byte character, read in three chunks
    that cut the character, and the same bytes read at once. *)
Definition euro_cut : list (list byte) :=
  [lit "data: {'model_id':'a','delta':'" ++ [xe2];
   [x82];
   [xac] ++ lit "'}~"].

Definition euro_whole : list (list byte) := [concat euro_cut].

(** A stream whose last line, a terminal event, has no newline. *)
Definition no_final_newline : list (list byte) :=
  [lit "data: {'model_id':'a','delta':'hi'}~data: {'model_id':'a','done':true}"].

(** The state of the component with a text typed in. *)
Definition ready (text : String.string) (stream : bool) (selected : list jsstring)
  : App.state :=
  {| App.turns := []; App.input := str text; App.loading := false;
     App.streaming := stream; App.streamingTurn := None; App.error := None;
     App.availableModels := selected; App.selectedModels := selected;
     App.showModelSelector := false |}.

(** A stream in which provider C only ends its lane. *)
Definition three_lanes : list (list byte) :=
  [lit "data: {'model_id':'A','delta':'He'}~data: {'model_id':'B','error':'boom'}~";
   lit "data: {'model_id':'C','done':true}~data: {'model_id':'A','delta':'llo'}~";
   lit "data: {'model_id':'A','done':true}~"].

Definition only_done : list (list byte) :=
  [lit "data: {'model_id':'A','done':true}~"].

(** A stream in which a provider that bears the name [__proto__] sends a
    delta and an error. *)
Definition prototype_lane : list (list byte) :=
  [lit "data: {'model_id':'__proto__','delta':'He'}~";
   lit "data: {'model_id':'__proto__','error':'boom'}~"].

(** A turn with an answer of ChatGPT and a failure of Gemini. *)
Definition one_turn : list App.Turn.t :=
  [{| App.Turn.user := str "hi";
      App.Turn.responses :=
        [{| Api.ProviderResponse.provider_id := str "chatgpt";
            Api.ProviderResponse.content := str "yo";
            Api.ProviderResponse.error := None |};
         {| Api.ProviderResponse.provider_id := str "gemini";
            Api.ProviderResponse.content := [];
            Api.ProviderResponse.error := Some (str "timeout") |}] |}].

(** The state after [one_turn], with the next text typed in between
    blanks and the batch mode chosen. *)
Definition second_round : App.state :=
  {| App.turns := one_turn; App.input := str " next "; App.loading := false;
     App.streaming := false; App.streamingTurn := None; App.error := None;
     App.availableModels := [str "chatgpt"; str "gemini"];
     App.selectedModels := [str "chatgpt"; str "gemini"];
     App.showModelSelector := false |}.

Definition batch_answer : Response.t :=
  answered 200 "OK"
    "{'responses':[{'provider_id':'chatgpt','content':'ok','error':null},{'provider_id':'gemini','content':'','error':'timeout'}]}".

(** A server that cannot be reached. *)
Definition offline : Request.t -> result Response.t :=
  fun _ => Throw (TypeError (str "Failed to fetch")).

(** A stream that delivers a delta of A and then loses the connection. *)
Definition broken_stream : Response.t :=
  {| Response.status := 200; Response.statusText := str "OK";
     Response.body :=
       Some {| Response.chunks := [lit "data: {'model_id':'A','delta':'He'}~"];
               Response.failure := Some (TypeError (str "network error")) |} |}.

End Example.

(** * Properties *)

(** ** Strings *)

Lemma eqb_eq (a b : jsstring) : Js.eqb a b = true <-> a = b.
Proof.
  revert b; induction a as [|x a IH]; intros [|y b]; simpl; split; try easy.
  - intros H. apply andb_true_iff in H as [Hx Hab].
    apply N.eqb_eq in Hx. apply IH in Hab. now subst.
  - intros H. injection H as -> ->. rewrite N.eqb_refl. now apply IH.
Qed.

Lemma eqb_refl (a : jsstring) : Js.eqb a a = true.
Proof. now apply eqb_eq. Qed.

Lemma eqb_neq (a b : jsstring) : Js.eqb a b = false <-> a <> b.
Proof.
  split.
  - intros H E. apply eqb_eq in E. congruence.
  - intros H. destruct (Js.eqb a b) eqn:E; [apply eqb_eq in E; contradiction | easy].
Qed.

Lemma pop_snoc {A : Type} (l : list A) (x : A) : pop (l ++ [x]) = (Some x, l).
Proof. unfold pop. rewrite rev_app_distr. simpl. now rewrite rev_involutive. Qed.

(** ** [JSON.parse] on samples *)

Example parse_sample_value :
  JSON.parse
    (Example.js " [1, 2.5e-3, true, null, {'a':[ ], 'b':{}, 'a': 'x\nA'}, -0.0E+5] ") =
  Ok (JSON.JArr
        [JSON.JNum (str "1"); JSON.JNum (str "2.5e-3"); JSON.JBool true; JSON.JNull;
         JSON.JObj [(str "a", JSON.JStr [120; 10; 65]); (str "b", JSON.JObj [])];
         JSON.JNum (str "-0.0E+5")]).
Proof. vm_compute. reflexivity. Qed.

Example parse_sample_verdicts :
  map (fun s => match JSON.parse (Example.js s) with Ok _ => true | Throw _ => false end)
    ["[1,]"; "01"; "-"; "'a"; ""; "nullx"; "{'a':1,}"; "1."; "1e"; ".5"; "+1";
     "[[[[[[]]]]]]"; "[[],[],[],[]]"; "0"; "-0"; "1e5"; "{'a':{'b':[{'c':null}]}}"] =
  [false; false; false; false; false; false; false; false; false; false; false;
   true; true; true; true; true; true].
Proof. vm_compute. reflexivity. Qed.

(** ** The fuel of the parser *)

Lemma skip_ws_length (s : jsstring) : (length (JSON.skip_ws s) <= length s)%nat.
Proof.
  induction s as [|c s IH]; simpl; [lia|].
  destruct (JSON.is_ws c); simpl; lia.
Qed.

Lemma digits_length (s : jsstring) :
  (length (snd (JSON.digits s)) <= length s)%nat.
Proof.
  induction s as [|c s IH]; simpl; [lia|].
  destruct (JSON.is_digit c); [|simpl; lia].
  destruct (JSON.digits s) as [ds r]. simpl in *. lia.
Qed.

Lemma opt_sign_length (accept : N -> bool) (s : jsstring) :
  (length (snd (JSON.opt_sign accept s)) <= length s)%nat.
Proof.
  destruct s as [|c r]; simpl; [lia|]. destruct (accept c); simpl; lia.
Qed.

Lemma int_part_length (s ip r : jsstring) :
  JSON.int_part s = Some (ip, r) -> (length r < length s)%nat.
Proof.
  destruct s as [|c s]; simpl; [discriminate|].
  destruct (c =? 48); [intros [= <- <-]; lia|].
  destruct (JSON.is_digit c); [|discriminate].
  pose proof (digits_length s) as H. destruct (JSON.digits s) as [ds r'].
  intros [= <- <-]. simpl in H. lia.
Qed.

Lemma frac_part_length (s fp r : jsstring) :
  JSON.frac_part s = Some (fp, r) -> (length r <= length s)%nat.
Proof.
  destruct s as [|d s]; simpl; [intros [= <- <-]; simpl; lia|].
  destruct (d =? 46); [|intros [= <- <-]; simpl; lia].
  pose proof (digits_length s) as H. destruct (JSON.digits s) as [[|d0 ds] r'];
    [discriminate|]. intros [= <- <-]. simpl in H. lia.
Qed.

Lemma exp_part_length (s ep r : jsstring) :
  JSON.exp_part s = Some (ep, r) -> (length r <= length s)%nat.
Proof.
  destruct s as [|e s]; simpl; [intros [= <- <-]; simpl; lia|].
  destruct ((e =? 101) || (e =? 69)); [|intros [= <- <-]; simpl; lia].
  pose proof (opt_sign_length (fun g => (g =? 43) || (g =? 45)) s) as Hs.
  destruct (JSON.opt_sign _ s) as [sg r1].
  pose proof (digits_length r1) as H. destruct (JSON.digits r1) as [[|d0 ds] r'];
    [discriminate|]. intros [= <- <-]. simpl in *. lia.
Qed.

Lemma number_length (s l r : jsstring) :
  JSON.number s = Some (l, r) -> (length r < length s)%nat.
Proof.
  unfold JSON.number.
  pose proof (opt_sign_length (fun c => c =? 45) s) as Hs.
  destruct (JSON.opt_sign _ s) as [sign s1].
  destruct (JSON.int_part s1) as [[ip s2]|] eqn:Ei; [|discriminate].
  destruct (JSON.frac_part s2) as [[fp s3]|] eqn:Ef; [|discriminate].
  destruct (JSON.exp_part s3) as [[ep s4]|] eqn:Ee; [|discriminate].
  intros [= <- <-].
  apply int_part_length in Ei. apply frac_part_length in Ef.
  apply exp_part_length in Ee. simpl in Hs. lia.
Qed.

Lemma consc_some (c : N) (o : option (jsstring * jsstring)) (x r : jsstring) :
  JSON.consc c o = Some (x, r) -> exists x', o = Some (x', r).
Proof. destruct o as [[x' r']|]; simpl; [|discriminate]. intros [= <- <-]. eauto. Qed.

Lemma chars_length_bound (n : nat) :
  forall s x r, (length s <= n)%nat ->
  JSON.chars s = Some (x, r) -> (length r < length s)%nat.
Proof.
  induction n as [|n IH]; intros s x r Hn H.
  - destruct s; [discriminate | simpl in Hn; lia].
  - destruct s as [|c s]; [discriminate|]. cbn [JSON.chars] in H.
    destruct (c =? 34).
    + injection H as <- <-. simpl. lia.
    + destruct (c =? 92).
      * destruct s as [|e s1]; [discriminate|].
        destruct (e =? 117).
        -- destruct s1 as [|h1 [|h2 [|h3 [|h4 s2]]]]; try discriminate.
           destruct (JSON.hex4 h1 h2 h3 h4); [|discriminate].
           apply consc_some in H as (x' & H).
           apply IH in H; simpl in *; lia.
        -- destruct (JSON.escape e); [|discriminate].
           apply consc_some in H as (x' & H).
           apply IH in H; simpl in *; lia.
      * destruct (c <? 32); [discriminate|].
        apply consc_some in H as (x' & H).
        apply IH in H; simpl in *; lia.
Qed.

Lemma chars_length (s x r : jsstring) :
  JSON.chars s = Some (x, r) -> (length r < length s)%nat.
Proof. apply (chars_length_bound (length s)). lia. Qed.

Lemma startsWith_length (s p : jsstring) :
  startsWith s p = true -> (length p <= length s)%nat.
Proof.
  revert s; induction p as [|y p IH]; intros s H; simpl; [lia|].
  destruct s as [|x s]; [discriminate|]. simpl in H.
  apply andb_true_iff in H as [_ H]. apply IH in H. simpl. lia.
Qed.

Lemma skipn_length_lt (n : nat) (s : jsstring) :
  (0 < n <= length s)%nat -> (length (skipn n s) < length s)%nat.
Proof. intros H. rewrite length_skipn. lia. Qed.

Local Opaque skipn.

(** A parse that succeeds consumes a character at least, and succeeds
    with the same result on every fuel that is not less than the number of
    characters it consumes. *)
Lemma parse_fuel (f : nat) :
  (forall s v r,
     JSON.parse_value f s = Some (v, r) ->
     (length r < length s)%nat
     /\ forall f', (length s - length r <= f')%nat ->
                   JSON.parse_value f' s = Some (v, r))
  /\ (forall s vs r,
        JSON.parse_elements f s = Some (vs, r) ->
        (length r < length s)%nat
        /\ forall f', (length s - length r <= f')%nat ->
                      JSON.parse_elements f' s = Some (vs, r))
  /\ (forall s ms r,
        JSON.parse_members f s = Some (ms, r) ->
        (length r < length s)%nat
        /\ forall f', (length s - length r <= f')%nat ->
                      JSON.parse_members f' s = Some (ms, r)).
Proof.
  induction f as [|f (IHv & IHe & IHm)]; [repeat split; discriminate|].
  split; [|split].
  - intros s v r H. cbn [JSON.parse_value] in H.
    pose proof (skip_ws_length s) as Hws.
    destruct (startsWith (JSON.skip_ws s) (str "null")) eqn:E1.
    { injection H as <- <-. apply startsWith_length in E1 as L. cbn in L.
      pose proof (skipn_length_lt 4 (JSON.skip_ws s) ltac:(lia)).
      split; [lia|]. intros [|f'] Hf; [lia|].
      cbn [JSON.parse_value]. now rewrite E1. }
    destruct (startsWith (JSON.skip_ws s) (str "true")) eqn:E2.
    { injection H as <- <-. apply startsWith_length in E2 as L. cbn in L.
      pose proof (skipn_length_lt 4 (JSON.skip_ws s) ltac:(lia)).
      split; [lia|]. intros [|f'] Hf; [lia|].
      cbn [JSON.parse_value]. now rewrite E1, E2. }
    destruct (startsWith (JSON.skip_ws s) (str "false")) eqn:E3.
    { injection H as <- <-. apply startsWith_length in E3 as L. cbn in L.
      pose proof (skipn_length_lt 5 (JSON.skip_ws s) ltac:(lia)).
      split; [lia|]. intros [|f'] Hf; [lia|].
      cbn [JSON.parse_value]. now rewrite E1, E2, E3. }
    destruct (JSON.skip_ws s) as [|c r0] eqn:Es; [discriminate|].
    cbn [length] in Hws.
    destruct (c =? 34) eqn:Ec1.
    { destruct (JSON.chars r0) as [[x r']|] eqn:Ech; [|discriminate].
      injection H as <- <-. apply chars_length in Ech as L.
      split; [lia|]. intros [|f'] Hf; [lia|].
      cbn [JSON.parse_value]. now rewrite Es, E1, E2, E3, Ec1, Ech. }
    destruct (c =? 91) eqn:Ec2.
    { destruct (JSON.skip_ws r0) as [|c2 r2] eqn:Es2; [discriminate|].
      pose proof (skip_ws_length r0) as Hws2. rewrite Es2 in Hws2. cbn [length] in Hws2.
      destruct (c2 =? 93) eqn:Ec3.
      - injection H as <- <-. split; [lia|]. intros [|f'] Hf; [lia|].
        cbn [JSON.parse_value]. now rewrite Es, E1, E2, E3, Ec1, Ec2, Es2, Ec3.
      - destruct (JSON.parse_elements f r0) as [[vs r']|] eqn:Ee; [|discriminate].
        injection H as <- <-. destruct (IHe _ _ _ Ee) as (L & Hf0).
        split; [lia|]. intros [|f'] Hf; [lia|].
        cbn [JSON.parse_value]. rewrite Es, E1, E2, E3, Ec1, Ec2, Es2, Ec3.
        now rewrite (Hf0 f') by lia. }
    destruct (c =? 123) eqn:Ec4.
    { destruct (JSON.skip_ws r0) as [|c2 r2] eqn:Es2; [discriminate|].
      pose proof (skip_ws_length r0) as Hws2. rewrite Es2 in Hws2. cbn [length] in Hws2.
      destruct (c2 =? 125) eqn:Ec3.
      - injection H as <- <-. split; [lia|]. intros [|f'] Hf; [lia|].
        cbn [JSON.parse_value]. now rewrite Es, E1, E2, E3, Ec1, Ec2, Ec4, Es2, Ec3.
      - destruct (JSON.parse_members f r0) as [[ms r']|] eqn:Em; [|discriminate].
        injection H as <- <-. destruct (IHm _ _ _ Em) as (L & Hf0).
        split; [lia|]. intros [|f'] Hf; [lia|].
        cbn [JSON.parse_value]. rewrite Es, E1, E2, E3, Ec1, Ec2, Ec4, Es2, Ec3.
        now rewrite (Hf0 f') by lia. }
    destruct (JSON.number (c :: r0)) as [[l r']|] eqn:En; [|discriminate].
    injection H as <- <-. apply number_length in En as L. cbn [length] in L.
    split; [lia|]. intros [|f'] Hf; [lia|].
    cbn [JSON.parse_value]. now rewrite Es, E1, E2, E3, Ec1, Ec2, Ec4, En.
  - intros s vs r H. cbn [JSON.parse_elements] in H.
    destruct (JSON.parse_value f s) as [[v r1]|] eqn:Ev; [|discriminate].
    destruct (IHv _ _ _ Ev) as (L1 & Hf1).
    destruct (JSON.skip_ws r1) as [|c r2] eqn:Es; [discriminate|].
    pose proof (skip_ws_length r1) as Hws. rewrite Es in Hws. cbn [length] in Hws.
    destruct (c =? 44) eqn:Ec1.
    + destruct (JSON.parse_elements f r2) as [[vs' r3]|] eqn:Ee; [|discriminate].
      injection H as <- <-. destruct (IHe _ _ _ Ee) as (L2 & Hf2).
      split; [lia|]. intros [|f'] Hf; [lia|].
      cbn [JSON.parse_elements]. rewrite (Hf1 f') by lia. rewrite Es, Ec1.
      now rewrite (Hf2 f') by lia.
    + destruct (c =? 93) eqn:Ec2; [|discriminate].
      injection H as <- <-. split; [lia|]. intros [|f'] Hf; [lia|].
      cbn [JSON.parse_elements]. rewrite (Hf1 f') by lia. now rewrite Es, Ec1, Ec2.
  - intros s ms r H. cbn [JSON.parse_members] in H.
    destruct (JSON.skip_ws s) as [|q0 r0] eqn:Es0; [discriminate|].
    pose proof (skip_ws_length s) as Hws0. rewrite Es0 in Hws0. cbn [length] in Hws0.
    destruct (q0 =? 34) eqn:Eq; [|discriminate].
    destruct (JSON.chars r0) as [[k r1]|] eqn:Ech; [|discriminate].
    apply chars_length in Ech as Lk.
    destruct (JSON.skip_ws r1) as [|c1 r2] eqn:Es1; [discriminate|].
    pose proof (skip_ws_length r1) as Hws1. rewrite Es1 in Hws1. cbn [length] in Hws1.
    destruct (c1 =? 58) eqn:Ec1; [|discriminate].
    destruct (JSON.parse_value f r2) as [[v r3]|] eqn:Ev; [|discriminate].
    destruct (IHv _ _ _ Ev) as (L1 & Hf1).
    destruct (JSON.skip_ws r3) as [|c3 r4] eqn:Es3; [discriminate|].
    pose proof (skip_ws_length r3) as Hws3. rewrite Es3 in Hws3. cbn [length] in Hws3.
    destruct (c3 =? 44) eqn:Ec3.
    + destruct (JSON.parse_members f r4) as [[ms' r5]|] eqn:Em; [|discriminate].
      injection H as <- <-. destruct (IHm _ _ _ Em) as (L2 & Hf2).
      split; [lia|]. intros [|f'] Hf; [lia|].
      cbn [JSON.parse_members]. rewrite Es0, Eq, Ech, Es1, Ec1.
      rewrite (Hf1 f') by lia. rewrite Es3, Ec3. now rewrite (Hf2 f') by lia.
    + destruct (c3 =? 125) eqn:Ec4; [|discriminate].
      injection H as <- <-. split; [lia|]. intros [|f'] Hf; [lia|].
      cbn [JSON.parse_members]. rewrite Es0, Eq, Ech, Es1, Ec1.
      rewrite (Hf1 f') by lia. now rewrite Es3, Ec3, Ec4.
Qed.

Local Transparent skipn.

(** The fuel [parse] gives is enough: more fuel never changes the
    result. *)
Lemma parse_value_fuel_enough (text : jsstring) (f : nat) :
  (length text < f)%nat ->
  JSON.parse_value f text = JSON.parse_value (S (length text)) text.
Proof.
  intros Hf.
  destruct (JSON.parse_value f text) as [[v r]|] eqn:E1.
  - destruct (proj1 (parse_fuel f) _ _ _ E1) as (_ & H). symmetry. apply H. lia.
  - destruct (JSON.parse_value (S (length text)) text) as [[v r]|] eqn:E2; [|reflexivity].
    destruct (proj1 (parse_fuel _) _ _ _ E2) as (_ & H).
    rewrite H in E1 by lia. discriminate.
Qed.

(** ** Lines of a text *)

Lemma scan_cur (cur text : jsstring) :
  Stream.scan cur text =
  match Stream.scan [] text with
  | ([], p) => ([], cur ++ p)
  | (l :: ls, p) => ((cur ++ l) :: ls, p)
  end.
Proof.
  revert cur; induction text as [|c t IH]; intros cur; simpl.
  - now rewrite app_nil_r.
  - destruct (c =? 10).
    + destruct (Stream.scan [] t) as [ls p]. now rewrite app_nil_r.
    + rewrite (IH (cur ++ [c])), (IH [c]).
      destruct (Stream.scan [] t) as [[|l ls] p]; now rewrite <- app_assoc.
Qed.

Lemma scan_app (cur a b : jsstring) :
  Stream.scan cur (a ++ b) =
  let '(l1, p1) := Stream.scan cur a in
  let '(l2, p2) := Stream.scan p1 b in
  (l1 ++ l2, p2).
Proof.
  revert cur; induction a as [|c a IH]; intros cur; simpl.
  - now destruct (Stream.scan cur b).
  - destruct (c =? 10).
    + rewrite IH. destruct (Stream.scan [] a) as [l1 p1].
      now destruct (Stream.scan p1 b).
    + apply IH.
Qed.

(** [split] and [pop] compute the lines a newline ended and the rest. *)
Lemma split_scan (s : jsstring) :
  split 10 s = Stream.complete_lines s ++ [Stream.pending s].
Proof.
  unfold Stream.complete_lines, Stream.pending.
  induction s as [|c s IH]; simpl; [reflexivity|].
  destruct (c =? 10).
  - rewrite IH. now destruct (Stream.scan [] s).
  - rewrite IH, (scan_cur [c]).
    destruct (Stream.scan [] s) as [[|l ls] p]; reflexivity.
Qed.

Lemma pop_split (s : jsstring) :
  pop (split 10 s) = (Some (Stream.pending s), Stream.complete_lines s).
Proof. rewrite split_scan. apply pop_snoc. Qed.

(** The rest after the last newline holds no newline, so reading on from
    it is reading on from the text itself. *)
Lemma scan_no_newline (cur text : jsstring) :
  Forall (fun c => c <> 10) cur ->
  Stream.scan [] (cur ++ text) = Stream.scan cur text.
Proof.
  intros H. rewrite scan_app.
  assert (E : Stream.scan [] cur = ([], cur)).
  { clear text. rewrite <- (app_nil_l cur) at 2. generalize (@nil N) as acc.
    induction H as [|c cur Hc _ IH]; intros acc; simpl.
    - now rewrite app_nil_r.
    - apply N.eqb_neq in Hc. rewrite Hc, IH. now rewrite <- app_assoc. }
  rewrite E. now destruct (Stream.scan cur text).
Qed.

Lemma scan_pending_no_newline (cur text : jsstring) :
  Forall (fun c => c <> 10) cur ->
  Forall (fun c => c <> 10) (snd (Stream.scan cur text)).
Proof.
  revert cur; induction text as [|c t IH]; intros cur H; simpl; [assumption|].
  destruct (c =? 10) eqn:E.
  - specialize (IH [] (Forall_nil _)). now destruct (Stream.scan [] t).
  - apply IH. apply Forall_app. split; [assumption|].
    constructor; [now apply N.eqb_neq | constructor].
Qed.

Lemma pending_no_newline (text : jsstring) :
  Forall (fun c => c <> 10) (Stream.pending text).
Proof. apply scan_pending_no_newline. constructor. Qed.

Lemma complete_lines_app (a b : jsstring) :
  Stream.complete_lines (a ++ b) =
  Stream.complete_lines a ++ Stream.complete_lines (Stream.pending a ++ b).
Proof.
  unfold Stream.complete_lines, Stream.pending.
  rewrite scan_app, (scan_no_newline (snd (Stream.scan [] a))).
  - destruct (Stream.scan [] a) as [l1 p1]. simpl.
    now destruct (Stream.scan p1 b).
  - apply pending_no_newline.
Qed.

Lemma pending_app (a b : jsstring) :
  Stream.pending (a ++ b) = Stream.pending (Stream.pending a ++ b).
Proof.
  unfold Stream.pending.
  rewrite scan_app, (scan_no_newline (snd (Stream.scan [] a))).
  - destruct (Stream.scan [] a) as [l1 p1]. simpl.
    now destruct (Stream.scan p1 b).
  - apply pending_no_newline.
Qed.

Lemma events_of_lines_app (a b : list jsstring) :
  Stream.events_of_lines (a ++ b) =
  Stream.events_of_lines a ++ Stream.events_of_lines b.
Proof.
  induction a as [|l a IH]; simpl; [reflexivity|].
  destruct (Stream.event_of_line l); simpl; now rewrite IH.
Qed.

(** ** The decoder reads byte by byte *)

Lemma run_app (st : TextDecoder.utf8) (a b : list byte) :
  TextDecoder.run st (a ++ b) =
  let '(st1, o1) := TextDecoder.run st a in
  let '(st2, o2) := TextDecoder.run st1 b in
  (st2, o1 ++ o2).
Proof.
  revert st; induction a as [|x a IH]; intros st; simpl.
  - now destruct (TextDecoder.run st b).
  - destruct (TextDecoder.handler st (Byte.to_N x)) as [st1 o1].
    rewrite IH. destruct (TextDecoder.run st1 a) as [st2 o2].
    destruct (TextDecoder.run st2 b) as [st3 o3]. now rewrite app_assoc.
Qed.

Lemma serialize_app (seen : bool) (x y : list N) :
  TextDecoder.serialize seen (x ++ y) =
  let '(s1, t1) := TextDecoder.serialize seen x in
  let '(s2, t2) := TextDecoder.serialize s1 y in
  (s2, t1 ++ t2).
Proof.
  destruct x as [|cp x].
  - simpl. now destruct (TextDecoder.serialize seen y).
  - unfold TextDecoder.serialize at 1 2. rewrite <- app_comm_cons.
    destruct (negb seen && (cp =? 65279)); destruct y as [|c y];
      cbn [TextDecoder.serialize negb andb];
      rewrite ?app_nil_r; try reflexivity;
      rewrite ?app_comm_cons, ?flat_map_app; reflexivity.
Qed.

(** Decoding two chunks one after the other gives the text of their
    concatenation, and leaves the decoder in the same state. *)
Lemma decode_stream_app (d : TextDecoder.t) (a b : list byte) :
  TextDecoder.decode_stream d (a ++ b) =
  let '(d1, t1) := TextDecoder.decode_stream d a in
  let '(d2, t2) := TextDecoder.decode_stream d1 b in
  (d2, t1 ++ t2).
Proof.
  unfold TextDecoder.decode_stream. rewrite run_app.
  destruct (TextDecoder.run (TextDecoder.state d) a) as [st1 o1].
  destruct (TextDecoder.run st1 b) as [st2 o2] eqn:Eb.
  rewrite serialize_app.
  destruct (TextDecoder.serialize (TextDecoder.bom_seen d) o1) as [s1 t1].
  cbn [TextDecoder.state TextDecoder.bom_seen]. rewrite Eb.
  now destruct (TextDecoder.serialize s1 o2).
Qed.

Lemma decode_stream_nil (d : TextDecoder.t) :
  TextDecoder.decode_stream d [] = (d, []).
Proof. now destruct d. Qed.

(** ** Computations *)

Lemma bind_ext {S A B : Type} (m m' : IO.t S A) (k k' : A -> IO.t S B) w :
  (forall w, m w = m' w) -> (forall a w, k a w = k' a w) ->
  IO.bind m k w = IO.bind m' k' w.
Proof.
  intros Hm Hk. unfold IO.bind. rewrite Hm.
  destruct (m' w) as [w' [a|e|]]; auto.
Qed.

Lemma bind_assoc {S A B C : Type} (m : IO.t S A) (k : A -> IO.t S B)
  (h : B -> IO.t S C) w :
  IO.bind (IO.bind m k) h w = IO.bind m (fun a => IO.bind (k a) h) w.
Proof. unfold IO.bind. destruct (m w) as [w' [a|e|]]; reflexivity. Qed.

Lemma bind_ret_l {S A B : Type} (a : A) (k : A -> IO.t S B) w :
  IO.bind (IO.ret a) k w = k a w.
Proof. reflexivity. Qed.

Lemma deliver_app {S : Type} (onEvent : JSON.value -> IO.t S unit)
  (a b : list JSON.value) w :
  Stream.deliver onEvent (a ++ b) w =
  IO.bind (Stream.deliver onEvent a) (fun _ => Stream.deliver onEvent b) w.
Proof.
  revert w; induction a as [|ev a IH]; intros w; simpl; [reflexivity|].
  rewrite bind_assoc. apply bind_ext; auto.
Qed.

Lemma bind_deliver_app {S A : Type} (onEvent : JSON.value -> IO.t S unit)
  (a b : list JSON.value) (k : unit -> IO.t S A) w :
  IO.bind (Stream.deliver onEvent (a ++ b)) k w =
  IO.bind (Stream.deliver onEvent a)
    (fun _ => IO.bind (Stream.deliver onEvent b) k) w.
Proof.
  rewrite <- bind_assoc. apply bind_ext; [intros; apply deliver_app | auto].
Qed.

(** The loop over the lines of a read calls the callback on the events of
    these lines. *)
Lemma for_lines_deliver {S : Type} (onEvent : JSON.value -> IO.t S unit)
  (lines : list jsstring) w :
  Api.for_lines onEvent lines w =
  Stream.deliver onEvent (Stream.events_of_lines lines) w.
Proof.
  revert w; induction lines as [|l lines IH]; intros w; [reflexivity|].
  cbn [Api.for_lines Stream.events_of_lines].
  unfold Stream.event_of_line, slice.
  destruct (startsWith l (str "data: ")).
  - destruct (JSON.parse (skipn 6 l)) as [v|e].
    + cbn [Stream.deliver]. apply bind_ext; auto.
    + unfold IO.bind at 1. cbn. apply IH.
  - unfold IO.bind at 1. cbn. apply IH.
Qed.

(** The reads of a body, whatever its chunks, call the callback on the
    events of the complete lines of its text and leave the rest of the
    text in the buffer. *)
Lemma read_loop_deliver {S : Type} (onEvent : JSON.value -> IO.t S unit)
  (chunks : list (list byte)) (failure : option exn) :
  forall (dec : TextDecoder.t) (buf : jsstring) w,
  Forall (fun c => c <> 10) buf ->
  Api.read_loop onEvent dec buf chunks failure w =
  IO.bind
    (Stream.deliver onEvent
       (Stream.events_of_lines
          (fst (Stream.scan buf (snd (TextDecoder.decode_stream dec (concat chunks)))))))
    (fun _ => match failure with
              | Some e => IO.raise e
              | None =>
                  IO.ret (snd (Stream.scan buf
                                 (snd (TextDecoder.decode_stream dec (concat chunks)))))
              end) w.
Proof.
  induction chunks as [|value rest IH]; intros dec buf w Hbuf.
  - cbn [concat Api.read_loop]. rewrite decode_stream_nil. reflexivity.
  - cbn [concat Api.read_loop]. rewrite decode_stream_app.
    destruct (TextDecoder.decode_stream dec value) as [dec1 t1].
    destruct (TextDecoder.decode_stream dec1 (concat rest)) as [dec2 t2] eqn:E2.
    cbn [snd]. rewrite pop_split.
    unfold Stream.pending, Stream.complete_lines.
    rewrite (scan_no_newline buf t1 Hbuf), scan_app.
    pose proof (scan_pending_no_newline buf t1 Hbuf) as Hp.
    destruct (Stream.scan buf t1) as [l1 p1]. cbn [fst snd] in *.
    destruct (Stream.scan p1 t2) as [l2 p2] eqn:E3. cbn [fst snd].
    rewrite events_of_lines_app, bind_deliver_app.
    apply bind_ext; [apply for_lines_deliver|].
    intros _ w'. rewrite (IH dec1 p1 w' Hp), E2. cbn [snd]. now rewrite E3.
Qed.

(** ** The stream of a round *)

Lemma deliver_record (evs : list JSON.value) (w : IO.world (list JSON.value)) :
  Stream.deliver Stream.record evs w =
  (IO.World (IO.requests w) (IO.state w ++ evs), IO.Return tt).
Proof.
  revert w; induction evs as [|ev evs IH]; intros [rs seen]; simpl.
  - now rewrite app_nil_r.
  - unfold IO.bind, IO.try_catch, Stream.record, IO.modify. simpl.
    rewrite IH. simpl. now rewrite <- app_assoc.
Qed.

(** What a streamed round does once the server has answered with a
    success status and a body. *)
Lemma sendDebateRoundStream_run {S : Type} (VITE_API_URL : option jsstring)
  (server : Request.t -> result Response.t)
  (onEvent : JSON.value -> IO.t S unit)
  (messages : list Api.ChatMessage.t) (modelIds : option (list jsstring))
  (res : Response.t) (b : Response.stream) (w : IO.world S) :
  server (Stream.post VITE_API_URL (str "/debate/stream") messages modelIds) = Ok res ->
  Response.ok res = true ->
  Response.body res = Some b ->
  Api.sendDebateRoundStream VITE_API_URL server onEvent messages modelIds w =
  IO.bind
    (Stream.deliver onEvent
       (Stream.events_of (Stream.text_of (concat (Response.chunks b)))))
    (fun _ => match Response.failure b with
              | Some e => IO.raise e
              | None => IO.ret tt
              end)
    (IO.World
       (IO.requests w
        ++ [Stream.post VITE_API_URL (str "/debate/stream") messages modelIds])
       (IO.state w)).
Proof.
  intros Hs Hok Hb. unfold Api.sendDebateRoundStream, IO.bind at 1, IO.fetch.
  fold (Stream.post VITE_API_URL (str "/debate/stream") messages modelIds).
  rewrite Hs, Hok, Hb. cbn [negb].
  unfold IO.bind at 1.
  rewrite read_loop_deliver by constructor.
  unfold Stream.events_of, Stream.complete_lines, Stream.text_of.
  unfold IO.bind.
  destruct (Stream.deliver _ _ _) as [w' [[]|e|]]; try reflexivity.
  now destruct (Response.failure b).
Qed.

(** C1.  When the server answers a streamed round with a success status
    and a body, [sendDebateRoundStream] calls [onEvent] once for every line
    of the body's text that a newline ends, that begins with [data: ] and
    whose rest is a JSON text, with the value parsed from that rest, in the
    order of the lines; a line whose rest is not JSON is passed over and
    the lines after it are still delivered.  For the callback that records
    its argument, the values recorded are exactly these events. *)
Theorem stream_delivers_events_of_complete_lines {S : Type}
  (VITE_API_URL : option jsstring)
  (server : Request.t -> result Response.t)
  (onEvent : JSON.value -> IO.t S unit)
  (messages : list Api.ChatMessage.t) (modelIds : option (list jsstring))
  (res : Response.t) (b : Response.stream) :
  server (Stream.post VITE_API_URL (str "/debate/stream") messages modelIds) = Ok res ->
  Response.ok res = true ->
  Response.body res = Some b ->
  (forall w,
     Api.sendDebateRoundStream VITE_API_URL server onEvent messages modelIds w =
     IO.bind
       (Stream.deliver onEvent
          (Stream.events_of (Stream.text_of (concat (Response.chunks b)))))
       (fun _ => match Response.failure b with
                 | Some e => IO.raise e
                 | None => IO.ret tt
                 end)
       (IO.World
          (IO.requests w
           ++ [Stream.post VITE_API_URL (str "/debate/stream") messages modelIds])
          (IO.state w)))
  /\ (forall rs seen,
       IO.state
         (fst (Api.sendDebateRoundStream VITE_API_URL server Stream.record
                 messages modelIds (IO.World rs seen))) =
       seen ++ Stream.events_of (Stream.text_of (concat (Response.chunks b)))).
Proof.
  intros Hs Hok Hb. split.
  - intros w. now apply (sendDebateRoundStream_run _ _ _ _ _ res b).
  - intros rs seen.
    rewrite (sendDebateRoundStream_run _ _ _ _ _ res b _ Hs Hok Hb).
    unfold IO.bind. rewrite deliver_record. cbn [IO.state IO.requests].
    now destruct (Response.failure b).
Qed.

Lemma stream_delivers_events_of_complete_lines_witness :
  IO.state
    (fst (Api.sendDebateRoundStream None
            (Example.serve (Example.streamed Example.two_reads))
            Stream.record [] None (IO.World [] []))) =
  [Example.delta_event "a" "He"; Example.done_event "a"].
Proof.
  pose proof
    (proj2 (stream_delivers_events_of_complete_lines None
              (Example.serve (Example.streamed Example.two_reads))
              Stream.record [] None
              (Example.streamed Example.two_reads)
              {| Response.chunks := Example.two_reads; Response.failure := None |}
              eq_refl eq_refl eq_refl) [] []) as H.
  rewrite H. vm_compute. reflexivity.
Defined.

(** C9.  The result of a streamed round, and with it the calls of
    [onEvent], depends on the bytes of the body only and not on the chunks
    the reader cuts them into: two bodies with the same bytes and the same
    end give the same run.  (Whether the bytes end with a newline plays no
    part.) *)
Theorem stream_independent_of_chunking {S : Type}
  (VITE_API_URL : option jsstring)
  (server1 server2 : Request.t -> result Response.t)
  (onEvent : JSON.value -> IO.t S unit)
  (messages : list Api.ChatMessage.t) (modelIds : option (list jsstring))
  (res1 res2 : Response.t) (b1 b2 : Response.stream) (w : IO.world S) :
  server1 (Stream.post VITE_API_URL (str "/debate/stream") messages modelIds) = Ok res1 ->
  server2 (Stream.post VITE_API_URL (str "/debate/stream") messages modelIds) = Ok res2 ->
  Response.ok res1 = true -> Response.ok res2 = true ->
  Response.body res1 = Some b1 -> Response.body res2 = Some b2 ->
  Response.failure b1 = Response.failure b2 ->
  concat (Response.chunks b1) = concat (Response.chunks b2) ->
  Api.sendDebateRoundStream VITE_API_URL server1 onEvent messages modelIds w =
  Api.sendDebateRoundStream VITE_API_URL server2 onEvent messages modelIds w.
Proof.
  intros H1 H2 Hok1 Hok2 Hb1 Hb2 Hf Hc.
  rewrite (sendDebateRoundStream_run _ _ _ _ _ res1 b1 _ H1 Hok1 Hb1).
  rewrite (sendDebateRoundStream_run _ _ _ _ _ res2 b2 _ H2 Hok2 Hb2).
  now rewrite Hf, Hc.
Qed.

Lemma stream_independent_of_chunking_witness :
  concat Example.euro_cut = concat Example.euro_whole
  /\ Api.sendDebateRoundStream None
       (Example.serve (Example.streamed Example.euro_cut))
       Stream.record [] None (IO.World [] []) =
     Api.sendDebateRoundStream None
       (Example.serve (Example.streamed Example.euro_whole))
       Stream.record [] None (IO.World [] [])
  /\ IO.state
       (fst (Api.sendDebateRoundStream None
               (Example.serve (Example.streamed Example.euro_whole))
               Stream.record [] None (IO.World [] []))) =
     [JSON.JObj [(str "model_id", JSON.JStr (str "a"));
                 (str "delta", JSON.JStr [8364])]].
Proof.
  split; [reflexivity|]. split.
  - apply (stream_independent_of_chunking None
             (Example.serve (Example.streamed Example.euro_cut))
             (Example.serve (Example.streamed Example.euro_whole))
             Stream.record [] None
             (Example.streamed Example.euro_cut)
             (Example.streamed Example.euro_whole)
             {| Response.chunks := Example.euro_cut; Response.failure := None |}
             {| Response.chunks := Example.euro_whole; Response.failure := None |});
      reflexivity.
  - vm_compute. reflexivity.
Defined.

Lemma scan_terminated (head : jsstring) :
  head = [] \/ (exists h, head = h ++ [10]) -> Stream.pending head = [].
Proof.
  unfold Stream.pending. intros [->|[h ->]]; [reflexivity|].
  rewrite scan_app. destruct (Stream.scan [] h) as [l1 p1]. reflexivity.
Qed.

Lemma scan_unterminated (head line : jsstring) :
  Stream.pending head = [] ->
  Forall (fun c => c <> 10) line ->
  Stream.scan [] (head ++ line) = (Stream.complete_lines head, line).
Proof.
  unfold Stream.pending, Stream.complete_lines. intros Hp Hl.
  rewrite scan_app. destruct (Stream.scan [] head) as [l1 p1]. simpl in *. subst p1.
  rewrite <- (app_nil_r line) at 1. rewrite (scan_no_newline line [] Hl).
  cbn. now rewrite app_nil_r.
Qed.

(** C10.  When the text of the body is some complete lines [head] followed
    by a last line [line] that no newline ends, the reads end with [line]
    in the buffer, and the events delivered are those of [head] alone:
    nothing of [line] reaches [onEvent], whatever it holds.  Had a newline
    ended it, the event of [line], if it is one, would have followed. *)
Theorem unterminated_last_line_is_dropped
  (VITE_API_URL : option jsstring)
  (server : Request.t -> result Response.t)
  (messages : list Api.ChatMessage.t) (modelIds : option (list jsstring))
  (res : Response.t) (b : Response.stream) (head line : jsstring)
  (rs : list Request.t) (seen : list JSON.value) :
  server (Stream.post VITE_API_URL (str "/debate/stream") messages modelIds) = Ok res ->
  Response.ok res = true ->
  Response.body res = Some b ->
  Response.failure b = None ->
  Stream.text_of (concat (Response.chunks b)) = head ++ line ->
  head = [] \/ (exists h, head = h ++ [10]) ->
  Forall (fun c => c <> 10) line ->
  Api.read_loop Stream.record TextDecoder.create [] (Response.chunks b) None
    (IO.World rs seen) =
  (IO.World rs (seen ++ Stream.events_of head), IO.Return line)
  /\ Api.sendDebateRoundStream VITE_API_URL server Stream.record messages modelIds
       (IO.World rs seen) =
     (IO.World
        (rs ++ [Stream.post VITE_API_URL (str "/debate/stream") messages modelIds])
        (seen ++ Stream.events_of head), IO.Return tt)
  /\ Stream.events_of (head ++ line ++ [10]) =
     Stream.events_of head ++ Stream.events_of_lines [line].
Proof.
  intros Hs Hok Hb Hf Ht Hhead Hline.
  pose proof (scan_unterminated head line (scan_terminated head Hhead) Hline) as Hscan.
  split; [|split].
  - rewrite read_loop_deliver by constructor.
    fold (Stream.text_of (concat (Response.chunks b))). rewrite Ht, Hscan.
    unfold IO.bind. rewrite deliver_record. reflexivity.
  - rewrite (sendDebateRoundStream_run _ _ _ _ _ res b _ Hs Hok Hb), Ht, Hf.
    unfold Stream.events_of at 1, Stream.complete_lines. rewrite Hscan.
    unfold IO.bind. rewrite deliver_record. reflexivity.
  - unfold Stream.events_of, Stream.complete_lines.
    rewrite app_assoc, scan_app, Hscan. cbn [fst].
    assert (E : Stream.scan line [10] = ([line], [])) by reflexivity.
    rewrite E. cbn [fst]. apply events_of_lines_app.
Qed.

Lemma unterminated_last_line_is_dropped_witness :
  Api.sendDebateRoundStream None
    (Example.serve (Example.streamed Example.no_final_newline))
    Stream.record [] None (IO.World [] []) =
  (IO.World [Stream.post None (str "/debate/stream") [] None]
     [Example.delta_event "a" "hi"], IO.Return tt)
  /\ Stream.events_of
       (Stream.text_of (concat Example.no_final_newline) ++ [10]) =
     [Example.delta_event "a" "hi"; Example.done_event "a"].
Proof.
  pose proof
    (unterminated_last_line_is_dropped None
       (Example.serve (Example.streamed Example.no_final_newline)) [] None
       (Example.streamed Example.no_final_newline)
       {| Response.chunks := Example.no_final_newline; Response.failure := None |}
       (Example.js "data: {'model_id':'a','delta':'hi'}~")
       (Example.js "data: {'model_id':'a','done':true}")
       [] []
       eq_refl eq_refl eq_refl eq_refl eq_refl
       (or_intror (ex_intro _ (Example.js "data: {'model_id':'a','delta':'hi'}") eq_refl)))
    as H.
  assert (Hl : Forall (fun c => c <> 10)
                 (Example.js "data: {'model_id':'a','done':true}")).
  { apply Forall_forall. intros c Hc E. subst c. vm_compute in Hc.
    repeat (destruct Hc as [Hc|Hc]; [discriminate Hc|]). exact Hc. }
  destruct (H Hl) as (_ & H2 & H3). split.
  - rewrite H2. vm_compute. reflexivity.
  - vm_compute. reflexivity.
Defined.

(** ** Dictionaries *)

Lemma get_set_eq {V : Type} (k : jsstring) (v : V) (d : Dict.t V) :
  Dict.get k (Dict.set k v d) = Some v.
Proof.
  induction d as [|[k' v'] d IH]; simpl.
  - now rewrite eqb_refl.
  - destruct (Js.eqb k k') eqn:E; simpl; rewrite E; auto.
Qed.

Lemma get_set_neq {V : Type} (k k' : jsstring) (v : V) (d : Dict.t V) :
  k <> k' -> Dict.get k' (Dict.set k v d) = Dict.get k' d.
Proof.
  intros Hne. induction d as [|[k0 v0] d IH]; simpl.
  - destruct (Js.eqb k' k) eqn:E; [apply eqb_eq in E; congruence | reflexivity].
  - destruct (Js.eqb k k0) eqn:E; simpl.
    + apply eqb_eq in E. subst k0.
      destruct (Js.eqb k' k) eqn:E'; [apply eqb_eq in E'; congruence | reflexivity].
    + destruct (Js.eqb k' k0); auto.
Qed.

Lemma in_keys_get {V : Type} (k : jsstring) (d : Dict.t V) :
  In k (Dict.keys d) <-> exists v, Dict.get k d = Some v.
Proof.
  induction d as [|[k' v'] d IH]; simpl.
  - split; [easy | intros [v H]; discriminate].
  - destruct (Js.eqb k k') eqn:E.
    + apply eqb_eq in E. subst. split; eauto.
    + apply eqb_neq in E. rewrite <- IH. split; [intros [H|H]|]; auto. congruence.
Qed.

Lemma in_keys_set {V : Type} (k k' : jsstring) (v : V) (d : Dict.t V) :
  In k' (Dict.keys (Dict.set k v d)) <-> k' = k \/ In k' (Dict.keys d).
Proof.
  rewrite !in_keys_get. destruct (Js.eqb k k') eqn:E.
  - apply eqb_eq in E. subst k'. rewrite get_set_eq. split; eauto.
  - apply eqb_neq in E. rewrite get_set_neq by assumption.
    split; [auto | intros [H|H]; auto; congruence].
Qed.

Lemma NoDup_keys_set {V : Type} (k : jsstring) (v : V) (d : Dict.t V) :
  NoDup (Dict.keys d) -> NoDup (Dict.keys (Dict.set k v d)).
Proof.
  induction d as [|[k' v'] d IH]; simpl; intros H.
  - constructor; [easy | constructor].
  - inversion H as [|? ? Hin Hnd]; subst.
    destruct (Js.eqb k k') eqn:E; simpl.
    + now constructor.
    + constructor; [|now apply IH].
      fold (Dict.keys (Dict.set k v d)). rewrite in_keys_set.
      apply eqb_neq in E. intros [->|H']; auto.
Qed.

Lemma Forall_set {V : Type} (P : V -> Prop) (k : jsstring) (v : V) (d : Dict.t V) :
  P v -> Forall (fun kv => P (snd kv)) d ->
  Forall (fun kv => P (snd kv)) (Dict.set k v d).
Proof.
  intros Hv. induction d as [|[k' v'] d IH]; simpl; intros H.
  - constructor; auto.
  - inversion H; subst. destruct (Js.eqb k k'); constructor; auto.
Qed.

(** *** Lookups and assignments under [Object.prototype] *)

Lemma inherited_proto (k : jsstring) :
  Dict.inherited k = false -> Js.eqb k Dict.PROTO = false.
Proof. unfold Dict.inherited. intros H. now apply orb_false_iff in H. Qed.

Lemma inherited_text_none (k : jsstring) :
  Dict.inherited k = false -> Dict.inherited_text k = None.
Proof.
  unfold Dict.inherited, Dict.inherited_text. intros H.
  apply orb_false_iff in H as [-> H]. rewrite H.
  destruct (Js.eqb k (str "constructor")) eqn:E; [|reflexivity].
  apply eqb_eq in E. subst k. discriminate.
Qed.

Lemma read_get (k : jsstring) (d : Dict.t jsstring) :
  Dict.inherited k = false -> Dict.read k d = Dict.get k d.
Proof.
  intros H. unfold Dict.read. rewrite (inherited_text_none k H).
  now destruct (Dict.get k d).
Qed.

Lemma read_own (k v : jsstring) (d : Dict.t jsstring) :
  Dict.get k d = Some v -> Dict.read k d = Some v.
Proof. unfold Dict.read. now intros ->. Qed.

Lemma insert_index_split (n : N) (k v : jsstring) (d : Dict.t jsstring) :
  exists a b, d = a ++ b /\ Dict.insert_index n k v d = a ++ (k, v) :: b.
Proof.
  induction d as [|[k' v'] d IH]; cbn [Dict.insert_index].
  - exists [], []. split; reflexivity.
  - destruct (Dict.index k') as [n'|]; [destruct (n' <? n)|].
    + destruct IH as (a & b & -> & ->). exists ((k', v') :: a), b. split; reflexivity.
    + exists [], ((k', v') :: d). split; reflexivity.
    + exists [], ((k', v') :: d). split; reflexivity.
Qed.

Lemma get_insert_index (n : N) (k v x : jsstring) (d : Dict.t jsstring) :
  Dict.get k d = None ->
  Dict.get x (Dict.insert_index n k v d) =
  if Js.eqb x k then Some v else Dict.get x d.
Proof.
  induction d as [|[k' v'] d IH]; cbn [Dict.insert_index Dict.get]; [reflexivity|].
  destruct (Js.eqb k k') eqn:E; [discriminate|]. intros Hk.
  destruct (Dict.index k') as [n'|]; [destruct (n' <? n)|]; cbn [Dict.get];
    try reflexivity.
  rewrite (IH Hk). destruct (Js.eqb x k') eqn:Ex; [|reflexivity].
  apply eqb_eq in Ex. subst x. rewrite eqb_neq in E.
  destruct (Js.eqb k' k) eqn:E'; [|reflexivity].
  apply eqb_eq in E'. congruence.
Qed.

Lemma get_assign_eq (k v : jsstring) (d : Dict.t jsstring) :
  Js.eqb k Dict.PROTO = false -> Dict.get k (Dict.assign k v d) = Some v.
Proof.
  intros H. unfold Dict.assign. rewrite H.
  destruct (Dict.get k d) as [c|] eqn:G; [apply get_set_eq|].
  destruct (Dict.index k) as [n|]; [|apply get_set_eq].
  rewrite (get_insert_index n k v k d G). now rewrite eqb_refl.
Qed.

Lemma get_assign_neq (k k' v : jsstring) (d : Dict.t jsstring) :
  k <> k' -> Dict.get k' (Dict.assign k v d) = Dict.get k' d.
Proof.
  intros Hne. unfold Dict.assign. destruct (Js.eqb k Dict.PROTO); [reflexivity|].
  destruct (Dict.get k d) as [c|] eqn:G; [now apply get_set_neq|].
  destruct (Dict.index k) as [n|]; [|now apply get_set_neq].
  rewrite (get_insert_index n k v k' d G).
  destruct (Js.eqb k' k) eqn:E; [|reflexivity]. apply eqb_eq in E. congruence.
Qed.

Lemma in_keys_assign (k k' v : jsstring) (d : Dict.t jsstring) :
  In k' (Dict.keys (Dict.assign k v d)) <->
  (k' = k /\ Js.eqb k Dict.PROTO = false) \/ In k' (Dict.keys d).
Proof.
  destruct (Js.eqb k Dict.PROTO) eqn:Ep.
  - unfold Dict.assign. rewrite Ep. intuition discriminate.
  - rewrite !in_keys_get. destruct (Js.eqb k k') eqn:E.
    + apply eqb_eq in E. subst k'. rewrite (get_assign_eq k v d Ep).
      split; eauto.
    + apply eqb_neq in E. rewrite (get_assign_neq k k' v d E).
      split; [auto | intros [[H _]|H]; auto; congruence].
Qed.

Lemma NoDup_keys_assign (k v : jsstring) (d : Dict.t jsstring) :
  NoDup (Dict.keys d) -> NoDup (Dict.keys (Dict.assign k v d)).
Proof.
  intros Hnd. unfold Dict.assign. destruct (Js.eqb k Dict.PROTO); [assumption|].
  destruct (Dict.get k d) as [c|] eqn:G; [now apply NoDup_keys_set|].
  destruct (Dict.index k) as [n|]; [|now apply NoDup_keys_set].
  destruct (insert_index_split n k v d) as (a & b & Hd & ->).
  subst d. unfold Dict.keys in *. rewrite map_app in *. cbn [map fst].
  apply NoDup_Add with (a := k) (l := map fst a ++ map fst b);
    [apply Add_app|].
  split; [assumption|].
  intros Hin. rewrite <- map_app in Hin.
  apply (in_keys_get k (a ++ b)) in Hin as (c & Hc). congruence.
Qed.

Lemma Forall_assign (P : jsstring -> Prop) (k v : jsstring) (d : Dict.t jsstring) :
  P v -> Forall (fun kv => P (snd kv)) d ->
  Forall (fun kv => P (snd kv)) (Dict.assign k v d).
Proof.
  intros Hv Hd. unfold Dict.assign. destruct (Js.eqb k Dict.PROTO); [assumption|].
  destruct (Dict.get k d) as [c|]; [now apply Forall_set|].
  destruct (Dict.index k) as [n|]; [|now apply Forall_set].
  destruct (insert_index_split n k v d) as (a & b & Hd' & ->). subst d.
  apply Forall_app in Hd as [Ha Hb].
  apply Forall_app. split; [assumption|]. now constructor.
Qed.

(** ** The lanes of a streamed round *)

Lemma on_event_some (ev : Api.StreamEvent.t) (prev : App.StreamingTurn.t) :
  exists st, App.on_event ev (Some prev) = Some st
             /\ App.StreamingTurn.user st = App.StreamingTurn.user prev.
Proof. simpl. eexists. split; reflexivity. Qed.

(** One event adds its delta to the content of its own provider and
    leaves the other lanes as they are. *)
Lemma on_event_content (id : jsstring) (ev : Api.StreamEvent.t)
  (prev st : App.StreamingTurn.t) :
  App.on_event ev (Some prev) = Some st ->
  (Dict.inherited id = false ->
   Lanes.accumulated id st =
   Lanes.accumulated id prev ++ concat (Lanes.lane_deltas id [ev]))
  /\ (Api.StreamEvent.model_id ev <> id ->
      Dict.get id (App.StreamingTurn.content st) =
      Dict.get id (App.StreamingTurn.content prev)).
Proof.
  intros H. injection H as <-. unfold Lanes.accumulated, Lanes.lane_deltas.
  cbn [App.StreamingTurn.content flat_map]. rewrite app_nil_r.
  destruct (Js.eqb (Api.StreamEvent.model_id ev) id) eqn:E.
  - apply eqb_eq in E. subst id. split; [|congruence]. intros Hid.
    destruct (Api.StreamEvent.delta ev) as [[|c d]|]; cbn [Js.truthy concat];
      rewrite ?app_nil_r; try reflexivity.
    rewrite (get_assign_eq _ _ _ (inherited_proto _ Hid)), (read_get _ _ Hid).
    reflexivity.
  - apply eqb_neq in E. cbn [concat]. rewrite app_nil_r.
    destruct (Api.StreamEvent.delta ev) as [d|]; [|auto].
    destruct (Js.truthy d); [|auto].
    rewrite (get_assign_neq _ id _ _ E). auto.
Qed.

Lemma lane_deltas_cons (id : jsstring) (ev : Api.StreamEvent.t)
  (evs : list Api.StreamEvent.t) :
  Lanes.lane_deltas id (ev :: evs) = Lanes.lane_deltas id [ev] ++ Lanes.lane_deltas id evs.
Proof. unfold Lanes.lane_deltas. cbn [flat_map]. now rewrite app_nil_r. Qed.

Lemma run_events_content (id : jsstring) (evs : list Api.StreamEvent.t) :
  forall prev : App.StreamingTurn.t,
  exists st, Lanes.run_events evs (Some prev) = Some st
             /\ App.StreamingTurn.user st = App.StreamingTurn.user prev
             /\ (Dict.inherited id = false ->
                 Lanes.accumulated id st =
                 Lanes.accumulated id prev ++ concat (Lanes.lane_deltas id evs)).
Proof.
  induction evs as [|ev evs IH]; intros prev.
  - exists prev. cbn. now rewrite app_nil_r.
  - destruct (on_event_some ev prev) as (st1 & H1 & Hu1).
    destruct (IH st1) as (st & H & Hu & Hacc).
    exists st. cbn [Lanes.run_events fold_left]. rewrite H1.
    split; [exact H|]. split; [congruence|]. intros Hid.
    rewrite (Hacc Hid), (proj1 (on_event_content id ev prev st1 H1) Hid).
    now rewrite (lane_deltas_cons id ev evs), concat_app, app_assoc.
Qed.

Lemma deliver_typed (jevs : list JSON.value) :
  forall (evs : list Api.StreamEvent.t) (w : IO.world App.state),
  App.all_some App.as_StreamEvent jevs = Some evs ->
  Stream.deliver App.onStreamEvent jevs w =
  (IO.World (IO.requests w)
     (fold_left (fun s ev => App.with_streamingTurn (App.on_event ev) s) evs (IO.state w)),
   IO.Return tt).
Proof.
  induction jevs as [|j jevs IH]; intros evs w H; cbn [App.all_some] in H.
  - injection H as <-. now destruct w.
  - destruct (App.as_StreamEvent j) as [ev|] eqn:Ej; [|discriminate].
    destruct (App.all_some App.as_StreamEvent jevs) as [evs'|]; [|discriminate].
    injection H as <-. cbn [Stream.deliver].
    unfold App.onStreamEvent. rewrite Ej.
    destruct j as [| | | | |members]; try discriminate.
    cbn [JSON.member IO.lift].
    unfold IO.bind, IO.ret, IO.try_catch, App.setStreamingTurn, IO.modify.
    rewrite (IH evs' _ eq_refl). reflexivity.
Qed.





(** ** The turn recorded after a stream *)

Lemma get_in {V : Type} (k : jsstring) (v : V) (d : Dict.t V) :
  Dict.get k d = Some v -> In (k, v) d.
Proof.
  induction d as [|[k' v'] d IH]; simpl; [discriminate|].
  destruct (Js.eqb k k') eqn:E.
  - apply eqb_eq in E. intros [= ->]. subst. now left.
  - auto.
Qed.

Lemma in_get {V : Type} (k : jsstring) (v : V) (d : Dict.t V) :
  NoDup (Dict.keys d) -> In (k, v) d -> Dict.get k d = Some v.
Proof.
  induction d as [|[k' v'] d IH]; simpl; [easy|].
  intros Hnd [H|H]; inversion Hnd as [|? ? Hnin Hnd']; subst.
  - injection H as -> ->. now rewrite eqb_refl.
  - destruct (Js.eqb k k') eqn:E; [|auto].
    apply eqb_eq in E. subst k'. exfalso. apply Hnin.
    change k with (fst (k, v)). now apply in_map.
Qed.

Lemma opened_well_formed (user : jsstring) : Lanes.well_formed (Lanes.opened user).
Proof. repeat split; constructor. Qed.

Lemma on_event_well_formed (ev : Api.StreamEvent.t) (prev st : App.StreamingTurn.t) :
  App.on_event ev (Some prev) = Some st ->
  Lanes.well_formed prev -> Lanes.well_formed st.
Proof.
  intros H (Hc & He & Hvc & Hve). injection H as <-.
  unfold Lanes.well_formed. cbn [App.StreamingTurn.content App.StreamingTurn.errors].
  repeat split.
  - destruct (Api.StreamEvent.delta ev) as [d|]; [|assumption].
    destruct (Js.truthy d); [now apply NoDup_keys_assign | assumption].
  - destruct (Api.StreamEvent.error ev) as [e|]; [|assumption].
    destruct (Js.truthy e); [now apply NoDup_keys_assign | assumption].
  - destruct (Api.StreamEvent.delta ev) as [[|c d]|]; cbn [Js.truthy]; try assumption.
    apply (Forall_assign (fun v => v <> [])); [|assumption].
    intros E. apply app_eq_nil in E as [_ E]. discriminate.
  - destruct (Api.StreamEvent.error ev) as [[|c e]|]; cbn [Js.truthy]; try assumption.
    apply (Forall_assign (fun v => v <> [])); [easy | assumption].
Qed.

Lemma run_events_well_formed (evs : list Api.StreamEvent.t) :
  forall prev st : App.StreamingTurn.t,
  Lanes.run_events evs (Some prev) = Some st ->
  Lanes.well_formed prev -> Lanes.well_formed st.
Proof.
  induction evs as [|ev evs IH]; intros prev st H Hwf.
  - now injection H as <-.
  - destruct (on_event_some ev prev) as (st1 & H1 & _).
    cbn [Lanes.run_events fold_left] in H. rewrite H1 in H.
    apply (IH st1 st H). now apply (on_event_well_formed ev prev).
Qed.

(** For a name that [Object.prototype] does not define: the name has a
    content when a non-empty delta of the provider has arrived, and the
    error kept for it is the last non-empty error of the provider. *)
Lemma on_event_keys (id : jsstring) (ev : Api.StreamEvent.t)
  (prev st : App.StreamingTurn.t) :
  App.on_event ev (Some prev) = Some st ->
  Dict.inherited id = false ->
  (In id (Dict.keys (App.StreamingTurn.content st)) <->
   In id (Dict.keys (App.StreamingTurn.content prev))
   \/ Js.eqb (Api.StreamEvent.model_id ev) id
      && App.error_truthy (Api.StreamEvent.delta ev) = true)
  /\ Dict.get id (App.StreamingTurn.errors st) =
     match Lanes.last_error id [ev] with
     | Some e => Some e
     | None => Dict.get id (App.StreamingTurn.errors prev)
     end.
Proof.
  intros H Hid. injection H as <-. pose proof (inherited_proto id Hid) as Hp.
  cbn [App.StreamingTurn.content App.StreamingTurn.errors].
  unfold Lanes.last_error, Lanes.lane_errors. cbn [flat_map]. rewrite app_nil_r.
  destruct (Js.eqb (Api.StreamEvent.model_id ev) id) eqn:E; cbn [andb].
  - apply eqb_eq in E. split.
    + destruct (Api.StreamEvent.delta ev) as [d|]; cbn [App.error_truthy];
        [destruct (Js.truthy d)|].
      * rewrite in_keys_assign. subst id. tauto.
      * intuition discriminate.
      * intuition discriminate.
    + destruct (Api.StreamEvent.error ev) as [e|]; [destruct (Js.truthy e)|];
        cbn [rev app]; try reflexivity.
      subst id. now apply get_assign_eq.
  - apply eqb_neq in E. cbn [rev]. split.
    + destruct (Api.StreamEvent.delta ev) as [d|]; [destruct (Js.truthy d)|];
        try (intuition discriminate).
      rewrite in_keys_assign. intuition congruence.
    + destruct (Api.StreamEvent.error ev) as [e|]; [destruct (Js.truthy e)|];
        try reflexivity.
      now apply get_assign_neq.
Qed.

Lemma lane_errors_cons (id : jsstring) (ev : Api.StreamEvent.t)
  (evs : list Api.StreamEvent.t) :
  Lanes.lane_errors id (ev :: evs) = Lanes.lane_errors id [ev] ++ Lanes.lane_errors id evs.
Proof. unfold Lanes.lane_errors. cbn [flat_map]. now rewrite app_nil_r. Qed.

Lemma run_events_lanes (id : jsstring) (evs : list Api.StreamEvent.t) :
  Dict.inherited id = false ->
  forall prev st : App.StreamingTurn.t,
  Lanes.run_events evs (Some prev) = Some st ->
  (In id (Dict.keys (App.StreamingTurn.content st)) <->
   In id (Dict.keys (App.StreamingTurn.content prev))
   \/ existsb (fun ev => Js.eqb (Api.StreamEvent.model_id ev) id
                         && App.error_truthy (Api.StreamEvent.delta ev)) evs = true)
  /\ Dict.get id (App.StreamingTurn.errors st) =
     match Lanes.last_error id evs with
     | Some e => Some e
     | None => Dict.get id (App.StreamingTurn.errors prev)
     end.
Proof.
  intros Hid. induction evs as [|ev evs IH]; intros prev st H.
  - injection H as <-. cbn. intuition discriminate.
  - destruct (on_event_some ev prev) as (st1 & H1 & _).
    cbn [Lanes.run_events fold_left] in H. rewrite H1 in H.
    destruct (IH st1 st H) as (Hk & He).
    destruct (on_event_keys id ev prev st1 H1 Hid) as (Hk1 & He1).
    split.
    + rewrite Hk, Hk1. cbn [existsb]. rewrite orb_true_iff. tauto.
    + rewrite He, He1. unfold Lanes.last_error.
      rewrite (lane_errors_cons id ev evs), rev_app_distr.
      destruct (rev (Lanes.lane_errors id evs)) as [|e r]; cbn [app]; reflexivity.
Qed.

Lemma on_event_error_keys (id : jsstring) (ev : Api.StreamEvent.t)
  (prev st : App.StreamingTurn.t) :
  App.on_event ev (Some prev) = Some st ->
  Dict.inherited id = false ->
  (In id (Dict.keys (App.StreamingTurn.errors st)) <->
   In id (Dict.keys (App.StreamingTurn.errors prev))
   \/ Js.eqb (Api.StreamEvent.model_id ev) id
      && App.error_truthy (Api.StreamEvent.error ev) = true).
Proof.
  intros H Hid. injection H as <-. pose proof (inherited_proto id Hid) as Hp.
  cbn [App.StreamingTurn.errors].
  destruct (Js.eqb (Api.StreamEvent.model_id ev) id) eqn:E; cbn [andb].
  - apply eqb_eq in E.
    destruct (Api.StreamEvent.error ev) as [e|]; cbn [App.error_truthy];
      [destruct (Js.truthy e)|]; try (intuition discriminate).
    rewrite in_keys_assign. subst id. tauto.
  - apply eqb_neq in E.
    destruct (Api.StreamEvent.error ev) as [e|]; [destruct (Js.truthy e)|];
      try (intuition discriminate).
    rewrite in_keys_assign. intuition congruence.
Qed.

Lemma run_events_error_keys (id : jsstring) (evs : list Api.StreamEvent.t) :
  Dict.inherited id = false ->
  forall prev st : App.StreamingTurn.t,
  Lanes.run_events evs (Some prev) = Some st ->
  (In id (Dict.keys (App.StreamingTurn.errors st)) <->
   In id (Dict.keys (App.StreamingTurn.errors prev))
   \/ existsb (fun ev => Js.eqb (Api.StreamEvent.model_id ev) id
                         && App.error_truthy (Api.StreamEvent.error ev)) evs = true).
Proof.
  intros Hid. induction evs as [|ev evs IH]; intros prev st H.
  - injection H as <-. cbn. intuition discriminate.
  - destruct (on_event_some ev prev) as (st1 & H1 & _).
    cbn [Lanes.run_events fold_left] in H. rewrite H1 in H.
    rewrite (IH st1 st H), (on_event_error_keys id ev prev st1 H1 Hid).
    cbn [existsb]. rewrite orb_true_iff. tauto.
Qed.

(** No name of [Object.prototype] that is an accessor becomes a name of
    the lane state. *)
Lemma run_events_proto (evs : list Api.StreamEvent.t) :
  forall prev st : App.StreamingTurn.t,
  Lanes.run_events evs (Some prev) = Some st ->
  ~ In Dict.PROTO (Dict.keys (App.StreamingTurn.content prev)) ->
  ~ In Dict.PROTO (Dict.keys (App.StreamingTurn.errors prev)) ->
  ~ In Dict.PROTO (Dict.keys (App.StreamingTurn.content st))
  /\ ~ In Dict.PROTO (Dict.keys (App.StreamingTurn.errors st)).
Proof.
  induction evs as [|ev evs IH]; intros prev st H Hc He.
  - injection H as <-. auto.
  - destruct (on_event_some ev prev) as (st1 & H1 & _).
    cbn [Lanes.run_events fold_left] in H. rewrite H1 in H.
    apply (IH st1 st H); injection H1 as <-;
      cbn [App.StreamingTurn.content App.StreamingTurn.errors].
    + destruct (Api.StreamEvent.delta ev) as [d|]; [destruct (Js.truthy d)|];
        try assumption.
      rewrite in_keys_assign. intros [[<- Hp]|Hin]; [|contradiction].
      now rewrite eqb_refl in Hp.
    + destruct (Api.StreamEvent.error ev) as [e|]; [destruct (Js.truthy e)|];
        try assumption.
      rewrite in_keys_assign. intros [[<- Hp]|Hin]; [|contradiction].
      now rewrite eqb_refl in Hp.
Qed.

Lemma existsb_speaks (id : jsstring) (evs : list Api.StreamEvent.t) :
  existsb (Lanes.speaks id) evs = true <->
  existsb (fun ev => Js.eqb (Api.StreamEvent.model_id ev) id
                     && App.error_truthy (Api.StreamEvent.delta ev)) evs = true
  \/ existsb (fun ev => Js.eqb (Api.StreamEvent.model_id ev) id
                        && App.error_truthy (Api.StreamEvent.error ev)) evs = true.
Proof.
  induction evs as [|ev evs IH]; cbn [existsb].
  - intuition discriminate.
  - rewrite !orb_true_iff, IH. unfold Lanes.speaks.
    rewrite andb_true_iff, orb_true_iff, !andb_true_iff. tauto.
Qed.

Lemma existsb_provider (id : jsstring) (rs : list Api.ProviderResponse.t) :
  existsb (fun r => Js.eqb (Api.ProviderResponse.provider_id r) id) rs = true <->
  In id (map Api.ProviderResponse.provider_id rs).
Proof.
  rewrite existsb_exists, in_map_iff.
  split; intros (r & H1 & H2); exists r.
  - apply eqb_eq in H2. auto.
  - split; [assumption | now apply eqb_eq].
Qed.

(** The second pass of the assembly adds one entry for every name of
    [errors] that has none yet. *)
Lemma assemble_errors_pass (errors : Dict.t jsstring) (ks : list jsstring) :
  forall rs : list Api.ProviderResponse.t,
  let out :=
    fold_left
      (fun responses id =>
         if existsb (fun r => Js.eqb (Api.ProviderResponse.provider_id r) id) responses
         then responses
         else responses
              ++ [{| Api.ProviderResponse.provider_id := id;
                     Api.ProviderResponse.content := [];
                     Api.ProviderResponse.error := Dict.read id errors |}])
      ks rs in
  (forall id, In id (map Api.ProviderResponse.provider_id out) <->
              In id (map Api.ProviderResponse.provider_id rs) \/ In id ks)
  /\ (NoDup (map Api.ProviderResponse.provider_id rs) ->
      NoDup (map Api.ProviderResponse.provider_id out))
  /\ (forall r, In r out ->
        In r rs
        \/ (In (Api.ProviderResponse.provider_id r) ks
            /\ ~ In (Api.ProviderResponse.provider_id r)
                    (map Api.ProviderResponse.provider_id rs)
            /\ r = {| Api.ProviderResponse.provider_id := Api.ProviderResponse.provider_id r;
                      Api.ProviderResponse.content := [];
                      Api.ProviderResponse.error :=
                        Dict.read (Api.ProviderResponse.provider_id r) errors |})).
Proof.
  induction ks as [|k ks IH]; intros rs; cbn zeta; cbn [fold_left].
  - split; [|split]; [intros; cbn; tauto | auto | auto].
  - destruct (existsb _ rs) eqn:E.
    + apply existsb_provider in E.
      destruct (IH rs) as (Hids & Hnd & Hin). split; [|split].
      * intros id. rewrite Hids. cbn [In]. intuition congruence.
      * exact Hnd.
      * intros r Hr. destruct (Hin r Hr) as [H|(H1 & H2 & H3)]; [auto|].
        right. cbn [In]. auto.
    + assert (Hk : ~ In k (map Api.ProviderResponse.provider_id rs)).
      { intros H. apply existsb_provider in H. congruence. }
      destruct (IH (rs ++ [{| Api.ProviderResponse.provider_id := k;
                              Api.ProviderResponse.content := [];
                              Api.ProviderResponse.error := Dict.read k errors |}]))
        as (Hids & Hnd & Hin).
      split; [|split].
      * intros id. rewrite Hids, map_app, in_app_iff. cbn. tauto.
      * intros H. apply Hnd. rewrite map_app. cbn [map].
        apply NoDup_app; [assumption | repeat constructor; easy |].
        intros x Hx [<-|[]]. contradiction.
      * intros r Hr. destruct (Hin r Hr) as [H|(H1 & H2 & H3)].
        -- apply in_app_iff in H as [H|[<-|[]]]; [auto|].
           right. cbn. auto.
        -- right. rewrite map_app, in_app_iff in H2. cbn [In]. tauto.
Qed.

(** The entries assembled from a lane state that holds no name twice and
    no empty text: the names are the names of the two dictionaries, each
    once; an entry has the content and the error the lane state has
    under its name, one of the two at least being its own and not
    empty. *)
Lemma assemble_entries (st : App.StreamingTurn.t) :
  Lanes.well_formed st ->
  NoDup (map Api.ProviderResponse.provider_id (App.assemble st))
  /\ (forall id,
        In id (map Api.ProviderResponse.provider_id (App.assemble st)) <->
        In id (Dict.keys (App.StreamingTurn.content st))
        \/ In id (Dict.keys (App.StreamingTurn.errors st)))
  /\ (forall r,
        In r (App.assemble st) ->
        Api.ProviderResponse.error r =
          Dict.read (Api.ProviderResponse.provider_id r) (App.StreamingTurn.errors st)
        /\ ((Dict.get (Api.ProviderResponse.provider_id r) (App.StreamingTurn.content st) =
               Some (Api.ProviderResponse.content r)
             /\ Api.ProviderResponse.content r <> [])
            \/ (Api.ProviderResponse.content r = []
                /\ Dict.get (Api.ProviderResponse.provider_id r)
                     (App.StreamingTurn.content st) = None
                /\ exists e,
                     Dict.get (Api.ProviderResponse.provider_id r)
                       (App.StreamingTurn.errors st) = Some e
                     /\ e <> []))).
Proof.
  intros (Hndc & Hnde & Hvc & Hve). unfold App.assemble, Dict.entries.
  set (first := map _ (App.StreamingTurn.content st)).
  assert (Hfirst : map Api.ProviderResponse.provider_id first =
                   Dict.keys (App.StreamingTurn.content st)).
  { unfold first, Dict.keys. rewrite map_map. reflexivity. }
  destruct (assemble_errors_pass (App.StreamingTurn.errors st)
              (Dict.keys (App.StreamingTurn.errors st)) first) as (Hids & Hnd & Hin).
  cbn zeta in *. split; [|split].
  - apply Hnd. now rewrite Hfirst.
  - intros id. now rewrite Hids, Hfirst.
  - intros r Hr. destruct (Hin r Hr) as [H|(H1 & H2 & H3)].
    + unfold first in H. apply in_map_iff in H as ([k c] & <- & Hkc).
      cbn [Api.ProviderResponse.content Api.ProviderResponse.error
           Api.ProviderResponse.provider_id fst snd].
      split; [reflexivity|]. left. split; [now apply in_get|].
      rewrite Forall_forall in Hvc. apply (Hvc (k, c) Hkc).
    + rewrite Hfirst in H2. rewrite H3.
      cbn [Api.ProviderResponse.content Api.ProviderResponse.error
           Api.ProviderResponse.provider_id].
      set (id := Api.ProviderResponse.provider_id r) in *.
      split; [reflexivity|]. right. split; [reflexivity|]. split.
      * destruct (Dict.get id (App.StreamingTurn.content st)) as [c|] eqn:G;
          [|reflexivity].
        exfalso. apply H2. apply in_keys_get. eauto.
      * apply in_keys_get in H1 as (e & He). exists e. split; [assumption|].
        rewrite Forall_forall in Hve. apply (Hve (id, e)). now apply get_in.
Qed.

(** The entries assembled from the lanes of a sequence of events, for the
    names that [Object.prototype] does not define. *)
Lemma assemble_lanes (user : jsstring) (evs : list Api.StreamEvent.t)
  (st : App.StreamingTurn.t) :
  Lanes.run_events evs (Some (Lanes.opened user)) = Some st ->
  NoDup (map Api.ProviderResponse.provider_id (App.assemble st))
  /\ (forall id,
        Dict.inherited id = false ->
        (In id (map Api.ProviderResponse.provider_id (App.assemble st)) <->
         existsb (Lanes.speaks id) evs = true))
  /\ (forall r,
        In r (App.assemble st) ->
        Dict.inherited (Api.ProviderResponse.provider_id r) = false ->
        Api.ProviderResponse.content r =
          concat (Lanes.lane_deltas (Api.ProviderResponse.provider_id r) evs)
        /\ Api.ProviderResponse.error r =
             Lanes.last_error (Api.ProviderResponse.provider_id r) evs
        /\ (Api.ProviderResponse.content r <> []
            \/ exists e, Api.ProviderResponse.error r = Some e /\ e <> [])).
Proof.
  intros Hrun.
  assert (Hwf : Lanes.well_formed st).
  { apply (run_events_well_formed evs _ _ Hrun (opened_well_formed user)). }
  destruct (assemble_entries st Hwf) as (Hnd & Hids & Hin).
  assert (Herr : forall id, Dict.inherited id = false ->
                            Dict.read id (App.StreamingTurn.errors st) =
                            Lanes.last_error id evs).
  { intros id Hid. rewrite (read_get _ _ Hid).
    destruct (run_events_lanes id evs Hid _ _ Hrun) as (_ & He).
    rewrite He. now destruct (Lanes.last_error id evs). }
  assert (Hacc : forall id, Dict.inherited id = false ->
                            Lanes.accumulated id st = concat (Lanes.lane_deltas id evs)).
  { intros id Hid.
    destruct (run_events_content id evs (Lanes.opened user)) as (st' & H' & _ & Ha).
    rewrite Hrun in H'. injection H' as <-. exact (Ha Hid). }
  split; [exact Hnd|]. split.
  - intros id Hid. rewrite Hids, existsb_speaks.
    destruct (run_events_lanes id evs Hid _ _ Hrun) as (Hk & _).
    rewrite Hk, (run_events_error_keys id evs Hid _ _ Hrun). cbn. tauto.
  - intros r Hr Hid. destruct (Hin r Hr) as (He & Hc).
    set (id := Api.ProviderResponse.provider_id r) in *.
    split; [|split].
    + rewrite <- (Hacc id Hid). unfold Lanes.accumulated.
      destruct Hc as [(-> & _)|(-> & -> & _)]; reflexivity.
    + rewrite He. now apply Herr.
    + destruct Hc as [(_ & Hne)|(_ & _ & e & Hg & Hne)]; [now left|].
      right. exists e. split; [|assumption]. rewrite He. now apply read_own.
Qed.

(** ** A streamed submit *)

(** Runs the state update at the head of a sequence of computations. *)
Ltac run_setter f :=
  unfold IO.bind at 1, f at 1, IO.modify; cbn [IO.requests IO.state].

Lemma fold_with_streamingTurn (evs : list Api.StreamEvent.t) :
  forall (g : option App.StreamingTurn.t -> option App.StreamingTurn.t) (s : App.state),
  fold_left (fun s ev => App.with_streamingTurn (App.on_event ev) s) evs
    (App.with_streamingTurn g s) =
  App.with_streamingTurn (fun x => Lanes.run_events evs (g x)) s.
Proof.
  induction evs as [|ev evs IH]; intros g s; [reflexivity|].
  cbn [fold_left].
  change (App.with_streamingTurn (App.on_event ev) (App.with_streamingTurn g s))
    with (App.with_streamingTurn (fun x => App.on_event ev (g x)) s).
  now rewrite IH.
Qed.

Lemma try_catch_finally_return {S : Type} (m : IO.t S unit)
  (h : exn -> IO.t S unit) (f : IO.t S unit) (w w' : IO.world S) :
  m w = (w', IO.Return tt) ->
  IO.try_catch_finally m h f w = f w'.
Proof. intros H. unfold IO.try_catch_finally, IO.try_catch. now rewrite H. Qed.

(** A streamed submit that runs to its end: one request, and the turn
    assembled from the lanes of the events received. *)
Lemma handleSubmit_streamed (VITE_API_URL : option jsstring)
  (server : Request.t -> result Response.t) (s : App.state)
  (rs : list Request.t) (res : Response.t) (b : Response.stream)
  (evs : list Api.StreamEvent.t) :
  Js.truthy (Js.trim (App.input s)) = true ->
  App.loading s = false ->
  App.selectedModels s <> [] ->
  App.streaming s = true ->
  server (Stream.post VITE_API_URL (str "/debate/stream")
            (App.build_messages (App.turns s) (Js.trim (App.input s)))
            (Some (App.selectedModels s))) = Ok res ->
  Response.ok res = true ->
  Response.body res = Some b ->
  Response.failure b = None ->
  App.all_some App.as_StreamEvent
    (Stream.events_of (Stream.text_of (concat (Response.chunks b)))) = Some evs ->
  exists st,
    Lanes.run_events evs (Some (Lanes.opened (Js.trim (App.input s)))) = Some st
    /\ App.handleSubmit VITE_API_URL server (IO.World rs s) =
       (IO.World
          (rs ++ [Stream.post VITE_API_URL (str "/debate/stream")
                    (App.build_messages (App.turns s) (Js.trim (App.input s)))
                    (Some (App.selectedModels s))])
          {| App.turns :=
               App.turns s
               ++ [{| App.Turn.user := Js.trim (App.input s);
                      App.Turn.responses := App.assemble st |}];
             App.input := [];
             App.loading := false;
             App.streaming := true;
             App.streamingTurn := None;
             App.error := None;
             App.availableModels := App.availableModels s;
             App.selectedModels := App.selectedModels s;
             App.showModelSelector := App.showModelSelector s |},
        IO.Return tt).
Proof.
  intros Htext Hload Hsel Hstream Hs Hok Hb Hf Hev.
  destruct (run_events_content [] evs (Lanes.opened (Js.trim (App.input s))))
    as (st & Hrun & Hu & _).
  exists st. split; [exact Hrun|].
  unfold App.handleSubmit. unfold IO.bind at 1, IO.get. cbn [IO.state].
  rewrite Htext, Hload, Hstream. cbn [negb orb].
  destruct (App.selectedModels s) as [|m ms] eqn:Esel; [contradiction|].
  cbn [length Nat.eqb]. rewrite <- Esel in *.
  run_setter App.setInput. run_setter App.setError. run_setter App.setLoading.
  run_setter App.setStreamingTurn.
  erewrite try_catch_finally_return.
  2: { unfold IO.bind at 1.
       rewrite (sendDebateRoundStream_run _ _ _ _ _ res b _ Hs Hok Hb), Hf.
       unfold IO.bind at 1. rewrite (deliver_typed _ evs _ Hev).
       cbn [IO.requests IO.state]. rewrite fold_with_streamingTurn.
       unfold IO.modify. cbn [IO.requests IO.state]. reflexivity. }
  unfold App.setLoading, IO.modify. cbn [IO.requests IO.state].
  unfold App.finish.
  cbn [App.with_streamingTurn App.streamingTurn App.with_loading App.with_error
       App.with_input App.with_turns App.turns App.input App.loading App.streaming
       App.error App.availableModels App.selectedModels App.showModelSelector].
  fold (Lanes.opened (Js.trim (App.input s))). rewrite Hrun.
  cbn [App.with_streamingTurn App.streamingTurn App.with_loading App.with_error
       App.with_input App.with_turns App.turns App.input App.loading App.streaming
       App.error App.availableModels App.selectedModels App.showModelSelector].
  rewrite Hu. unfold App.with_loading, App.with_turns, App.with_streamingTurn,
    App.with_error, App.with_input.
  cbn [App.streamingTurn App.turns App.input App.loading App.streaming
       App.error App.availableModels App.selectedModels App.showModelSelector
       App.StreamingTurn.user Lanes.opened].
  rewrite Hstream. reflexivity.
Qed.

(** C3 does not hold as stated.  A provider that is selected and whose
    lane only ends gets no entry in the recorded turn: with provider A
    selected and a stream that holds the terminal event of A alone, the
    round completes and the turn is recorded with no response.  Nor does
    a provider that bears the name [__proto__] get an entry, whatever it
    sends: the lane state takes no property of that name. *)
Lemma recorded_turn_misses_silent_provider :
  (App.selectedModels (Example.ready "hi" true [str "A"]) = [str "A"]
   /\ Stream.events_of (Stream.text_of (concat Example.only_done)) =
      [Example.done_event "A"]
   /\ App.handleSubmit None (Example.serve (Example.streamed Example.only_done))
        (IO.World [] (Example.ready "hi" true [str "A"])) =
      (IO.World
         [Stream.post None (str "/debate/stream")
            [Conversation.user_says (str "hi")] (Some [str "A"])]
         {| App.turns := [{| App.Turn.user := str "hi"; App.Turn.responses := [] |}];
            App.input := []; App.loading := false; App.streaming := true;
            App.streamingTurn := None; App.error := None;
            App.availableModels := [str "A"]; App.selectedModels := [str "A"];
            App.showModelSelector := false |},
       IO.Return tt))
  /\ (Stream.events_of (Stream.text_of (concat Example.prototype_lane)) =
      [Example.delta_event "__proto__" "He";
       JSON.JObj [(str "model_id", JSON.JStr Dict.PROTO);
                  (str "error", JSON.JStr (str "boom"))]]
      /\ App.handleSubmit None (Example.serve (Example.streamed Example.prototype_lane))
           (IO.World [] (Example.ready "hi" true [Dict.PROTO])) =
         (IO.World
            [Stream.post None (str "/debate/stream")
               [Conversation.user_says (str "hi")] (Some [Dict.PROTO])]
            {| App.turns := [{| App.Turn.user := str "hi"; App.Turn.responses := [] |}];
               App.input := []; App.loading := false; App.streaming := true;
               App.streamingTurn := None; App.error := None;
               App.availableModels := [Dict.PROTO];
               App.selectedModels := [Dict.PROTO];
               App.showModelSelector := false |},
          IO.Return tt)).
Proof. repeat split; vm_compute; reflexivity. Qed.

(** C3 (amended).  When a streamed submit runs to its end, the turn it
    records has no two entries of one name, and for every name that
    [Object.prototype] does not define: it has an entry of that name
    exactly when the provider of that name sent a non-empty delta or a
    non-empty error, and the entry carries the concatenated deltas of
    the provider and its last non-empty error, at least one of the two
    being not empty. *)
Theorem recorded_turn_has_one_entry_per_speaking_provider
  (VITE_API_URL : option jsstring)
  (server : Request.t -> result Response.t) (s : App.state)
  (rs : list Request.t) (res : Response.t) (b : Response.stream)
  (evs : list Api.StreamEvent.t) :
  Js.truthy (Js.trim (App.input s)) = true ->
  App.loading s = false ->
  App.selectedModels s <> [] ->
  App.streaming s = true ->
  server (Stream.post VITE_API_URL (str "/debate/stream")
            (App.build_messages (App.turns s) (Js.trim (App.input s)))
            (Some (App.selectedModels s))) = Ok res ->
  Response.ok res = true ->
  Response.body res = Some b ->
  Response.failure b = None ->
  App.all_some App.as_StreamEvent
    (Stream.events_of (Stream.text_of (concat (Response.chunks b)))) = Some evs ->
  exists responses,
    snd (App.handleSubmit VITE_API_URL server (IO.World rs s)) = IO.Return tt
    /\ App.turns (IO.state (fst (App.handleSubmit VITE_API_URL server (IO.World rs s)))) =
       App.turns s
       ++ [{| App.Turn.user := Js.trim (App.input s);
              App.Turn.responses := responses |}]
    /\ NoDup (map Api.ProviderResponse.provider_id responses)
    /\ (forall id,
          Dict.inherited id = false ->
          (In id (map Api.ProviderResponse.provider_id responses) <->
           existsb (Lanes.speaks id) evs = true))
    /\ (forall r,
          In r responses ->
          Dict.inherited (Api.ProviderResponse.provider_id r) = false ->
          Api.ProviderResponse.content r =
            concat (Lanes.lane_deltas (Api.ProviderResponse.provider_id r) evs)
          /\ Api.ProviderResponse.error r =
               Lanes.last_error (Api.ProviderResponse.provider_id r) evs
          /\ (Api.ProviderResponse.content r <> []
              \/ exists e, Api.ProviderResponse.error r = Some e /\ e <> [])).
Proof.
  intros Htext Hload Hsel Hstream Hs Hok Hb Hf Hev.
  destruct (handleSubmit_streamed VITE_API_URL server s rs res b evs
              Htext Hload Hsel Hstream Hs Hok Hb Hf Hev) as (st & Hrun & Hsub).
  exists (App.assemble st). rewrite Hsub. cbn [fst snd IO.state App.turns].
  split; [reflexivity|]. split; [reflexivity|].
  exact (assemble_lanes _ evs st Hrun).
Qed.

Lemma recorded_turn_has_one_entry_per_speaking_provider_witness :
  exists responses,
    snd (App.handleSubmit None (Example.serve (Example.streamed Example.three_lanes))
           (IO.World [] (Example.ready "hi" true [str "A"; str "B"; str "C"]))) =
    IO.Return tt
    /\ App.turns
         (IO.state
            (fst (App.handleSubmit None
                    (Example.serve (Example.streamed Example.three_lanes))
                    (IO.World [] (Example.ready "hi" true [str "A"; str "B"; str "C"]))))) =
       [{| App.Turn.user := str "hi"; App.Turn.responses := responses |}]
    /\ responses =
       [{| Api.ProviderResponse.provider_id := str "A";
           Api.ProviderResponse.content := str "Hello";
           Api.ProviderResponse.error := None |};
        {| Api.ProviderResponse.provider_id := str "B";
           Api.ProviderResponse.content := [];
           Api.ProviderResponse.error := Some (str "boom") |}]
    /\ (In (str "C") (map Api.ProviderResponse.provider_id responses) <->
        existsb (Lanes.speaks (str "C"))
          [Lanes.Delta (str "A") (str "He"); Lanes.Failed (str "B") (str "boom");
           Lanes.Done (str "C"); Lanes.Delta (str "A") (str "llo");
           Lanes.Done (str "A")] = true).
Proof.
  destruct (recorded_turn_has_one_entry_per_speaking_provider None
              (Example.serve (Example.streamed Example.three_lanes))
              (Example.ready "hi" true [str "A"; str "B"; str "C"]) []
              (Example.streamed Example.three_lanes)
              {| Response.chunks := Example.three_lanes; Response.failure := None |}
              [Lanes.Delta (str "A") (str "He"); Lanes.Failed (str "B") (str "boom");
               Lanes.Done (str "C"); Lanes.Delta (str "A") (str "llo");
               Lanes.Done (str "A")])
    as (responses & Hret & Hturns & _ & Hids & _);
    try (vm_compute; reflexivity); try discriminate.
  exists responses. split; [exact Hret|]. split; [exact Hturns|].
  split; [|exact (Hids (str "C") eq_refl)].
  vm_compute in Hturns. injection Hturns as <-. reflexivity.
Defined.

(** ** The requests of the client *)

Lemma quiet_deliver {S : Type} (onEvent : JSON.value -> IO.t S unit)
  (evs : list JSON.value) :
  (forall ev, Http.quiet (onEvent ev)) -> Http.quiet (Stream.deliver onEvent evs).
Proof.
  intros Hq. induction evs as [|ev evs IH]; intros w; [reflexivity|].
  cbn [Stream.deliver]. unfold IO.bind, IO.try_catch.
  pose proof (Hq ev w) as H. destruct (onEvent ev w) as [w' [[]|e|]]; cbn in *.
  - now rewrite IH.
  - now rewrite IH.
  - assumption.
Qed.

Lemma requests_bind {S A B : Type} (m : IO.t S A) (k : A -> IO.t S B) w :
  (forall a, Http.quiet (k a)) ->
  IO.requests (fst (IO.bind m k w)) = IO.requests (fst (m w)).
Proof.
  intros Hk. unfold IO.bind.
  destruct (m w) as [w' [a|e|]]; cbn; [apply Hk | reflexivity | reflexivity].
Qed.

Lemma requests_try_catch_finally {S : Type} (m : IO.t S unit)
  (h : exn -> IO.t S unit) (f : IO.t S unit) w :
  (forall e, Http.quiet (h e)) -> Http.quiet f ->
  IO.requests (fst (IO.try_catch_finally m h f w)) = IO.requests (fst (m w)).
Proof.
  intros Hh Hf. unfold IO.try_catch_finally, IO.try_catch.
  destruct (m w) as [w' [[]|e|]]; cbn.
  - apply Hf.
  - pose proof (Hh e w') as H. destruct (h e w') as [w'' [[]|e'|]]; cbn in *.
    + now rewrite Hf.
    + unfold IO.bind. pose proof (Hf w'') as H'.
      destruct (f w'') as [w3 [[]|e3|]]; cbn in *; congruence.
    + assumption.
  - reflexivity.
Qed.

Lemma quiet_modify {S : Type} (f : S -> S) : Http.quiet (IO.modify f).
Proof. intros w. reflexivity. Qed.

(** A batch round logs its POST and nothing else, whatever the server
    answers, and leaves the state of the caller as it is. *)
Lemma sendDebateRound_requests {S : Type} (VITE_API_URL : option jsstring)
  (server : Request.t -> result Response.t)
  (messages : list Api.ChatMessage.t) (modelIds : option (list jsstring))
  (w : IO.world S) :
  fst (Api.sendDebateRound VITE_API_URL server messages modelIds w) =
  IO.World
    (IO.requests w ++ [Stream.post VITE_API_URL (str "/debate") messages modelIds])
    (IO.state w).
Proof.
  unfold Api.sendDebateRound, IO.bind at 1, IO.fetch.
  fold (Stream.post VITE_API_URL (str "/debate") messages modelIds).
  destruct (server _) as [res|e]; [|reflexivity].
  destruct (Response.ok res); cbn [negb].
  - unfold IO.lift. now destruct (Response.json res).
  - unfold IO.bind, IO.lift. now destruct (JSON.member _ _).
Qed.

(** A streamed round logs its POST and nothing else, when the callback
    issues no request. *)
Lemma sendDebateRoundStream_requests {S : Type} (VITE_API_URL : option jsstring)
  (server : Request.t -> result Response.t)
  (onEvent : JSON.value -> IO.t S unit)
  (messages : list Api.ChatMessage.t) (modelIds : option (list jsstring))
  (w : IO.world S) :
  (forall ev, Http.quiet (onEvent ev)) ->
  IO.requests
    (fst (Api.sendDebateRoundStream VITE_API_URL server onEvent messages modelIds w)) =
  IO.requests w ++ [Stream.post VITE_API_URL (str "/debate/stream") messages modelIds].
Proof.
  intros Hq.
  destruct (server (Stream.post VITE_API_URL (str "/debate/stream") messages modelIds))
    as [res|e] eqn:Hs.
  - destruct (Response.ok res) eqn:Hok.
    + destruct (Response.body res) as [b|] eqn:Hb.
      * rewrite (sendDebateRoundStream_run _ _ _ _ _ res b _ Hs Hok Hb).
        rewrite requests_bind.
        -- now rewrite quiet_deliver.
        -- intros _ w'. now destruct (Response.failure b).
      * unfold Api.sendDebateRoundStream, IO.bind at 1, IO.fetch.
        fold (Stream.post VITE_API_URL (str "/debate/stream") messages modelIds).
        now rewrite Hs, Hok, Hb.
    + unfold Api.sendDebateRoundStream, IO.bind at 1, IO.fetch.
      fold (Stream.post VITE_API_URL (str "/debate/stream") messages modelIds).
      rewrite Hs, Hok. cbn [negb]. unfold IO.bind, IO.lift.
      now destruct (JSON.member _ _).
  - unfold Api.sendDebateRoundStream, IO.bind at 1, IO.fetch.
    fold (Stream.post VITE_API_URL (str "/debate/stream") messages modelIds).
    now rewrite Hs.
Qed.

(** C6.  Whatever the server answers, a batch round issues one request, a
    POST to [/debate] under the base URL, and a streamed round whose
    callback issues none issues one request, a POST to [/debate/stream];
    both carry the header [Content-Type: application/json] and the same
    body, the JSON text of the object with the members [messages] and
    [model_ids]. *)
Theorem rounds_post_the_same_json_body {S : Type}
  (VITE_API_URL : option jsstring)
  (server : Request.t -> result Response.t)
  (onEvent : JSON.value -> IO.t S unit)
  (messages : list Api.ChatMessage.t) (ids : list jsstring) (w : IO.world S) :
  (forall ev, Http.quiet (onEvent ev)) ->
  IO.requests (fst (Api.sendDebateRound VITE_API_URL server messages (Some ids) w)) =
  IO.requests w
  ++ [{| Request.url := Api.API_BASE VITE_API_URL ++ str "/debate";
         Request.method := str "POST";
         Request.headers := [(str "Content-Type", str "application/json")];
         Request.body :=
           Some (JSON.stringify
                   (JSON.JObj
                      [(str "messages", JSON.JArr (map Api.ChatMessage.to_json messages));
                       (str "model_ids", JSON.JArr (map JSON.JStr ids))])) |}]
  /\ IO.requests
       (fst (Api.sendDebateRoundStream VITE_API_URL server onEvent messages (Some ids) w)) =
     IO.requests w
     ++ [{| Request.url := Api.API_BASE VITE_API_URL ++ str "/debate/stream";
            Request.method := str "POST";
            Request.headers := [(str "Content-Type", str "application/json")];
            Request.body :=
              Some (JSON.stringify
                      (JSON.JObj
                         [(str "messages", JSON.JArr (map Api.ChatMessage.to_json messages));
                          (str "model_ids", JSON.JArr (map JSON.JStr ids))])) |}].
Proof.
  intros Hq. split.
  - now rewrite sendDebateRound_requests.
  - now apply sendDebateRoundStream_requests.
Qed.

Lemma rounds_post_the_same_json_body_witness :
  IO.requests
    (fst (Api.sendDebateRound None (Example.serve (Example.answered 200 "OK" "{}"))
            [Conversation.user_says (str "hi")] (Some [str "A"])
            (IO.World [] ([] : list JSON.value)))) =
  [{| Request.url := str "/api/debate";
      Request.method := str "POST";
      Request.headers := [(str "Content-Type", str "application/json")];
      Request.body :=
        Some (Example.js "{'messages':[{'role':'user','content':'hi'}],'model_ids':['A']}") |}]
  /\ IO.requests
       (fst (Api.sendDebateRoundStream None
               (Example.serve (Example.streamed Example.three_lanes)) Stream.record
               [Conversation.user_says (str "hi")] (Some [str "A"])
               (IO.World [] []))) =
     [{| Request.url := str "/api/debate/stream";
         Request.method := str "POST";
         Request.headers := [(str "Content-Type", str "application/json")];
         Request.body :=
           Some (Example.js "{'messages':[{'role':'user','content':'hi'}],'model_ids':['A']}") |}].
Proof.
  split.
  - rewrite (proj1 (rounds_post_the_same_json_body None
                      (Example.serve (Example.answered 200 "OK" "{}")) Stream.record
                      [Conversation.user_says (str "hi")] [str "A"] (IO.World [] [])
                      (fun ev => quiet_modify _))).
    vm_compute. reflexivity.
  - rewrite (proj2 (rounds_post_the_same_json_body None
                      (Example.serve (Example.streamed Example.three_lanes)) Stream.record
                      [Conversation.user_says (str "hi")] [str "A"] (IO.World [] [])
                      (fun ev => quiet_modify _))).
    vm_compute. reflexivity.
Defined.

(** ** Responses with a failure status *)







(** ** The list of models *)

(** Every way [getAvailableModels] can run. *)
Lemma getAvailableModels_run {S : Type} (VITE_API_URL : option jsstring)
  (server : Request.t -> result Response.t) (w : IO.world S) :
  Api.getAvailableModels VITE_API_URL server w =
  (IO.World
     (IO.requests w
      ++ [{| Request.url := Api.API_BASE VITE_API_URL ++ str "/models";
             Request.method := str "GET";
             Request.headers := [];
             Request.body := None |}])
     (IO.state w),
   match server {| Request.url := Api.API_BASE VITE_API_URL ++ str "/models";
                   Request.method := str "GET";
                   Request.headers := [];
                   Request.body := None |} with
   | Throw e => IO.Raise e
   | Ok res =>
       if Response.ok res then
         match Response.json res with
         | Throw e => IO.Raise e
         | Ok d =>
             match JSON.member d (str "models") with
             | Throw e => IO.Raise e
             | Ok (Some m) => IO.Return (if JSON.truthy m then m else JSON.JArr [])
             | Ok None => IO.Return (JSON.JArr [])
             end
         end
       else IO.Return (JSON.JArr [])
   end).
Proof.
  unfold Api.getAvailableModels, IO.bind at 1, IO.fetch.
  destruct (server _) as [res|e]; [|reflexivity].
  destruct (Response.ok res); cbn [negb]; [|reflexivity].
  unfold IO.bind, IO.lift.
  destruct (Response.json res) as [d|x]; [|reflexivity].
  cbn [IO.ret]. now destruct (JSON.member d (str "models")) as [[m|]|x].
Qed.

(** C7 does not hold as stated.  A body that lacks a [models] field does
    not always give the empty list: for a success status with the body
    null, reading [data.models] throws a [TypeError], and for a success
    status with an empty body [res.json()] rejects. *)
Lemma models_of_null_body_throw :
  (Response.ok (Example.answered 200 "OK" "null") = true
   /\ Response.json (Example.answered 200 "OK" "null") = Ok JSON.JNull
   /\ exists text,
        Api.getAvailableModels None (Example.serve (Example.answered 200 "OK" "null"))
          (IO.World [] tt) =
        (IO.World
           [{| Request.url := str "/api/models"; Request.method := str "GET";
               Request.headers := []; Request.body := None |}] tt,
         IO.Raise (TypeError text)))
  /\ (Response.ok (Example.answered 200 "OK" "") = true
      /\ exists text,
           Api.getAvailableModels None (Example.serve (Example.answered 200 "OK" ""))
             (IO.World [] tt) =
           (IO.World
              [{| Request.url := str "/api/models"; Request.method := str "GET";
                  Request.headers := []; Request.body := None |}] tt,
            IO.Raise (SyntaxError text))).
Proof.
  split; split; try (vm_compute; reflexivity).
  - split; [vm_compute; reflexivity|]. eexists. vm_compute. reflexivity.
  - eexists. vm_compute. reflexivity.
Qed.

(** C7 (amended).  [getAvailableModels] issues one request, a GET of
    [/models] under the base URL, without a body, and leaves the state of
    the caller as it is.  It returns the empty list when the status is
    outside 200-299, and when the status is a success and the body is a
    JSON value other than null that has no [models] member, or whose
    [models] is null, false or the empty string.  It returns the array
    when the body is a JSON object whose [models] member is an array.  It
    throws when [fetch] fails, when the body of a success is not a JSON
    text (the rejection of [res.json()]) and when that body is the JSON
    text null (a [TypeError]). *)
Theorem getAvailableModels_reads_models_or_empty {S : Type}
  (VITE_API_URL : option jsstring)
  (server : Request.t -> result Response.t) (w : IO.world S) :
  fst (Api.getAvailableModels VITE_API_URL server w) =
  IO.World
    (IO.requests w
     ++ [{| Request.url := Api.API_BASE VITE_API_URL ++ str "/models";
            Request.method := str "GET";
            Request.headers := [];
            Request.body := None |}])
    (IO.state w)
  /\ (forall e,
        server {| Request.url := Api.API_BASE VITE_API_URL ++ str "/models";
                  Request.method := str "GET";
                  Request.headers := [];
                  Request.body := None |} = Throw e ->
        snd (Api.getAvailableModels VITE_API_URL server w) = IO.Raise e)
  /\ (forall res,
        server {| Request.url := Api.API_BASE VITE_API_URL ++ str "/models";
                  Request.method := str "GET";
                  Request.headers := [];
                  Request.body := None |} = Ok res ->
        (Response.ok res = false ->
         snd (Api.getAvailableModels VITE_API_URL server w) = IO.Return (JSON.JArr []))
        /\ (Response.ok res = true -> Http.without (str "models") res = true ->
            snd (Api.getAvailableModels VITE_API_URL server w) = IO.Return (JSON.JArr []))
        /\ (forall members v,
              Response.ok res = true ->
              Response.json res = Ok (JSON.JObj members) ->
              Dict.get (str "models") members = Some v ->
              In v [JSON.JNull; JSON.JBool false; JSON.JStr []] ->
              snd (Api.getAvailableModels VITE_API_URL server w) =
              IO.Return (JSON.JArr []))
        /\ (forall items,
              Response.ok res = true -> Http.has_array (str "models") items res ->
              snd (Api.getAvailableModels VITE_API_URL server w) =
              IO.Return (JSON.JArr items))
        /\ (forall e,
              Response.ok res = true -> Response.json res = Throw e ->
              snd (Api.getAvailableModels VITE_API_URL server w) = IO.Raise e)
        /\ (Response.ok res = true -> Response.json res = Ok JSON.JNull ->
            exists text,
              snd (Api.getAvailableModels VITE_API_URL server w) =
              IO.Raise (TypeError text))).
Proof.
  rewrite getAvailableModels_run. cbn [fst snd]. split; [reflexivity|]. split.
  - now intros e ->.
  - intros res ->. repeat split.
    + intros ->. reflexivity.
    + intros -> Hl. unfold Http.without in Hl.
      destruct (Response.json res) as [[| | | | |members]|x]; try discriminate;
        cbn [JSON.member]; try reflexivity.
      now destruct (Dict.get (str "models") members).
    + intros members v -> -> Hg Hv. cbn [JSON.member]. rewrite Hg.
      destruct Hv as [<-|[<-|[<-|[]]]]; reflexivity.
    + intros items -> (members & -> & Hg). cbn [JSON.member]. now rewrite Hg.
    + now intros e -> ->.
    + intros -> ->. eexists. reflexivity.
Qed.

Lemma getAvailableModels_reads_models_or_empty_witness :
  Api.getAvailableModels None
    (Example.serve (Example.answered 503 "Service Unavailable" "{'models':['A']}"))
    (IO.World [] tt) =
  (IO.World
     [{| Request.url := str "/api/models"; Request.method := str "GET";
         Request.headers := []; Request.body := None |}] tt,
   IO.Return (JSON.JArr []))
  /\ snd (Api.getAvailableModels None
            (Example.serve (Example.answered 200 "OK" "[1,2]"))
            (IO.World [] tt)) = IO.Return (JSON.JArr [])
  /\ snd (Api.getAvailableModels None
            (Example.serve (Example.answered 200 "OK" "{'models':['A','B']}"))
            (IO.World [] tt)) =
     IO.Return (JSON.JArr [JSON.JStr (str "A"); JSON.JStr (str "B")])
  /\ exists text,
       snd (Api.getAvailableModels None
              (Example.serve (Example.answered 200 "OK" "<html>"))
              (IO.World [] tt)) =
       IO.Raise (SyntaxError text).
Proof.
  split; [|split; [|split]].
  - pose proof
      (getAvailableModels_reads_models_or_empty None
         (Example.serve (Example.answered 503 "Service Unavailable" "{'models':['A']}"))
         (IO.World [] tt)) as (Hw & _ & Hr).
    destruct (Hr _ eq_refl) as (H & _). specialize (H eq_refl).
    destruct (Api.getAvailableModels _ _ _) as [w' out]. cbn [fst snd] in *.
    now rewrite Hw, H.
  - pose proof
      (getAvailableModels_reads_models_or_empty None
         (Example.serve (Example.answered 200 "OK" "[1,2]"))
         (IO.World [] tt)) as (_ & _ & Hr).
    destruct (Hr _ eq_refl) as (_ & H & _). apply H; vm_compute; reflexivity.
  - pose proof
      (getAvailableModels_reads_models_or_empty None
         (Example.serve (Example.answered 200 "OK" "{'models':['A','B']}"))
         (IO.World [] tt)) as (_ & _ & Hr).
    destruct (Hr _ eq_refl) as (_ & _ & _ & H & _). apply H; [reflexivity|].
    eexists. split; vm_compute; reflexivity.
  - pose proof
      (getAvailableModels_reads_models_or_empty None
         (Example.serve (Example.answered 200 "OK" "<html>"))
         (IO.World [] tt)) as (_ & _ & Hr).
    destruct (Hr _ eq_refl) as (_ & _ & _ & _ & H & _).
    eexists. apply H; vm_compute; reflexivity.
Defined.

(** ** Submitting *)

(** C5 does not hold as stated.  A submit with a blank input and no model
    selected returns at the first guard: no request, and no error message
    either. *)
Lemma blank_submit_without_models_sets_no_error :
  App.selectedModels (Example.ready "  " false []) = []
  /\ App.handleSubmit None (Example.serve Example.batch_answer)
       (IO.World [] (Example.ready "  " false [])) =
     (IO.World [] (Example.ready "  " false []), IO.Return tt)
  /\ App.error (Example.ready "  " false []) = None.
Proof. repeat split; vm_compute; reflexivity. Qed.

(** C5 (amended).  A submit while no model is selected issues no request
    and ends normally.  When the trimmed input is not empty and no round
    is loading, it sets the error message that asks for a model and
    changes nothing else; when the input is blank or a round is loading,
    it leaves the state as it is. *)
Theorem submit_without_models_issues_no_request
  (VITE_API_URL : option jsstring)
  (server : Request.t -> result Response.t) (s : App.state)
  (rs : list Request.t) :
  App.selectedModels s = [] ->
  App.handleSubmit VITE_API_URL server (IO.World rs s) =
  (IO.World rs
     (if negb (Js.truthy (Js.trim (App.input s))) || App.loading s then s
      else {| App.turns := App.turns s; App.input := App.input s;
              App.loading := App.loading s; App.streaming := App.streaming s;
              App.streamingTurn := App.streamingTurn s;
              App.error :=
                Some (str "Please select at least one model to participate.");
              App.availableModels := App.availableModels s;
              App.selectedModels := App.selectedModels s;
              App.showModelSelector := App.showModelSelector s |}),
   IO.Return tt).
Proof.
  intros Hsel. unfold App.handleSubmit, IO.bind at 1, IO.get. cbn [IO.state].
  destruct (negb (Js.truthy (Js.trim (App.input s))) || App.loading s); [reflexivity|].
  replace (Nat.eqb (length (App.selectedModels s)) 0) with true by now rewrite Hsel.
  reflexivity.
Qed.

Lemma submit_without_models_issues_no_request_witness :
  App.handleSubmit None (Example.serve Example.batch_answer)
    (IO.World [] (Example.ready "hello" false [])) =
  (IO.World []
     {| App.turns := []; App.input := str "hello"; App.loading := false;
        App.streaming := false; App.streamingTurn := None;
        App.error := Some (str "Please select at least one model to participate.");
        App.availableModels := []; App.selectedModels := [];
        App.showModelSelector := false |},
   IO.Return tt).
Proof.
  rewrite (submit_without_models_issues_no_request None
             (Example.serve Example.batch_answer)
             (Example.ready "hello" false []) [] eq_refl).
  vm_compute. reflexivity.
Defined.

(** ** The conversation of a round *)

Lemma answers_filter_map (rs : list Api.ProviderResponse.t) :
  map (fun r =>
         {| Api.ChatMessage.role := Api.assistant;
            Api.ChatMessage.content :=
              str "Model " ++ App.getProviderLabel (Api.ProviderResponse.provider_id r)
              ++ str ": " ++ Api.ProviderResponse.content r |})
    (filter (fun r => Js.truthy (Api.ProviderResponse.content r)
                      && negb (App.error_truthy (Api.ProviderResponse.error r))) rs) =
  Conversation.answers rs.
Proof.
  induction rs as [|r rs IH]; [reflexivity|].
  cbn [filter Conversation.answers].
  destruct (Api.ProviderResponse.content r) as [|c cs] eqn:Ec; cbn [Js.truthy andb].
  - exact IH.
  - destruct (Api.ProviderResponse.error r) as [[|e es]|];
      cbn [App.error_truthy Js.truthy negb]; cbn [map];
      rewrite ?IH, ?Ec; reflexivity.
Qed.

Lemma build_messages_labelled (ts : list App.Turn.t) (text : jsstring) :
  App.build_messages ts text = Conversation.labelled ts text.
Proof.
  unfold App.build_messages.
  induction ts as [|t ts IH]; [reflexivity|].
  cbn [flat_map Conversation.labelled]. rewrite <- app_assoc, IH.
  unfold App.turnMessages. rewrite answers_filter_map. reflexivity.
Qed.

Lemma answers_not_from_user (rs : list Api.ProviderResponse.t) :
  filter Conversation.from_user (Conversation.answers rs) = [].
Proof.
  induction rs as [|r rs IH]; [reflexivity|].
  cbn [Conversation.answers].
  destruct (Api.ProviderResponse.content r); [exact IH|].
  destruct (Api.ProviderResponse.error r) as [[|e es]|]; cbn; exact IH.
Qed.

Lemma labelled_user_messages (ts : list App.Turn.t) (text : jsstring) :
  map Api.ChatMessage.content
    (filter Conversation.from_user (Conversation.labelled ts text)) =
  map App.Turn.user ts ++ [text].
Proof.
  induction ts as [|t ts IH]; [reflexivity|].
  cbn [Conversation.labelled filter]. unfold Conversation.from_user at 1.
  cbn [Conversation.user_says Api.ChatMessage.role].
  rewrite filter_app, answers_not_from_user. cbn [app map Api.ChatMessage.content].
  now rewrite IH.
Qed.

(** The one request of a submit that passes the guards. *)
Lemma handleSubmit_requests (VITE_API_URL : option jsstring)
  (server : Request.t -> result Response.t) (s : App.state) (rs : list Request.t) :
  Js.truthy (Js.trim (App.input s)) = true ->
  App.loading s = false ->
  App.selectedModels s <> [] ->
  IO.requests (fst (App.handleSubmit VITE_API_URL server (IO.World rs s))) =
  rs ++ [Stream.post VITE_API_URL (Conversation.path s)
           (App.build_messages (App.turns s) (Js.trim (App.input s)))
           (Some (App.selectedModels s))].
Proof.
  intros Htext Hload Hsel.
  unfold App.handleSubmit. unfold IO.bind at 1, IO.get. cbn [IO.state].
  rewrite Htext, Hload. cbn [negb orb].
  destruct (App.selectedModels s) as [|m ms] eqn:Esel; [contradiction|].
  cbn [length Nat.eqb]. rewrite <- Esel.
  run_setter App.setInput. run_setter App.setError. run_setter App.setLoading.
  unfold Conversation.path. destruct (App.streaming s).
  - run_setter App.setStreamingTurn.
    rewrite requests_try_catch_finally.
    + rewrite requests_bind by (intros; apply quiet_modify).
      rewrite sendDebateRoundStream_requests; [reflexivity|].
      intros ev w. unfold App.onStreamEvent, IO.bind, IO.lift.
      destruct (JSON.member ev (str "model_id")); [|reflexivity].
      destruct (App.as_StreamEvent ev); reflexivity.
    + intros e w. reflexivity.
    + apply quiet_modify.
  - rewrite requests_try_catch_finally.
    + rewrite requests_bind.
      * now rewrite sendDebateRound_requests.
      * intros data w. destruct (App.as_DebateResponse data); reflexivity.
    + intros e. apply quiet_modify.
    + apply quiet_modify.
Qed.

(** C8 does not hold as stated.  The conversation sent is not the
    recorded one word for word: the answer of ChatGPT goes out behind its
    label, and the failed answer of Gemini does not go out at all. *)
Lemma sent_conversation_is_relabelled :
  IO.requests
    (fst (App.handleSubmit None (Example.serve Example.batch_answer)
            (IO.World [] Example.second_round))) =
  [Stream.post None (str "/debate")
     [Conversation.user_says (str "hi");
      Conversation.assistant_says (str "Model ChatGPT: yo");
      Conversation.user_says (str "next")]
     (Some [str "chatgpt"; str "gemini"])]
  /\ Conversation.verbatim (App.turns Example.second_round) (str "next") =
     [Conversation.user_says (str "hi");
      Conversation.assistant_says (str "yo");
      Conversation.assistant_says [];
      Conversation.user_says (str "next")].
Proof. split; vm_compute; reflexivity. Qed.

(** C8 (amended).  A submit that passes the guards sends, in one request,
    the conversation that keeps the turns in their order: every turn gives
    its user message as recorded, then one assistant message for each of
    its responses that has a content and no error, in the recorded order,
    made of the label of the provider and that content; the trimmed input
    comes last as the new user message.  The user messages of the
    conversation are those of the turns, word for word, and the new
    one. *)
Theorem sent_conversation_keeps_turn_order
  (VITE_API_URL : option jsstring)
  (server : Request.t -> result Response.t) (s : App.state) (rs : list Request.t) :
  Js.truthy (Js.trim (App.input s)) = true ->
  App.loading s = false ->
  App.selectedModels s <> [] ->
  IO.requests (fst (App.handleSubmit VITE_API_URL server (IO.World rs s))) =
  rs ++ [Stream.post VITE_API_URL (Conversation.path s)
           (Conversation.labelled (App.turns s) (Js.trim (App.input s)))
           (Some (App.selectedModels s))]
  /\ map Api.ChatMessage.content
       (filter Conversation.from_user
          (Conversation.labelled (App.turns s) (Js.trim (App.input s)))) =
     map App.Turn.user (App.turns s) ++ [Js.trim (App.input s)].
Proof.
  intros Htext Hload Hsel. split.
  - rewrite <- build_messages_labelled. now apply handleSubmit_requests.
  - apply labelled_user_messages.
Qed.

Lemma sent_conversation_keeps_turn_order_witness :
  IO.requests
    (fst (App.handleSubmit None (Example.serve Example.batch_answer)
            (IO.World [] Example.second_round))) =
  [{| Request.url := str "/api/debate";
      Request.method := str "POST";
      Request.headers := [(str "Content-Type", str "application/json")];
      Request.body :=
        Some (Example.js
                "{'messages':[{'role':'user','content':'hi'},{'role':'assistant','content':'Model ChatGPT: yo'},{'role':'user','content':'next'}],'model_ids':['chatgpt','gemini']}") |}].
Proof.
  rewrite (proj1 (sent_conversation_keeps_turn_order None
                    (Example.serve Example.batch_answer) Example.second_round []
                    eq_refl eq_refl ltac:(discriminate))).
  vm_compute. reflexivity.
Defined.

(** * Further properties of the component and of the client *)

(** ** Every way a submit can end *)

(** The callback of the component changes the lane state only, and keeps
    the user message of the lane. *)
Lemma deliver_lane (values : list JSON.value) :
  forall (st : App.StreamingTurn.t) (s0 : App.state) (rs : list Request.t),
  exists st',
    fst (Stream.deliver App.onStreamEvent values
           (IO.World rs (App.with_streamingTurn (fun _ => Some st) s0))) =
    IO.World rs (App.with_streamingTurn (fun _ => Some st') s0)
    /\ App.StreamingTurn.user st' = App.StreamingTurn.user st.
Proof.
  induction values as [|j values IH]; intros st s0 rs.
  - exists st. split; reflexivity.
  - cbn [Stream.deliver]. unfold App.onStreamEvent at 1.
    unfold IO.bind at 2, IO.lift.
    destruct (JSON.member j (str "model_id")) as [m|e].
    + cbn [IO.ret]. destruct (App.as_StreamEvent j) as [ev|].
      * unfold IO.bind, IO.try_catch, App.setStreamingTurn, IO.modify.
        cbn [IO.requests IO.state].
        destruct (on_event_some ev st) as (st1 & H1 & Hu1).
        change (App.with_streamingTurn (App.on_event ev)
                  (App.with_streamingTurn (fun _ => Some st) s0))
          with (App.with_streamingTurn (fun _ => App.on_event ev (Some st)) s0).
        rewrite H1.
        destruct (IH st1 s0 rs) as (st' & H & Hu).
        unfold IO.bind in H. exists st'. split; [exact H | congruence].
      * exists st. split; reflexivity.
    + unfold IO.bind, IO.try_catch, IO.raise, IO.ret.
      destruct (IH st s0 rs) as (st' & H & Hu). exists st'. split; assumption.
Qed.

(** A streamed round of the component logs its request and changes the
    lane state only, however it ends. *)
Lemma stream_lane (VITE_API_URL : option jsstring)
  (server : Request.t -> result Response.t)
  (messages : list Api.ChatMessage.t) (modelIds : option (list jsstring))
  (st : App.StreamingTurn.t) (s0 : App.state) (rs : list Request.t) :
  exists st',
    fst (Api.sendDebateRoundStream VITE_API_URL server App.onStreamEvent
           messages modelIds
           (IO.World rs (App.with_streamingTurn (fun _ => Some st) s0))) =
    IO.World
      (rs ++ [Stream.post VITE_API_URL (str "/debate/stream") messages modelIds])
      (App.with_streamingTurn (fun _ => Some st') s0)
    /\ App.StreamingTurn.user st' = App.StreamingTurn.user st.
Proof.
  destruct (server (Stream.post VITE_API_URL (str "/debate/stream") messages modelIds))
    as [res|e] eqn:Hs.
  - destruct (Response.ok res) eqn:Hok.
    + destruct (Response.body res) as [b|] eqn:Hb.
      * rewrite (sendDebateRoundStream_run _ _ _ _ _ res b _ Hs Hok Hb).
        cbn [IO.requests IO.state].
        destruct (deliver_lane
                    (Stream.events_of (Stream.text_of (concat (Response.chunks b))))
                    st s0
                    (rs ++ [Stream.post VITE_API_URL (str "/debate/stream")
                              messages modelIds])) as (st' & H & Hu).
        exists st'. split; [|exact Hu].
        unfold IO.bind.
        destruct (Stream.deliver _ _ _) as [w' [[]|e|]]; cbn [fst] in H; subst w';
          try reflexivity.
        now destruct (Response.failure b).
      * exists st. split; [|reflexivity].
        unfold Api.sendDebateRoundStream, IO.bind at 1, IO.fetch.
        fold (Stream.post VITE_API_URL (str "/debate/stream") messages modelIds).
        now rewrite Hs, Hok, Hb.
    + exists st. split; [|reflexivity].
      unfold Api.sendDebateRoundStream, IO.bind at 1, IO.fetch.
      fold (Stream.post VITE_API_URL (str "/debate/stream") messages modelIds).
      rewrite Hs, Hok. cbn [negb]. unfold IO.bind, IO.lift.
      now destruct (JSON.member _ _).
  - exists st. split; [|reflexivity].
    unfold Api.sendDebateRoundStream, IO.bind at 1, IO.fetch.
    fold (Stream.post VITE_API_URL (str "/debate/stream") messages modelIds).
    now rewrite Hs.
Qed.

(** Closes the description of the final state of a submit once the state
    is known. *)
Ltac settled :=
  split; [repeat split; reflexivity|];
  split; [reflexivity|];
  first
    [ left; split; [reflexivity|]; split; [reflexivity|];
      split; [intros H; first [reflexivity | discriminate H]|];
      first [ left; eexists; split; reflexivity
            | right; split; [reflexivity | eexists; reflexivity] ]
    | right; split; reflexivity ].

(** A submit that passes the guards logs its one request and ends in one
    of three ways: the turn is recorded and the error cleared; or nothing
    is recorded and an error message is set; or the server sent a value
    outside its type.  It never throws. *)
Lemma handleSubmit_settles (VITE_API_URL : option jsstring)
  (server : Request.t -> result Response.t) (s : App.state) (rs : list Request.t) :
  Round.accepted s ->
  exists s',
    fst (App.handleSubmit VITE_API_URL server (IO.World rs s)) =
    IO.World (rs ++ [Round.request VITE_API_URL s]) s'
    /\ Round.same_setup s s'
    /\ App.input s' = []
    /\ ((snd (App.handleSubmit VITE_API_URL server (IO.World rs s)) = IO.Return tt
         /\ App.loading s' = false
         /\ (App.streaming s = true -> App.streamingTurn s' = None)
         /\ ((exists responses,
                App.turns s' =
                App.turns s
                ++ [{| App.Turn.user := Js.trim (App.input s);
                       App.Turn.responses := responses |}]
                /\ App.error s' = None)
             \/ (App.turns s' = App.turns s
                 /\ exists e, App.error s' = Some (Js.message e))))
        \/ (snd (App.handleSubmit VITE_API_URL server (IO.World rs s)) = IO.Untyped
            /\ App.turns s' = App.turns s)).
Proof.
  intros (Htext & Hload & Hsel).
  destruct (App.handleSubmit VITE_API_URL server (IO.World rs s)) as [wf outf] eqn:Hrun.
  cbn [fst snd].
  unfold App.handleSubmit in Hrun. unfold IO.bind at 1, IO.get in Hrun.
  cbn [IO.state] in Hrun. rewrite Htext, Hload in Hrun. cbn [negb orb] in Hrun.
  destruct (App.selectedModels s) as [|m ms] eqn:Esel; [contradiction|].
  cbn [length Nat.eqb] in Hrun. rewrite <- Esel in *. clear Hsel.
  unfold Round.request, Conversation.path.
  unfold IO.bind at 1, App.setInput, IO.modify in Hrun. cbn [IO.requests IO.state] in Hrun.
  unfold IO.bind at 1, App.setError at 1, IO.modify in Hrun.
  cbn [IO.requests IO.state] in Hrun.
  unfold IO.bind at 1, App.setLoading at 1, IO.modify in Hrun.
  cbn [IO.requests IO.state] in Hrun.
  destruct (App.streaming s) eqn:Hstream.
  - (* streamed *)
    unfold IO.bind at 1, App.setStreamingTurn at 1, IO.modify in Hrun.
    cbn [IO.requests IO.state] in Hrun.
    unfold IO.try_catch_finally, IO.try_catch, IO.bind at 1 in Hrun.
    destruct (stream_lane VITE_API_URL server
                (App.build_messages (App.turns s) (Js.trim (App.input s)))
                (Some (App.selectedModels s))
                {| App.StreamingTurn.user := Js.trim (App.input s);
                   App.StreamingTurn.content := [];
                   App.StreamingTurn.errors := [] |}
                (App.with_loading true (App.with_error None (App.with_input [] s))) rs)
      as (st' & Hfst & Hu).
    destruct (Api.sendDebateRoundStream _ _ _ _ _ _) as [w2 out].
    cbn [fst] in Hfst. subst w2. cbn [App.StreamingTurn.user] in Hu.
    destruct out as [[]|e|]; cbn in Hrun; injection Hrun as <- <-;
      (eexists; split; [reflexivity|]); unfold Round.same_setup; cbn;
      rewrite ?Hstream, ?Hu; settled.
  - (* batch *)
    unfold IO.try_catch_finally, IO.try_catch, IO.bind in Hrun.
    pose proof (sendDebateRound_requests VITE_API_URL server
                  (App.build_messages (App.turns s) (Js.trim (App.input s)))
                  (Some (App.selectedModels s))
                  (IO.World rs
                     (App.with_loading true
                        (App.with_error None (App.with_input [] s))))) as Hfst.
    destruct (Api.sendDebateRound _ _ _ _ _) as [w2 out].
    cbn [fst IO.requests IO.state] in Hfst. subst w2.
    destruct out as [data|e|]; [destruct (App.as_DebateResponse data) as [r|]| |];
      cbn in Hrun; injection Hrun as <- <-;
      (eexists; split; [reflexivity|]); unfold Round.same_setup; cbn;
      rewrite ?Hstream; settled.
Qed.

(** A submit that does not pass the guards issues no request, records
    nothing and ends normally. *)
Lemma handleSubmit_rejected (VITE_API_URL : option jsstring)
  (server : Request.t -> result Response.t) (s : App.state) (rs : list Request.t) :
  App.submitDisabled s = true ->
  exists s',
    App.handleSubmit VITE_API_URL server (IO.World rs s) = (IO.World rs s', IO.Return tt)
    /\ Round.same_setup s s'
    /\ App.turns s' = App.turns s.
Proof.
  unfold App.submitDisabled. intros H.
  unfold App.handleSubmit, IO.bind at 1, IO.get. cbn [IO.state].
  destruct (negb (Js.truthy (Js.trim (App.input s))) || App.loading s) eqn:E.
  - exists s. repeat split; reflexivity.
  - apply orb_false_iff in E as [E1 E2]. rewrite E1, E2 in H. cbn in H. rewrite H.
    eexists. split; [reflexivity|]. repeat split; reflexivity.
Qed.

Lemma submitDisabled_false (s : App.state) :
  App.submitDisabled s = false <-> Round.accepted s.
Proof.
  unfold App.submitDisabled, Round.accepted.
  rewrite !orb_false_iff, negb_false_iff. split.
  - intros ((H1 & H2) & H3). repeat split; try assumption.
    intros E. rewrite E in H3. discriminate.
  - intros (H1 & H2 & H3). repeat split; try assumption.
    destruct (App.selectedModels s); [contradiction | reflexivity].
Qed.

(** X1.  The submit button and [handleSubmit] agree: a submit issues no
    request when the button is disabled (a round is loading, the trimmed
    input is empty or no model is selected), and exactly one request, the
    POST of the conversation to the path of the chosen mode, when the
    button is enabled, whatever the server answers. *)
Theorem submit_requests_iff_button_enabled
  (VITE_API_URL : option jsstring)
  (server : Request.t -> result Response.t) (s : App.state) (rs : list Request.t) :
  IO.requests (fst (App.handleSubmit VITE_API_URL server (IO.World rs s))) =
  if App.submitDisabled s then rs else rs ++ [Round.request VITE_API_URL s].
Proof.
  destruct (App.submitDisabled s) eqn:E.
  - destruct (handleSubmit_rejected VITE_API_URL server s rs E) as (s' & H & _).
    now rewrite H.
  - apply submitDisabled_false in E as (H1 & H2 & H3).
    now apply handleSubmit_requests.
Qed.

(** X2.  [handleSubmit] never throws: whatever the state and whatever the
    server does (failure of the network, failure status, broken body,
    failure in the middle of the stream), the submit ends normally, unless
    the server sent a value outside its declared type. *)
Theorem handleSubmit_never_throws
  (VITE_API_URL : option jsstring)
  (server : Request.t -> result Response.t) (w : IO.world App.state) :
  snd (App.handleSubmit VITE_API_URL server w) = IO.Return tt
  \/ snd (App.handleSubmit VITE_API_URL server w) = IO.Untyped.
Proof.
  destruct w as [rs s]. destruct (App.submitDisabled s) eqn:E.
  - destruct (handleSubmit_rejected VITE_API_URL server s rs E) as (s' & H & _).
    rewrite H. now left.
  - apply submitDisabled_false in E.
    destruct (handleSubmit_settles VITE_API_URL server s rs E)
      as (s' & _ & _ & _ & [(H & _)|(H & _)]); auto.
Qed.

(** X3.  The history is only ever extended: after a submit the turns are
    the turns before it followed by at most one new turn, and the models
    available, the models selected, the mode and the selector flag are
    what they were. *)
Theorem handleSubmit_extends_history
  (VITE_API_URL : option jsstring)
  (server : Request.t -> result Response.t) (s : App.state) (rs : list Request.t) :
  (exists added,
     App.turns (IO.state (fst (App.handleSubmit VITE_API_URL server (IO.World rs s)))) =
     App.turns s ++ added
     /\ (length added <= 1)%nat)
  /\ Round.same_setup s
       (IO.state (fst (App.handleSubmit VITE_API_URL server (IO.World rs s)))).
Proof.
  destruct (App.submitDisabled s) eqn:E.
  - destruct (handleSubmit_rejected VITE_API_URL server s rs E) as (s' & H & Hs & Ht).
    rewrite H. cbn [fst IO.state]. split; [|exact Hs].
    exists []. rewrite app_nil_r. split; [exact Ht | cbn; lia].
  - apply submitDisabled_false in E.
    destruct (handleSubmit_settles VITE_API_URL server s rs E)
      as (s' & H & Hs & _ & Hout).
    rewrite H. cbn [fst IO.state]. split; [|exact Hs].
    destruct Hout as [(_ & _ & _ & [(r & Ht & _)|(Ht & _)])|(_ & Ht)].
    + eexists. split; [exact Ht | cbn; lia].
    + exists []. rewrite app_nil_r. split; [exact Ht | cbn; lia].
    + exists []. rewrite app_nil_r. split; [exact Ht | cbn; lia].
Qed.

(** X4.  A submit that passes the guards and ends normally has cleared the
    input and reset the loading flag, and it has done one of two things:
    recorded one turn under the trimmed input and cleared the error, or
    recorded nothing and set an error message (the text typed is then
    gone from the input). *)
Theorem accepted_submit_records_or_reports
  (VITE_API_URL : option jsstring)
  (server : Request.t -> result Response.t) (s : App.state) (rs : list Request.t) :
  Round.accepted s ->
  snd (App.handleSubmit VITE_API_URL server (IO.World rs s)) = IO.Return tt ->
  App.input (IO.state (fst (App.handleSubmit VITE_API_URL server (IO.World rs s)))) = []
  /\ App.loading (IO.state (fst (App.handleSubmit VITE_API_URL server (IO.World rs s)))) =
     false
  /\ ((exists responses,
         App.turns (IO.state (fst (App.handleSubmit VITE_API_URL server (IO.World rs s)))) =
         App.turns s
         ++ [{| App.Turn.user := Js.trim (App.input s);
                App.Turn.responses := responses |}]
         /\ App.error
              (IO.state (fst (App.handleSubmit VITE_API_URL server (IO.World rs s)))) =
            None)
      \/ (App.turns (IO.state (fst (App.handleSubmit VITE_API_URL server (IO.World rs s)))) =
          App.turns s
          /\ exists e,
               App.error
                 (IO.state (fst (App.handleSubmit VITE_API_URL server (IO.World rs s)))) =
               Some (Js.message e))).
Proof.
  intros Hacc Hret.
  destruct (handleSubmit_settles VITE_API_URL server s rs Hacc)
    as (s' & H & _ & Hin & [(_ & Hl & _ & Hd)|(Hu & _)]).
  - rewrite H. cbn [fst IO.state]. auto.
  - rewrite Hret in Hu. discriminate.
Qed.

Lemma accepted_submit_records_or_reports_witness :
  App.input
    (IO.state (fst (App.handleSubmit None Example.offline
                      (IO.World [] Example.second_round)))) = []
  /\ App.loading
       (IO.state (fst (App.handleSubmit None Example.offline
                         (IO.World [] Example.second_round)))) = false
  /\ App.turns
       (IO.state (fst (App.handleSubmit None Example.offline
                         (IO.World [] Example.second_round)))) = Example.one_turn
  /\ App.error
       (IO.state (fst (App.handleSubmit None Example.offline
                         (IO.World [] Example.second_round)))) =
     Some (str "Failed to fetch").
Proof.
  destruct (accepted_submit_records_or_reports None Example.offline
              Example.second_round [])
    as (Hi & Hl & _).
  - repeat split; try reflexivity. discriminate.
  - vm_compute. reflexivity.
  - split; [exact Hi|]. split; [exact Hl|]. split; vm_compute; reflexivity.
Defined.

(** ** Rounds that fail, rounds that succeed *)

(** An accepted submit in batch mode is the guarded batch round run from
    the started state. *)
Lemma handleSubmit_batch (VITE_API_URL : option jsstring)
  (server : Request.t -> result Response.t) (s : App.state) (rs : list Request.t) :
  Round.accepted s -> App.streaming s = false ->
  App.handleSubmit VITE_API_URL server (IO.World rs s) =
  IO.try_catch_finally
    (IO.bind
       (Api.sendDebateRound VITE_API_URL server
          (App.build_messages (App.turns s) (Js.trim (App.input s)))
          (Some (App.selectedModels s)))
       (fun data =>
          match App.as_DebateResponse data with
          | Some r =>
              App.setTurns
                (fun prev =>
                   prev ++ [{| App.Turn.user := Js.trim (App.input s);
                               App.Turn.responses := Api.DebateResponse.responses r |}])
          | None => IO.untyped
          end))
    (fun err => App.setError (Some (Js.message err)))
    (App.setLoading false)
    (IO.World rs (Round.started s)).
Proof.
  intros (Htext & Hload & Hsel) Hstream.
  unfold App.handleSubmit. unfold IO.bind at 1, IO.get. cbn [IO.state].
  rewrite Htext, Hload, Hstream. cbn [negb orb].
  destruct (App.selectedModels s) as [|m ms] eqn:Esel; [contradiction|].
  cbn [length Nat.eqb]. rewrite <- Esel.
  run_setter App.setInput. run_setter App.setError. run_setter App.setLoading.
  reflexivity.
Qed.

(** An accepted submit in stream mode is the guarded streamed round run
    from the started state with an empty lane state. *)
Lemma handleSubmit_stream (VITE_API_URL : option jsstring)
  (server : Request.t -> result Response.t) (s : App.state) (rs : list Request.t) :
  Round.accepted s -> App.streaming s = true ->
  App.handleSubmit VITE_API_URL server (IO.World rs s) =
  IO.try_catch_finally
    (IO.bind
       (Api.sendDebateRoundStream VITE_API_URL server App.onStreamEvent
          (App.build_messages (App.turns s) (Js.trim (App.input s)))
          (Some (App.selectedModels s)))
       (fun _ => IO.modify App.finish))
    (fun err =>
       IO.bind (App.setError (Some (Js.message err)))
         (fun _ => App.setStreamingTurn (fun _ => None)))
    (App.setLoading false)
    (IO.World rs
       (App.with_streamingTurn
          (fun _ => Some (Lanes.opened (Js.trim (App.input s))))
          (Round.started s))).
Proof.
  intros (Htext & Hload & Hsel) Hstream.
  unfold App.handleSubmit. unfold IO.bind at 1, IO.get. cbn [IO.state].
  rewrite Htext, Hload, Hstream. cbn [negb orb].
  destruct (App.selectedModels s) as [|m ms] eqn:Esel; [contradiction|].
  cbn [length Nat.eqb]. rewrite <- Esel.
  run_setter App.setInput. run_setter App.setError. run_setter App.setLoading.
  run_setter App.setStreamingTurn. reflexivity.
Qed.

(** A streamed round that throws leaves nothing of the turn. *)
Lemma handleSubmit_stream_raise (VITE_API_URL : option jsstring)
  (server : Request.t -> result Response.t) (s : App.state) (rs : list Request.t)
  (w' : IO.world App.state) (e : exn) :
  Round.accepted s -> App.streaming s = true ->
  Api.sendDebateRoundStream VITE_API_URL server App.onStreamEvent
    (App.build_messages (App.turns s) (Js.trim (App.input s)))
    (Some (App.selectedModels s))
    (IO.World rs
       (App.with_streamingTurn
          (fun _ => Some (Lanes.opened (Js.trim (App.input s))))
          (Round.started s))) = (w', IO.Raise e) ->
  App.handleSubmit VITE_API_URL server (IO.World rs s) =
  (IO.World (rs ++ [Round.request VITE_API_URL s]) (Round.failed s (Js.message e)),
   IO.Return tt).
Proof.
  intros Hacc Hstream Hrun.
  rewrite (handleSubmit_stream _ _ _ _ Hacc Hstream).
  destruct (stream_lane VITE_API_URL server
              (App.build_messages (App.turns s) (Js.trim (App.input s)))
              (Some (App.selectedModels s))
              (Lanes.opened (Js.trim (App.input s))) (Round.started s) rs)
    as (st' & Hfst & _).
  rewrite Hrun in Hfst. cbn [fst] in Hfst. subst w'.
  unfold IO.try_catch_finally, IO.try_catch, IO.bind at 1. rewrite Hrun.
  unfold Round.request, Conversation.path, Round.failed. rewrite Hstream.
  unfold IO.bind, App.setError, App.setStreamingTurn, App.setLoading, IO.modify,
    Round.started.
  cbn [IO.requests IO.state].
  unfold App.with_streamingTurn, App.with_loading, App.with_error, App.with_input.
  cbn [App.turns App.input App.loading App.streaming App.streamingTurn
       App.error App.availableModels App.selectedModels App.showModelSelector].
  rewrite ?Hstream. reflexivity.
Qed.

(** A batch round that throws leaves the history as it was. *)
Lemma handleSubmit_batch_raise (VITE_API_URL : option jsstring)
  (server : Request.t -> result Response.t) (s : App.state) (rs : list Request.t)
  (e : exn) :
  Round.accepted s -> App.streaming s = false ->
  snd (Api.sendDebateRound VITE_API_URL server
         (App.build_messages (App.turns s) (Js.trim (App.input s)))
         (Some (App.selectedModels s)) (IO.World rs (Round.started s))) = IO.Raise e ->
  App.handleSubmit VITE_API_URL server (IO.World rs s) =
  (IO.World (rs ++ [Round.request VITE_API_URL s]) (Round.failed s (Js.message e)),
   IO.Return tt).
Proof.
  intros Hacc Hstream Hrun.
  rewrite (handleSubmit_batch _ _ _ _ Hacc Hstream).
  pose proof (sendDebateRound_requests VITE_API_URL server
                (App.build_messages (App.turns s) (Js.trim (App.input s)))
                (Some (App.selectedModels s)) (IO.World rs (Round.started s))) as Hfst.
  unfold IO.try_catch_finally, IO.try_catch, IO.bind at 1.
  destruct (Api.sendDebateRound _ _ _ _ _) as [w2 out].
  cbn [fst snd IO.requests IO.state] in *. subst w2 out.
  unfold Round.request, Conversation.path, Round.failed. rewrite Hstream.
  unfold IO.bind, App.setError, App.setLoading, IO.modify, Round.started.
  cbn [IO.requests IO.state].
  unfold App.with_streamingTurn, App.with_loading, App.with_error, App.with_input.
  cbn [App.turns App.input App.loading App.streaming App.streamingTurn
       App.error App.availableModels App.selectedModels App.showModelSelector].
  rewrite ?Hstream. reflexivity.
Qed.

(** X5.  When the server cannot be reached, an accepted submit, in either
    mode, logs its request, records no turn, clears the input, drops the
    lane state, resets the loading flag and shows the message of the
    exception of [fetch]. *)
Theorem unreachable_server_is_reported
  (VITE_API_URL : option jsstring)
  (server : Request.t -> result Response.t) (s : App.state) (rs : list Request.t)
  (e : exn) :
  Round.accepted s ->
  server (Round.request VITE_API_URL s) = Throw e ->
  App.handleSubmit VITE_API_URL server (IO.World rs s) =
  (IO.World (rs ++ [Round.request VITE_API_URL s]) (Round.failed s (Js.message e)),
   IO.Return tt).
Proof.
  intros Hacc Hs. unfold Round.request, Conversation.path in Hs.
  destruct (App.streaming s) eqn:Hstream.
  - eapply handleSubmit_stream_raise; try assumption.
    unfold Api.sendDebateRoundStream, IO.bind at 1, IO.fetch.
    fold (Stream.post VITE_API_URL (str "/debate/stream")
            (App.build_messages (App.turns s) (Js.trim (App.input s)))
            (Some (App.selectedModels s))).
    rewrite Hs. reflexivity.
  - apply handleSubmit_batch_raise; try assumption.
    unfold Api.sendDebateRound, IO.bind at 1, IO.fetch.
    fold (Stream.post VITE_API_URL (str "/debate")
            (App.build_messages (App.turns s) (Js.trim (App.input s)))
            (Some (App.selectedModels s))).
    rewrite Hs. reflexivity.
Qed.

Lemma unreachable_server_is_reported_witness :
  App.handleSubmit None Example.offline (IO.World [] (Example.ready " hi " true [str "A"])) =
  (IO.World
     [Stream.post None (str "/debate/stream") [Conversation.user_says (str "hi")]
        (Some [str "A"])]
     {| App.turns := []; App.input := []; App.loading := false;
        App.streaming := true; App.streamingTurn := None;
        App.error := Some (str "Failed to fetch");
        App.availableModels := [str "A"]; App.selectedModels := [str "A"];
        App.showModelSelector := false |},
   IO.Return tt).
Proof.
  rewrite (unreachable_server_is_reported None Example.offline
             (Example.ready " hi " true [str "A"]) []
             (TypeError (str "Failed to fetch"))).
  - vm_compute. reflexivity.
  - repeat split; try reflexivity. discriminate.
  - reflexivity.
Defined.

(** X6.  When the connection fails in the middle of a stream, the deltas
    and errors received so far are thrown away: no turn is recorded, the
    lane state is dropped and the message of the failure is shown,
    whatever events had arrived. *)
Theorem broken_stream_discards_partial_content
  (VITE_API_URL : option jsstring)
  (server : Request.t -> result Response.t) (s : App.state) (rs : list Request.t)
  (res : Response.t) (b : Response.stream) (e : exn)
  (evs : list Api.StreamEvent.t) :
  Round.accepted s ->
  App.streaming s = true ->
  server (Round.request VITE_API_URL s) = Ok res ->
  Response.ok res = true ->
  Response.body res = Some b ->
  Response.failure b = Some e ->
  App.all_some App.as_StreamEvent
    (Stream.events_of (Stream.text_of (concat (Response.chunks b)))) = Some evs ->
  App.handleSubmit VITE_API_URL server (IO.World rs s) =
  (IO.World (rs ++ [Round.request VITE_API_URL s]) (Round.failed s (Js.message e)),
   IO.Return tt).
Proof.
  intros Hacc Hstream Hs Hok Hb Hf Hev.
  unfold Round.request, Conversation.path in Hs. rewrite Hstream in Hs.
  eapply handleSubmit_stream_raise; try assumption.
  rewrite (sendDebateRoundStream_run _ _ _ _ _ res b _ Hs Hok Hb), Hf.
  unfold IO.bind. rewrite (deliver_typed _ evs _ Hev). reflexivity.
Qed.

Lemma broken_stream_discards_partial_content_witness :
  Stream.events_of
    (Stream.text_of (Example.lit "data: {'model_id':'A','delta':'He'}~")) =
  [Example.delta_event "A" "He"]
  /\ App.handleSubmit None (Example.serve Example.broken_stream)
       (IO.World [] (Example.ready "hi" true [str "A"])) =
     (IO.World
        [Stream.post None (str "/debate/stream") [Conversation.user_says (str "hi")]
           (Some [str "A"])]
        {| App.turns := []; App.input := []; App.loading := false;
           App.streaming := true; App.streamingTurn := None;
           App.error := Some (str "network error");
           App.availableModels := [str "A"]; App.selectedModels := [str "A"];
           App.showModelSelector := false |},
      IO.Return tt).
Proof.
  split; [vm_compute; reflexivity|].
  rewrite (broken_stream_discards_partial_content None
             (Example.serve Example.broken_stream)
             (Example.ready "hi" true [str "A"]) [] Example.broken_stream
             {| Response.chunks := [Example.lit "data: {'model_id':'A','delta':'He'}~"];
                Response.failure := Some (TypeError (str "network error")) |}
             (TypeError (str "network error"))
             [Lanes.Delta (str "A") (str "He")]);
    try (vm_compute; reflexivity).
  repeat split; try reflexivity. discriminate.
Defined.



(** X8.  A batch round that the server answers with a success status and
    a body of the declared type records one turn: the trimmed input and
    the responses of the body, all of them and in the order of the body,
    failed ones included; the error is cleared. *)
Theorem batch_round_records_server_responses
  (VITE_API_URL : option jsstring)
  (server : Request.t -> result Response.t) (s : App.state) (rs : list Request.t)
  (res : Response.t) (data : JSON.value) (r : Api.DebateResponse.t) :
  Round.accepted s ->
  App.streaming s = false ->
  server (Round.request VITE_API_URL s) = Ok res ->
  Response.ok res = true ->
  Response.json res = Ok data ->
  App.as_DebateResponse data = Some r ->
  App.handleSubmit VITE_API_URL server (IO.World rs s) =
  (IO.World (rs ++ [Round.request VITE_API_URL s])
     (Round.recorded s (Api.DebateResponse.responses r)),
   IO.Return tt).
Proof.
  intros Hacc Hstream Hs Hok Hj Hr.
  unfold Round.request, Conversation.path in *. rewrite Hstream in *.
  rewrite (handleSubmit_batch _ _ _ _ Hacc Hstream).
  unfold IO.try_catch_finally, IO.try_catch, IO.bind at 1.
  unfold Api.sendDebateRound, IO.bind at 1, IO.fetch.
  fold (Stream.post VITE_API_URL (str "/debate")
          (App.build_messages (App.turns s) (Js.trim (App.input s)))
          (Some (App.selectedModels s))).
  rewrite Hs, Hok. cbn [negb]. rewrite Hj. cbn [IO.lift IO.ret]. rewrite Hr.
  unfold App.setTurns, App.setLoading, IO.modify, Round.started, Round.recorded.
  cbn [IO.requests IO.state].
  unfold App.with_turns, App.with_loading, App.with_error, App.with_input.
  cbn [App.turns App.input App.loading App.streaming App.streamingTurn
       App.error App.availableModels App.selectedModels App.showModelSelector].
  rewrite ?Hstream. reflexivity.
Qed.

Lemma batch_round_records_server_responses_witness :
  App.turns
    (IO.state
       (fst (App.handleSubmit None (Example.serve Example.batch_answer)
               (IO.World [] Example.second_round)))) =
  Example.one_turn
  ++ [{| App.Turn.user := str "next";
         App.Turn.responses :=
           [{| Api.ProviderResponse.provider_id := str "chatgpt";
               Api.ProviderResponse.content := str "ok";
               Api.ProviderResponse.error := None |};
            {| Api.ProviderResponse.provider_id := str "gemini";
               Api.ProviderResponse.content := [];
               Api.ProviderResponse.error := Some (str "timeout") |}] |}].
Proof.
  rewrite (batch_round_records_server_responses None
             (Example.serve Example.batch_answer) Example.second_round []
             Example.batch_answer
             (JSON.JObj
                [(str "responses",
                  JSON.JArr
                    [JSON.JObj [(str "provider_id", JSON.JStr (str "chatgpt"));
                                (str "content", JSON.JStr (str "ok"));
                                (str "error", JSON.JNull)];
                     JSON.JObj [(str "provider_id", JSON.JStr (str "gemini"));
                                (str "content", JSON.JStr []);
                                (str "error", JSON.JStr (str "timeout"))]])])
             {| Api.DebateResponse.responses :=
                  [{| Api.ProviderResponse.provider_id := str "chatgpt";
                      Api.ProviderResponse.content := str "ok";
                      Api.ProviderResponse.error := None |};
                   {| Api.ProviderResponse.provider_id := str "gemini";
                      Api.ProviderResponse.content := [];
                      Api.ProviderResponse.error := Some (str "timeout") |}] |});
    try (vm_compute; reflexivity).
  repeat split; try reflexivity. discriminate.
Defined.

(** ** The conversation from round to round *)

(** X9.  The conversation grows by extension: after a round has recorded
    its turn, the conversation a next submit builds is the conversation
    that round sent, followed by the answers kept from its responses (a
    content, no error, behind the label), followed by the new message. *)
Theorem next_conversation_extends_the_last
  (s : App.state) (responses : list Api.ProviderResponse.t) (text : jsstring) :
  App.build_messages (App.turns (Round.recorded s responses)) text =
  App.build_messages (App.turns s) (Js.trim (App.input s))
  ++ Conversation.answers responses
  ++ [Conversation.user_says text].
Proof.
  unfold App.build_messages, Round.recorded. cbn [App.turns].
  rewrite flat_map_app. cbn [flat_map]. rewrite app_nil_r.
  unfold App.turnMessages at 2. cbn [App.Turn.user App.Turn.responses].
  rewrite answers_filter_map, <- !app_assoc. reflexivity.
Qed.

(** X10.  What goes to the models is what the user sees as content: for
    a turn none of whose responses bears a name of [Object.prototype],
    the messages of the turn are its user message and, for every
    response whose card shows a content that is not the placeholder, one
    assistant message made of the label of the card and the content
    shown.  A response whose card shows the error paragraph or the dash
    gives no message. *)
Theorem forwarded_answers_are_the_shown_contents (t : App.Turn.t) :
  forallb (fun r => negb (Dict.inherited (Api.ProviderResponse.provider_id r)))
    (App.Turn.responses t) = true ->
  App.turnMessages t =
  Conversation.user_says (App.Turn.user t)
  :: flat_map
       (fun r =>
          match App.body (App.responseCard r) with
          | App.ShownContent c =>
              if Js.truthy (Api.ProviderResponse.content r)
              then [Conversation.assistant_says
                      (str "Model " ++ App.label (App.responseCard r) ++ str ": " ++ c)]
              else []
          | App.ShownError _ => []
          end)
       (App.Turn.responses t).
Proof.
  intros Hplain. unfold App.turnMessages. f_equal.
  induction (App.Turn.responses t) as [|r rs IH]; [reflexivity|].
  cbn [forallb] in Hplain. apply andb_true_iff in Hplain as [Hr Hrs].
  apply negb_true_iff in Hr.
  cbn [filter flat_map]. rewrite <- (IH Hrs). clear IH.
  unfold App.responseCard, App.shownLabel. cbn [App.body App.label]. rewrite Hr.
  destruct (Api.ProviderResponse.content r) as [|c cs] eqn:Ec; cbn [Js.truthy andb].
  - destruct (Api.ProviderResponse.error r) as [[|e es]|]; reflexivity.
  - destruct (Api.ProviderResponse.error r) as [[|e es]|];
      cbn [App.error_truthy Js.truthy negb map app]; rewrite ?Ec; reflexivity.
Qed.

Lemma forwarded_answers_are_the_shown_contents_witness :
  App.turnMessages
    {| App.Turn.user := str "hi";
       App.Turn.responses :=
         [{| Api.ProviderResponse.provider_id := str "chatgpt";
             Api.ProviderResponse.content := str "yo";
             Api.ProviderResponse.error := None |};
          {| Api.ProviderResponse.provider_id := str "gemini";
             Api.ProviderResponse.content := [];
             Api.ProviderResponse.error := Some (str "timeout") |}] |} =
  [Conversation.user_says (str "hi");
   Conversation.assistant_says (str "Model ChatGPT: yo")].
Proof.
  rewrite (forwarded_answers_are_the_shown_contents
             {| App.Turn.user := str "hi";
                App.Turn.responses :=
                  [{| Api.ProviderResponse.provider_id := str "chatgpt";
                      Api.ProviderResponse.content := str "yo";
                      Api.ProviderResponse.error := None |};
                   {| Api.ProviderResponse.provider_id := str "gemini";
                      Api.ProviderResponse.content := [];
                      Api.ProviderResponse.error := Some (str "timeout") |}] |}
             eq_refl).
  reflexivity.
Defined.

(** ** Values in the order of their first occurrence *)

Lemma existsb_eqb (x : jsstring) (l : list jsstring) :
  existsb (Js.eqb x) l = true <-> In x l.
Proof.
  rewrite existsb_exists. split.
  - intros (y & Hy & E). apply eqb_eq in E. now subst.
  - intros H. exists x. split; [assumption | apply eqb_refl].
Qed.

Lemma existsb_eqb_false (x : jsstring) (l : list jsstring) :
  existsb (Js.eqb x) l = false <-> ~ In x l.
Proof.
  rewrite <- existsb_eqb. destruct (existsb (Js.eqb x) l); intuition congruence.
Qed.

Lemma distinct_from_ext (l : list jsstring) :
  forall s1 s2 : list jsstring,
  (forall y, In y s1 <-> In y s2) ->
  Seq.distinct_from s1 l = Seq.distinct_from s2 l.
Proof.
  induction l as [|x l IH]; intros s1 s2 H; cbn [Seq.distinct_from]; [reflexivity|].
  assert (E : existsb (Js.eqb x) s1 = existsb (Js.eqb x) s2).
  { destruct (existsb (Js.eqb x) s2) eqn:E2.
    - apply existsb_eqb. apply H. now apply existsb_eqb.
    - apply existsb_eqb_false. rewrite H. now apply existsb_eqb_false. }
  rewrite E. destruct (existsb (Js.eqb x) s2).
  - now apply IH.
  - f_equal. apply IH. intros y. rewrite !in_app_iff, H. tauto.
Qed.

Lemma in_distinct_from (l : list jsstring) :
  forall (seen : list jsstring) (y : jsstring),
  In y (Seq.distinct_from seen l) <-> In y l /\ ~ In y seen.
Proof.
  induction l as [|x l IH]; intros seen y; cbn [Seq.distinct_from In]; [tauto|].
  destruct (existsb (Js.eqb x) seen) eqn:E.
  - apply existsb_eqb in E. rewrite IH. intuition congruence.
  - apply existsb_eqb_false in E. cbn [In]. rewrite IH, in_app_iff. cbn [In].
    destruct (Js.eqb x y) eqn:Exy.
    + apply eqb_eq in Exy. subst y. tauto.
    + apply eqb_neq in Exy. tauto.
Qed.

Lemma NoDup_distinct_from (l : list jsstring) :
  forall seen : list jsstring, NoDup (Seq.distinct_from seen l).
Proof.
  induction l as [|x l IH]; intros seen; cbn [Seq.distinct_from]; [constructor|].
  destruct (existsb (Js.eqb x) seen); [apply IH|].
  constructor; [|apply IH].
  rewrite in_distinct_from, in_app_iff. cbn [In]. tauto.
Qed.

Lemma distinct_from_app (a b : list jsstring) :
  forall seen : list jsstring,
  Seq.distinct_from seen (a ++ b) =
  Seq.distinct_from seen a
  ++ Seq.distinct_from (seen ++ Seq.distinct_from seen a) b.
Proof.
  induction a as [|x a IH]; intros seen; cbn [Seq.distinct_from app].
  - now rewrite app_nil_r.
  - destruct (existsb (Js.eqb x) seen); [apply IH|].
    rewrite IH, <- app_assoc. reflexivity.
Qed.

Lemma distinct_from_NoDup (l : list jsstring) :
  forall seen : list jsstring,
  NoDup l -> (forall x, In x l -> ~ In x seen) ->
  Seq.distinct_from seen l = l.
Proof.
  induction l as [|x l IH]; intros seen Hnd Hseen; cbn [Seq.distinct_from];
    [reflexivity|].
  inversion Hnd as [|? ? Hx Hl]; subst.
  replace (existsb (Js.eqb x) seen) with false
    by (symmetry; apply existsb_eqb_false, Hseen; now left).
  f_equal. apply IH; [assumption|].
  intros y Hy. rewrite in_app_iff. cbn [In]. intros [H|[<-|[]]]; [|contradiction].
  apply (Hseen y); [now right | assumption].
Qed.

(** [indexOf] finds the first occurrence. *)
Lemma indexOf_In (v : jsstring) (a : list jsstring) :
  match App.indexOf v a with
  | Some i => (i < length a)%nat /\ In v a
  | None => ~ In v a
  end.
Proof.
  induction a as [|x a IH]; cbn [App.indexOf In length]; [tauto|].
  destruct (Js.eqb x v) eqn:E.
  - apply eqb_eq in E. split; [lia | now left].
  - apply eqb_neq in E. destruct (App.indexOf v a) as [i|].
    + split; [lia | tauto].
    + tauto.
Qed.

Lemma indexOf_app (v : jsstring) (a b : list jsstring) :
  App.indexOf v (a ++ b) =
  match App.indexOf v a with
  | Some i => Some i
  | None => option_map (fun j => (length a + j)%nat) (App.indexOf v b)
  end.
Proof.
  induction a as [|x a IH]; cbn [App.indexOf app length].
  - destruct (App.indexOf v b); reflexivity.
  - destruct (Js.eqb x v); [reflexivity|].
    rewrite IH. destruct (App.indexOf v a); [reflexivity|].
    destruct (App.indexOf v b); reflexivity.
Qed.

(** Keeping the values found at their own index keeps the first
    occurrences. *)
Lemma filter_first_occurrences (a suf : list jsstring) :
  forall pre : list jsstring,
  a = pre ++ suf ->
  App.filter_from
    (fun v i => match App.indexOf v a with
                | Some j => Nat.eqb j i
                | None => false
                end) (length pre) suf =
  Seq.distinct_from pre suf.
Proof.
  induction suf as [|x suf IH]; intros pre Ha;
    cbn [App.filter_from Seq.distinct_from]; [reflexivity|].
  assert (Ha' : a = (pre ++ [x]) ++ suf) by now rewrite <- app_assoc.
  specialize (IH (pre ++ [x]) Ha'). rewrite length_app in IH. cbn [length] in IH.
  replace (length pre + 1)%nat with (S (length pre)) in IH by lia.
  rewrite IH. rewrite Ha at 1. rewrite indexOf_app.
  pose proof (indexOf_In x pre) as Hpre.
  destruct (App.indexOf x pre) as [j|].
  - destruct Hpre as [Hj Hin].
    replace (Nat.eqb j (length pre)) with false by (symmetry; apply Nat.eqb_neq; lia).
    replace (existsb (Js.eqb x) pre) with true by (symmetry; now apply existsb_eqb).
    apply distinct_from_ext. intros y. rewrite in_app_iff. cbn [In].
    intuition congruence.
  - cbn [App.indexOf]. rewrite eqb_refl. cbn [option_map].
    replace (Nat.eqb (length pre + 0)%nat (length pre)) with true
      by (symmetry; apply Nat.eqb_eq; lia).
    replace (existsb (Js.eqb x) pre) with false
      by (symmetry; now apply existsb_eqb_false).
    reflexivity.
Qed.

Lemma streamingLanes_distinct (st : App.StreamingTurn.t) :
  App.streamingLanes st =
  Seq.distinct (Dict.keys (App.StreamingTurn.content st)
                ++ Dict.keys (App.StreamingTurn.errors st)).
Proof.
  unfold App.streamingLanes, Seq.distinct. cbn zeta.
  apply (filter_first_occurrences _ _ []). reflexivity.
Qed.

Lemma new_Set_distinct (items : list jsstring) :
  App.new_Set items = Seq.distinct items.
Proof.
  unfold App.new_Set, Seq.distinct.
  enough (H : forall seen, fold_left (fun set x => App.Set_add x set) items seen =
                           seen ++ Seq.distinct_from seen items) by apply (H []).
  induction items as [|x items IH]; intros seen; cbn [fold_left Seq.distinct_from].
  - now rewrite app_nil_r.
  - rewrite IH. unfold App.Set_add. destruct (existsb (Js.eqb x) seen); [reflexivity|].
    now rewrite <- app_assoc.
Qed.

Lemma assemble_names (st : App.StreamingTurn.t) :
  NoDup (Dict.keys (App.StreamingTurn.content st)) ->
  map Api.ProviderResponse.provider_id (App.assemble st) = App.streamingLanes st.
Proof.
  intros Hnd. rewrite streamingLanes_distinct. unfold Seq.distinct.
  rewrite distinct_from_app.
  rewrite (distinct_from_NoDup _ [] Hnd) by (intros; easy).
  cbn [app]. unfold App.assemble, Dict.entries.
  set (first := map _ (App.StreamingTurn.content st)).
  assert (Hfirst : map Api.ProviderResponse.provider_id first =
                   Dict.keys (App.StreamingTurn.content st)).
  { unfold first, Dict.keys. rewrite map_map. reflexivity. }
  rewrite <- Hfirst. generalize first. clear.
  induction (Dict.keys (App.StreamingTurn.errors st)) as [|k ks IH];
    intros rs; cbn [fold_left Seq.distinct_from].
  - now rewrite app_nil_r.
  - destruct (existsb (fun r => Js.eqb (Api.ProviderResponse.provider_id r) k) rs) eqn:E.
    + apply existsb_provider in E.
      replace (existsb (Js.eqb k) (map Api.ProviderResponse.provider_id rs)) with true
        by (symmetry; now apply existsb_eqb).
      apply IH.
    + assert (Hk : ~ In k (map Api.ProviderResponse.provider_id rs)).
      { intros H. apply existsb_provider in H. congruence. }
      replace (existsb (Js.eqb k) (map Api.ProviderResponse.provider_id rs)) with false
        by (symmetry; now apply existsb_eqb_false).
      rewrite IH, map_app, <- app_assoc. reflexivity.
Qed.

(** ** The cards of a round *)

(** X11.  While a round streams, every provider that has a content or an
    error so far has exactly one card: the names of the cards are the
    names of the two dictionaries, and no name comes twice (the name is
    the React key of the card). *)
Theorem streaming_lanes_one_card_per_provider (st : App.StreamingTurn.t) :
  NoDup (App.streamingLanes st)
  /\ forall id,
       In id (App.streamingLanes st) <->
       In id (Dict.keys (App.StreamingTurn.content st))
       \/ In id (Dict.keys (App.StreamingTurn.errors st)).
Proof.
  rewrite streamingLanes_distinct. unfold Seq.distinct. split.
  - apply NoDup_distinct_from.
  - intros id. rewrite in_distinct_from, in_app_iff. cbn [In]. tauto.
Qed.

(** X12.  The turn recorded after a stream shows what the lanes showed
    last: for the lane state reached by any events from the opened state,
    the cards of the streaming turn (name, label, colour, error paragraph
    or content) are, in the same order, the cards of the responses
    assembled from that state. *)
Theorem recorded_cards_are_the_last_streamed_cards
  (user : jsstring) (evs : list Api.StreamEvent.t) (st : App.StreamingTurn.t) :
  Lanes.run_events evs (Some (Lanes.opened user)) = Some st ->
  map (App.streamingCard st) (App.streamingLanes st) =
  map App.responseCard (App.assemble st).
Proof.
  intros Hrun.
  assert (Hwf : Lanes.well_formed st).
  { apply (run_events_well_formed evs _ _ Hrun (opened_well_formed user)). }
  rewrite <- (assemble_names st (proj1 Hwf)), map_map. apply map_ext_in.
  intros r Hr.
  destruct (assemble_entries st Hwf) as (_ & _ & Hin).
  destruct (Hin r Hr) as (He & Hc). clear Hin.
  set (id := Api.ProviderResponse.provider_id r) in *.
  unfold App.streamingCard, App.responseCard. fold id. rewrite <- He. f_equal.
  destruct Hc as [(Hg & Hne)|(Hnil & _ & e & Hg & Hne)].
  - rewrite (read_own _ _ _ Hg).
    destruct (Api.ProviderResponse.content r) as [|c cs]; [congruence|].
    reflexivity.
  - rewrite He, (read_own _ _ _ Hg). destruct e as [|c cs]; [congruence|].
    reflexivity.
Qed.

Lemma recorded_cards_are_the_last_streamed_cards_witness :
  exists st,
    Lanes.run_events
      [Lanes.Delta (str "A") (str "He"); Lanes.Failed (str "grok") (str "boom");
       Lanes.Delta (str "A") (str "llo")]
      (Some (Lanes.opened (str "hi"))) = Some st
    /\ map (App.streamingCard st) (App.streamingLanes st) =
       map App.responseCard (App.assemble st)
    /\ map App.responseCard (App.assemble st) =
       [{| App.key := str "A"; App.label := str "A";
           App.color := str "var(--muted)";
           App.body := App.ShownContent (str "Hello") |};
        {| App.key := str "grok"; App.label := str "Grok";
           App.color := str "var(--grok)";
           App.body := App.ShownError (str "boom") |}].
Proof.
  eexists. split; [reflexivity|]. split.
  - apply (recorded_cards_are_the_last_streamed_cards (str "hi")
             [Lanes.Delta (str "A") (str "He"); Lanes.Failed (str "grok") (str "boom");
              Lanes.Delta (str "A") (str "llo")]).
    reflexivity.
  - vm_compute. reflexivity.
Defined.

(** ** The selection of models *)

Lemma toggled_step (m : jsstring) (sel : list jsstring) :
  NoDup sel ->
  let sel' := if existsb (Js.eqb m) sel
              then filter (fun x => negb (Js.eqb m x)) sel
              else sel ++ [m] in
  NoDup sel'
  /\ (In m sel' <-> ~ In m sel)
  /\ (forall x, x <> m -> In x sel' <-> In x sel)
  /\ (length sel' + (if existsb (Js.eqb m) sel then 1 else 0) =
      length sel + (if existsb (Js.eqb m) sel then 0 else 1))%nat.
Proof.
  intros Hnd. cbn zeta. destruct (existsb (Js.eqb m) sel) eqn:E.
  - apply existsb_eqb in E. split; [|split; [|split]].
    + now apply NoDup_filter.
    + split; [|tauto].
      intros H. apply filter_In in H as [_ H]. now rewrite eqb_refl in H.
    + intros x Hx. rewrite filter_In. split; [tauto|].
      intros H. split; [assumption|].
      apply negb_true_iff, eqb_neq. congruence.
    + clear - Hnd E. induction sel as [|y sel IH]; [easy|].
      inversion Hnd as [|? ? Hy Hsel]; subst. cbn [filter length].
      destruct (Js.eqb m y) eqn:Ey; cbn [negb length].
      * apply eqb_eq in Ey. subst y.
        replace (filter (fun x => negb (Js.eqb m x)) sel) with sel; [lia|].
        symmetry. apply forallb_filter_id, forallb_forall. intros x Hx.
        apply negb_true_iff, eqb_neq. congruence.
      * apply eqb_neq in Ey. destruct E as [E|E]; [congruence|].
        specialize (IH Hsel E). lia.
  - apply existsb_eqb_false in E. split; [|split; [|split]].
    + apply NoDup_app; [assumption | repeat constructor; easy |].
      intros x Hx [<-|[]]. contradiction.
    + rewrite in_app_iff. cbn [In]. tauto.
    + intros x Hx. rewrite in_app_iff. cbn [In]. intuition congruence.
    + rewrite length_app. cbn [length]. lia.
Qed.

(** X13.  Toggling the box of a model flips the membership of that model
    in the selection and of no other; the selection keeps holding each
    model once, and its size moves by one. *)
Theorem toggleModel_flips_one_model (m : jsstring) (s : App.state) :
  NoDup (App.selectedModels s) ->
  NoDup (Round.toggled m s)
  /\ (In m (Round.toggled m s) <-> ~ In m (App.selectedModels s))
  /\ (forall x, x <> m ->
        In x (Round.toggled m s) <-> In x (App.selectedModels s))
  /\ (length (Round.toggled m s)
      + (if existsb (Js.eqb m) (App.selectedModels s) then 1 else 0) =
      length (App.selectedModels s)
      + (if existsb (Js.eqb m) (App.selectedModels s) then 0 else 1))%nat.
Proof.
  intros Hnd. apply (toggled_step m (App.selectedModels s) Hnd).
Qed.

Lemma toggleModel_flips_one_model_witness :
  NoDup (App.selectedModels (Example.ready "hi" true [str "A"; str "B"]))
  /\ Round.toggled (str "A") (Example.ready "hi" true [str "A"; str "B"]) = [str "B"]
  /\ (In (str "A") (Round.toggled (str "A") (Example.ready "hi" true [str "A"; str "B"]))
      <-> ~ In (str "A") (App.selectedModels (Example.ready "hi" true [str "A"; str "B"]))).
Proof.
  assert (H : NoDup (App.selectedModels (Example.ready "hi" true [str "A"; str "B"]))).
  { repeat constructor; cbn; intuition discriminate. }
  split; [exact H|]. split; [reflexivity|].
  exact (proj1 (proj2 (toggleModel_flips_one_model (str "A")
                         (Example.ready "hi" true [str "A"; str "B"]) H))).
Defined.

(** X14.  Toggling the same box twice gives the selection back: the same
    models, as many, each once; when the model was not selected before,
    the very same selection in the same order. *)
Theorem toggleModel_twice_restores_selection (m : jsstring) (s : App.state) :
  NoDup (App.selectedModels s) ->
  let s1 := IO.state (fst (App.toggleModel m (IO.World [] s))) in
  NoDup (Round.toggled m s1)
  /\ (forall x, In x (Round.toggled m s1) <-> In x (App.selectedModels s))
  /\ length (Round.toggled m s1) = length (App.selectedModels s)
  /\ (existsb (Js.eqb m) (App.selectedModels s) = false ->
      Round.toggled m s1 = App.selectedModels s).
Proof.
  intros Hnd. cbn zeta.
  destruct (toggled_step m (App.selectedModels s) Hnd) as (Hnd1 & Hm1 & Hx1 & Hl1).
  cbn zeta in *.
  set (s1 := IO.state (fst (App.toggleModel m (IO.World [] s)))).
  assert (Es1 : App.selectedModels s1 =
                if existsb (Js.eqb m) (App.selectedModels s)
                then filter (fun x => negb (Js.eqb m x)) (App.selectedModels s)
                else App.selectedModels s ++ [m]) by reflexivity.
  rewrite <- Es1 in Hnd1, Hm1, Hx1, Hl1.
  destruct (toggled_step m (App.selectedModels s1) Hnd1) as (Hnd2 & Hm2 & Hx2 & Hl2).
  cbn zeta in *.
  change (if existsb (Js.eqb m) (App.selectedModels s1)
          then filter (fun x => negb (Js.eqb m x)) (App.selectedModels s1)
          else App.selectedModels s1 ++ [m])
    with (Round.toggled m s1) in *.
  split; [exact Hnd2|]. split; [|split].
  - intros x. destruct (Js.eqb x m) eqn:E.
    + apply eqb_eq in E. subst x. rewrite Hm2, Hm1.
      destruct (existsb (Js.eqb m) (App.selectedModels s)) eqn:Em.
      * apply existsb_eqb in Em. tauto.
      * apply existsb_eqb_false in Em. tauto.
    + apply eqb_neq in E. rewrite (Hx2 x E). apply (Hx1 x E).
  - destruct (existsb (Js.eqb m) (App.selectedModels s)) eqn:Em.
    + replace (existsb (Js.eqb m) (App.selectedModels s1)) with false in Hl2; [lia|].
      symmetry. apply existsb_eqb_false. apply existsb_eqb in Em. tauto.
    + replace (existsb (Js.eqb m) (App.selectedModels s1)) with true in Hl2; [lia|].
      symmetry. apply existsb_eqb. apply existsb_eqb_false in Em. tauto.
  - intros Em. unfold Round.toggled. cbn [App.toggleModel]. 
    change (App.selectedModels
              (IO.state (fst (App.toggleModel m (IO.World [] s1)))))
      with (if existsb (Js.eqb m) (App.selectedModels s1)
            then filter (fun x => negb (Js.eqb m x)) (App.selectedModels s1)
            else App.selectedModels s1 ++ [m]).
    rewrite Es1, Em.
    replace (existsb (Js.eqb m) (App.selectedModels s ++ [m])) with true
      by (symmetry; apply existsb_eqb, in_app_iff; right; now left).
    rewrite filter_app. cbn [filter]. rewrite eqb_refl. cbn [negb].
    rewrite app_nil_r. apply forallb_filter_id, forallb_forall. intros x Hx.
    apply negb_true_iff, eqb_neq. apply existsb_eqb_false in Em. congruence.
Qed.

Lemma toggleModel_twice_restores_selection_witness :
  NoDup (App.selectedModels (Example.ready "hi" true [str "A"; str "B"]))
  /\ Round.toggled (str "A")
       (IO.state (fst (App.toggleModel (str "A")
                         (IO.World [] (Example.ready "hi" true [str "A"; str "B"]))))) =
     [str "B"; str "A"]
  /\ length (Round.toggled (str "A")
               (IO.state (fst (App.toggleModel (str "A")
                                 (IO.World [] (Example.ready "hi" true [str "A"; str "B"])))))) =
     length (App.selectedModels (Example.ready "hi" true [str "A"; str "B"])).
Proof.
  assert (H : NoDup (App.selectedModels (Example.ready "hi" true [str "A"; str "B"]))).
  { repeat constructor; cbn; intuition discriminate. }
  split; [exact H|]. split; [reflexivity|].
  exact (proj1 (proj2 (proj2 (toggleModel_twice_restores_selection (str "A")
                                (Example.ready "hi" true [str "A"; str "B"]) H)))).
Defined.

Lemma length_distinct_zero (l : list jsstring) :
  Nat.eqb (length (Seq.distinct l)) 0 = Nat.eqb (length l) 0.
Proof. destruct l; reflexivity. Qed.

(** X15.  The button All selects the available models, each once and no
    other, so that afterwards the submit button is disabled only while a
    round is in flight, on a blank input, or when no model is available.
    The button None leaves no model selected, which disables the submit
    button. *)
Theorem selectAll_selects_the_available_models (s : App.state) (rs : list Request.t) :
  let s' := IO.state (fst (App.selectAll (IO.World rs s))) in
  let s0 := IO.state (fst (App.deselectAll (IO.World rs s))) in
  NoDup (App.selectedModels s')
  /\ (forall x, In x (App.selectedModels s') <-> In x (App.availableModels s))
  /\ App.submitDisabled s' =
     (App.loading s || negb (Js.truthy (Js.trim (App.input s)))
      || Nat.eqb (length (App.availableModels s)) 0)
  /\ App.selectedModels s0 = []
  /\ App.submitDisabled s0 = true.
Proof.
  cbn zeta.
  assert (E : App.selectedModels (IO.state (fst (App.selectAll (IO.World rs s)))) =
              Seq.distinct (App.availableModels s)).
  { rewrite <- new_Set_distinct. reflexivity. }
  repeat split.
  - rewrite E. apply NoDup_distinct_from.
  - rewrite E. unfold Seq.distinct. rewrite in_distinct_from. tauto.
  - rewrite E. unfold Seq.distinct. rewrite in_distinct_from. cbn [In]. tauto.
  - unfold App.submitDisabled. rewrite E, length_distinct_zero. reflexivity.
  - unfold App.submitDisabled. cbn. apply orb_true_r.
Qed.

(** ** Loading the list of models when the component mounts *)

Lemma loadModels_run (VITE_API_URL : option jsstring)
  (server : Request.t -> result Response.t) (s : App.state) (rs : list Request.t) :
  App.loadModels VITE_API_URL server (IO.World rs s) =
  match snd (Api.getAvailableModels VITE_API_URL server (IO.World rs s)) with
  | IO.Return v =>
      match App.as_string_array v with
      | Some models =>
          (IO.World (rs ++ [Round.listing VITE_API_URL])
             (App.with_selectedModels (fun _ => Seq.distinct models)
                (App.with_availableModels models s)),
           IO.Return tt)
      | None => (IO.World (rs ++ [Round.listing VITE_API_URL]) s, IO.Untyped)
      end
  | IO.Raise e => (IO.World (rs ++ [Round.listing VITE_API_URL]) s, IO.Raise e)
  | IO.Untyped => (IO.World (rs ++ [Round.listing VITE_API_URL]) s, IO.Untyped)
  end.
Proof.
  unfold App.loadModels, IO.bind at 1.
  rewrite getAvailableModels_run. cbn [fst snd IO.requests IO.state].
  fold (Round.listing VITE_API_URL).
  set (out := match server (Round.listing VITE_API_URL) with
              | Ok _ => _ | Throw _ => _ end).
  destruct out as [v|e|]; try reflexivity.
  destruct (App.as_string_array v) as [models|]; [|reflexivity].
  rewrite <- new_Set_distinct. reflexivity.
Qed.

(** X16.  All models are selected by default: when the server answers the
    request of the mount effect with a 2xx status and a JSON object whose
    [models] is an array of strings, that array becomes the list of
    available models and the selection holds exactly its models, each once
    in the order of first occurrence; nothing else of the state changes,
    and only that one request is issued. *)
Theorem mount_selects_every_listed_model (VITE_API_URL : option jsstring)
  (server : Request.t -> result Response.t) (s : App.state) (rs : list Request.t)
  (res : Response.t) (items : list JSON.value) (models : list jsstring) :
  server (Round.listing VITE_API_URL) = Ok res ->
  Response.ok res = true ->
  Http.has_array (str "models") items res ->
  App.as_string_array (JSON.JArr items) = Some models ->
  App.loadModels VITE_API_URL server (IO.World rs s) =
  (IO.World (rs ++ [Round.listing VITE_API_URL])
     {| App.turns := App.turns s; App.input := App.input s;
        App.loading := App.loading s; App.streaming := App.streaming s;
        App.streamingTurn := App.streamingTurn s; App.error := App.error s;
        App.availableModels := models;
        App.selectedModels := Seq.distinct models;
        App.showModelSelector := App.showModelSelector s |},
   IO.Return tt)
  /\ NoDup (Seq.distinct models)
  /\ (forall x, In x (Seq.distinct models) <-> In x models).
Proof.
  intros Hs Hok (members & Hj & Hg) Hcast. split; [|split].
  - rewrite loadModels_run, getAvailableModels_run. cbn [snd].
    unfold Round.listing in Hs. rewrite Hs, Hok, Hj. cbn [JSON.member].
    rewrite Hg. cbn [JSON.truthy]. rewrite Hcast. reflexivity.
  - apply NoDup_distinct_from.
  - intros x. unfold Seq.distinct. rewrite in_distinct_from. cbn [In]. tauto.
Qed.

Lemma mount_selects_every_listed_model_witness :
  App.loadModels None
    (Example.serve (Example.answered 200 "OK" "{'models':['grok','kimi','grok']}"))
    (IO.World [] (Example.ready "" true [])) =
  (IO.World [Round.listing None]
     (App.with_selectedModels (fun _ => [str "grok"; str "kimi"])
        (Example.ready "" true [str "grok"; str "kimi"; str "grok"])),
   IO.Return tt).
Proof.
  refine (proj1 (mount_selects_every_listed_model None
                   (Example.serve
                      (Example.answered 200 "OK" "{'models':['grok','kimi','grok']}"))
                   (Example.ready "" true []) []
                   (Example.answered 200 "OK" "{'models':['grok','kimi','grok']}")
                   [JSON.JStr (str "grok"); JSON.JStr (str "kimi"); JSON.JStr (str "grok")]
                   [str "grok"; str "kimi"; str "grok"] _ _ _ _));
    try reflexivity.
  eexists. split; vm_compute; reflexivity.
Defined.

(** X17.  When the list of models cannot be had (the server answers the
    mount request with a failure status, or with a 2xx object that has no
    [models]), the component is left with no model available and none
    selected.  From then on no submit issues a request, whatever is typed
    and also after the button All. *)
Theorem unlisted_models_block_every_submit (VITE_API_URL : option jsstring)
  (server : Request.t -> result Response.t) (s : App.state) (rs : list Request.t)
  (res : Response.t) :
  server (Round.listing VITE_API_URL) = Ok res ->
  Response.ok res = false \/ Http.lacks (str "models") res = true ->
  exists s',
    App.loadModels VITE_API_URL server (IO.World rs s) =
    (IO.World (rs ++ [Round.listing VITE_API_URL]) s', IO.Return tt)
    /\ App.availableModels s' = []
    /\ App.selectedModels s' = []
    /\ (forall (text : jsstring) (later : Request.t -> result Response.t)
               (rs' : list Request.t),
          IO.requests
            (fst (App.handleSubmit VITE_API_URL later
                    (IO.World rs' (App.with_input text s')))) = rs'
          /\ IO.requests
               (fst (App.handleSubmit VITE_API_URL later
                       (fst (App.selectAll (IO.World rs' (App.with_input text s')))))) =
             rs').
Proof.
  intros Hs Hres.
  assert (Hget : snd (Api.getAvailableModels VITE_API_URL server (IO.World rs s)) =
                 IO.Return (JSON.JArr [])).
  { rewrite getAvailableModels_run. cbn [snd].
    unfold Round.listing in Hs. rewrite Hs.
    destruct (Response.ok res); [|reflexivity].
    destruct Hres as [Hres|Hres]; [discriminate|].
    unfold Http.lacks in Hres.
    destruct (Response.json res) as [[| | | | |members]|x]; try discriminate.
    cbn [JSON.member]. now destruct (Dict.get (str "models") members). }
  eexists. split; [|split; [|split]].
  - rewrite loadModels_run, Hget. reflexivity.
  - reflexivity.
  - reflexivity.
  - intros text later rs'. split.
    + destruct (handleSubmit_rejected VITE_API_URL later
                  (App.with_input text
                     (App.with_selectedModels (fun _ => Seq.distinct [])
                        (App.with_availableModels [] s))) rs') as (s' & H & _).
      { unfold App.submitDisabled. cbn. apply orb_true_r. }
      now rewrite H.
    + destruct (handleSubmit_rejected VITE_API_URL later
                  (IO.state
                     (fst (App.selectAll
                             (IO.World rs'
                                (App.with_input text
                                   (App.with_selectedModels (fun _ => Seq.distinct [])
                                      (App.with_availableModels [] s))))))) rs')
        as (s' & H & _).
      { unfold App.submitDisabled. cbn. apply orb_true_r. }
      cbn in H. cbn. now rewrite H.
Qed.

Lemma unlisted_models_block_every_submit_witness :
  exists s',
    App.loadModels None (Example.serve (Example.answered 503 "Service Unavailable" "busy"))
      (IO.World [] (Example.ready "" true [])) =
    (IO.World [Round.listing None] s', IO.Return tt)
    /\ App.selectedModels s' = []
    /\ IO.requests
         (fst (App.handleSubmit None (Example.serve (Example.streamed Example.three_lanes))
                 (IO.World [] (App.with_input (str "hi") s')))) = [].
Proof.
  destruct (unlisted_models_block_every_submit None
              (Example.serve (Example.answered 503 "Service Unavailable" "busy"))
              (Example.ready "" true []) []
              (Example.answered 503 "Service Unavailable" "busy"))
    as (s' & Hrun & _ & Hsel & Hlater); [reflexivity | left; reflexivity |].
  exists s'. split; [exact Hrun|]. split; [exact Hsel|].
  exact (proj1 (Hlater (str "hi")
                  (Example.serve (Example.streamed Example.three_lanes)) [])).
Defined.

(** X18.  A failure of the mount request is not handled: when the server
    cannot be reached, or answers 2xx with a body that is not JSON, or
    with the JSON text [null], the effect ends with that exception and
    the state is as it was. *)
Theorem listing_failure_is_unhandled (VITE_API_URL : option jsstring)
  (server : Request.t -> result Response.t) (s : App.state) (rs : list Request.t)
  (e : exn) :
  server (Round.listing VITE_API_URL) = Throw e
  \/ (exists res,
        server (Round.listing VITE_API_URL) = Ok res
        /\ Response.ok res = true
        /\ (Response.json res = Throw e
            \/ (Response.json res = Ok JSON.JNull
                /\ e = TypeError (str "Cannot read properties of null")))) ->
  App.loadModels VITE_API_URL server (IO.World rs s) =
  (IO.World (rs ++ [Round.listing VITE_API_URL]) s, IO.Raise e).
Proof.
  intros H. rewrite loadModels_run, getAvailableModels_run. cbn [snd].
  fold (Round.listing VITE_API_URL).
  destruct H as [->|(res & -> & -> & [->|[-> ->]])]; reflexivity.
Qed.

Lemma listing_failure_is_unhandled_witness :
  App.loadModels None (Example.serve (Example.answered 200 "OK" "<html>"))
    (IO.World [] (Example.ready "" true [])) =
  (IO.World [Round.listing None] (Example.ready "" true []),
   IO.Raise (SyntaxError (str "Unexpected token in JSON"))).
Proof.
  apply (listing_failure_is_unhandled None
           (Example.serve (Example.answered 200 "OK" "<html>"))
           (Example.ready "" true []) []).
  right. exists (Example.answered 200 "OK" "<html>").
  split; [reflexivity|]. split; [reflexivity|]. left. vm_compute. reflexivity.
Defined.

(** ** What the stream reader lets through *)

Lemma deliver_outcome {S : Type} (onEvent : JSON.value -> IO.t S unit)
  (evs : list JSON.value) :
  forall w, snd (Stream.deliver onEvent evs w) = IO.Return tt
            \/ snd (Stream.deliver onEvent evs w) = IO.Untyped.
Proof.
  induction evs as [|ev evs IH]; intros w; cbn [Stream.deliver].
  - left. reflexivity.
  - unfold IO.bind, IO.try_catch.
    destruct (onEvent ev w) as [w' [[]|e|]]; cbn [IO.ret snd]; auto.
Qed.

Lemma deliver_throwing (e : exn) (evs : list JSON.value) :
  forall w : IO.world (list JSON.value),
  Stream.deliver (fun ev => IO.bind (Stream.record ev) (fun _ => IO.raise e)) evs w =
  (IO.World (IO.requests w) (IO.state w ++ evs), IO.Return tt).
Proof.
  induction evs as [|ev evs IH]; intros [rs seen]; cbn [Stream.deliver].
  - cbn. now rewrite app_nil_r.
  - unfold IO.bind at 1, IO.try_catch, IO.bind at 1, Stream.record, IO.modify, IO.raise.
    cbn [IO.requests IO.state IO.ret]. rewrite IH.
    cbn [IO.requests IO.state]. now rewrite <- app_assoc.
Qed.

(** X19.  What the callback throws never leaves [sendDebateRoundStream]
    and stops nothing: on a 2xx response with a body, the only exception
    the call can end with is the failure of the reader, and a callback
    that throws on every event is still called with every event of the
    stream, after which the call returns. *)
Theorem callback_exceptions_never_escape {S : Type}
  (VITE_API_URL : option jsstring)
  (server : Request.t -> result Response.t)
  (onEvent : JSON.value -> IO.t S unit)
  (messages : list Api.ChatMessage.t) (modelIds : option (list jsstring))
  (res : Response.t) (b : Response.stream) :
  server (Stream.post VITE_API_URL (str "/debate/stream") messages modelIds) = Ok res ->
  Response.ok res = true ->
  Response.body res = Some b ->
  (forall w e,
     snd (Api.sendDebateRoundStream VITE_API_URL server onEvent messages modelIds w) =
     IO.Raise e ->
     Response.failure b = Some e)
  /\ (forall thrown rs seen,
        Response.failure b = None ->
        Api.sendDebateRoundStream VITE_API_URL server
          (fun ev => IO.bind (Stream.record ev) (fun _ => IO.raise thrown))
          messages modelIds (IO.World rs seen) =
        (IO.World
           (rs ++ [Stream.post VITE_API_URL (str "/debate/stream") messages modelIds])
           (seen ++ Stream.events_of (Stream.text_of (concat (Response.chunks b)))),
         IO.Return tt)).
Proof.
  intros Hs Hok Hb. split.
  - intros w e.
    rewrite (sendDebateRoundStream_run _ _ _ _ _ res b _ Hs Hok Hb).
    unfold IO.bind.
    set (w0 := IO.World _ _).
    destruct (deliver_outcome onEvent
                (Stream.events_of (Stream.text_of (concat (Response.chunks b)))) w0)
      as [H|H];
      destruct (Stream.deliver onEvent _ w0) as [w' out]; cbn [snd] in H; subst out.
    + destruct (Response.failure b) as [x|]; cbn [IO.raise IO.ret snd]; congruence.
    + cbn [snd]. discriminate.
  - intros thrown rs seen Hf.
    rewrite (sendDebateRoundStream_run _ _ _ _ _ res b _ Hs Hok Hb), Hf.
    unfold IO.bind at 1. rewrite deliver_throwing. reflexivity.
Qed.

Lemma callback_exceptions_never_escape_witness :
  Api.sendDebateRoundStream None (Example.serve (Example.streamed Example.three_lanes))
    (fun ev => IO.bind (Stream.record ev) (fun _ => IO.raise (Error (str "no"))))
    [] None (IO.World [] []) =
  (IO.World [Stream.post None (str "/debate/stream") [] None]
     ([] ++ Stream.events_of (Stream.text_of (concat Example.three_lanes))),
   IO.Return tt).
Proof.
  refine (proj2 (callback_exceptions_never_escape None
                   (Example.serve (Example.streamed Example.three_lanes))
                   (fun ev => IO.bind (Stream.record ev)
                                (fun _ => IO.raise (Error (str "no"))))
                   [] None (Example.streamed Example.three_lanes)
                   {| Response.chunks := Example.three_lanes; Response.failure := None |}
                   _ _ _) (Error (str "no")) [] [] _);
    reflexivity.
Defined.

(** X20.  A 2xx response without a body ends a streamed round with the
    banner [No response body]: one request was issued, no turn is
    recorded, and the lane state is dropped. *)
Theorem missing_body_is_reported (VITE_API_URL : option jsstring)
  (server : Request.t -> result Response.t) (s : App.state) (rs : list Request.t)
  (res : Response.t) :
  Round.accepted s ->
  App.streaming s = true ->
  server (Round.request VITE_API_URL s) = Ok res ->
  Response.ok res = true ->
  Response.body res = None ->
  App.handleSubmit VITE_API_URL server (IO.World rs s) =
  (IO.World (rs ++ [Round.request VITE_API_URL s])
     (Round.failed s (str "No response body")),
   IO.Return tt).
Proof.
  intros Hacc Hstream Hs Hok Hb.
  unfold Round.request, Conversation.path in Hs. rewrite Hstream in Hs.
  apply (handleSubmit_stream_raise VITE_API_URL server s rs
           (IO.World
              (rs ++ [Stream.post VITE_API_URL (str "/debate/stream")
                        (App.build_messages (App.turns s) (Js.trim (App.input s)))
                        (Some (App.selectedModels s))])
              (App.with_streamingTurn
                 (fun _ => Some (Lanes.opened (Js.trim (App.input s))))
                 (Round.started s)))
           (Error (str "No response body")) Hacc Hstream).
  unfold Api.sendDebateRoundStream, IO.bind at 1, IO.fetch.
  unfold Stream.post in Hs. cbn [IO.requests IO.state]. rewrite Hs.
  rewrite Hok, Hb. reflexivity.
Qed.

Lemma missing_body_is_reported_witness :
  App.handleSubmit None
    (Example.serve {| Response.status := 204; Response.statusText := str "No Content";
                      Response.body := None |})
    (IO.World [] (Example.ready "hi" true [str "A"])) =
  (IO.World [Round.request None (Example.ready "hi" true [str "A"])]
     (Round.failed (Example.ready "hi" true [str "A"]) (str "No response body")),
   IO.Return tt).
Proof.
  apply (missing_body_is_reported None
           (Example.serve {| Response.status := 204;
                             Response.statusText := str "No Content";
                             Response.body := None |})
           (Example.ready "hi" true [str "A"]) []
           {| Response.status := 204; Response.statusText := str "No Content";
              Response.body := None |});
    try reflexivity.
  repeat split; try reflexivity. discriminate.
Defined.

(** X21.  A line the loop cannot use does not stop it: a line that does
    not start with [data: ], or whose rest is not a JSON text, changes
    nothing of what the loop over the lines of a read does, wherever the
    line stands. *)
Theorem unusable_line_is_skipped {S : Type}
  (onEvent : JSON.value -> IO.t S unit)
  (before after : list jsstring) (line : jsstring) (w : IO.world S) :
  startsWith line (str "data: ") = false
  \/ (exists e, JSON.parse (slice 6 line) = Throw e) ->
  Api.for_lines onEvent (before ++ line :: after) w =
  Api.for_lines onEvent (before ++ after) w.
Proof.
  intros H. rewrite !for_lines_deliver, !events_of_lines_app.
  cbn [Stream.events_of_lines].
  replace (Stream.event_of_line line) with (@None JSON.value); [reflexivity|].
  unfold Stream.event_of_line. destruct H as [->|[e He]]; [reflexivity|].
  destruct (startsWith line (str "data: ")); [|reflexivity].
  unfold slice in He. now rewrite He.
Qed.

Lemma unusable_line_is_skipped_witness :
  Api.for_lines Stream.record
    ([Example.js "data: {'model_id':'A','delta':'He'}"]
     ++ Example.js ": keep-alive"
     :: [Example.js "data: {'model_id':'A','done':true}"])
    (IO.World [] []) =
  Api.for_lines Stream.record
    ([Example.js "data: {'model_id':'A','delta':'He'}"]
     ++ [Example.js "data: {'model_id':'A','done':true}"])
    (IO.World [] []).
Proof.
  apply (unusable_line_is_skipped Stream.record
           [Example.js "data: {'model_id':'A','delta':'He'}"]
           [Example.js "data: {'model_id':'A','done':true}"]
           (Example.js ": keep-alive")).
  left. reflexivity.
Defined.

(** X22.  The component lets an event that is the JSON value [null]
    pass: reading its [model_id] throws inside the callback, the loop
    drops what the callback throws, and the lanes and the loop go on as
    if the line were not there. *)
Theorem null_event_changes_no_lane
  (before after : list jsstring) (line : jsstring) (w : IO.world App.state) :
  startsWith line (str "data: ") = true ->
  JSON.parse (slice 6 line) = Ok JSON.JNull ->
  Api.for_lines App.onStreamEvent (before ++ line :: after) w =
  Api.for_lines App.onStreamEvent (before ++ after) w.
Proof.
  intros Hp Hj. rewrite !for_lines_deliver, !events_of_lines_app.
  cbn [Stream.events_of_lines]. unfold Stream.event_of_line. rewrite Hp.
  unfold slice in Hj. rewrite Hj.
  rewrite !deliver_app. unfold IO.bind.
  destruct (Stream.deliver App.onStreamEvent (Stream.events_of_lines before) w)
    as [w' [[]| |]]; reflexivity.
Qed.

Lemma null_event_changes_no_lane_witness :
  Api.for_lines App.onStreamEvent
    ([Example.js "data: {'model_id':'A','delta':'He'}"]
     ++ Example.js "data: null"
     :: [Example.js "data: {'model_id':'A','delta':'llo'}"])
    (IO.World [] (Example.ready "" true [str "A"])) =
  Api.for_lines App.onStreamEvent
    ([Example.js "data: {'model_id':'A','delta':'He'}"]
     ++ [Example.js "data: {'model_id':'A','delta':'llo'}"])
    (IO.World [] (Example.ready "" true [str "A"])).
Proof.
  apply (null_event_changes_no_lane
           [Example.js "data: {'model_id':'A','delta':'He'}"]
           [Example.js "data: {'model_id':'A','delta':'llo'}"]
           (Example.js "data: null"));
    vm_compute; reflexivity.
Defined.

(** ** Events that say nothing, and the order of the cards *)

Lemma on_event_silent (ev : Api.StreamEvent.t) (prev : option App.StreamingTurn.t) :
  Lanes.speaks (Api.StreamEvent.model_id ev) ev = false ->
  App.on_event ev prev = prev.
Proof.
  unfold Lanes.speaks. rewrite eqb_refl. cbn [andb]. intros H.
  apply orb_false_iff in H as [Hd He].
  destruct prev as [[user content errors]|]; [|reflexivity].
  unfold App.on_event.
  cbn [App.StreamingTurn.user App.StreamingTurn.content App.StreamingTurn.errors].
  destruct (Api.StreamEvent.delta ev) as [d|]; cbn [App.error_truthy] in Hd;
    rewrite ?Hd;
    destruct (Api.StreamEvent.error ev) as [e|]; cbn [App.error_truthy] in He;
    rewrite ?He; reflexivity.
Qed.

(** X23.  The lanes depend only on the events that say something: an
    event with no non-empty delta and no non-empty error, which every
    [done] event is, leaves the lane state as it is, so that dropping all
    such events from a stream changes nothing of the lanes and of the
    turn recorded from them. *)
Theorem silent_events_change_no_lane (evs : list Api.StreamEvent.t)
  (start : option App.StreamingTurn.t) :
  Lanes.run_events
    (filter (fun ev => Lanes.speaks (Api.StreamEvent.model_id ev) ev) evs) start =
  Lanes.run_events evs start
  /\ (forall id, Lanes.run_events (evs ++ [Lanes.Done id]) start =
                 Lanes.run_events evs start).
Proof.
  split.
  - revert start. induction evs as [|ev evs IH]; intros start; [reflexivity|].
    cbn [filter].
    destruct (Lanes.speaks (Api.StreamEvent.model_id ev) ev) eqn:E;
      cbn [Lanes.run_events fold_left].
    + apply IH.
    + rewrite (on_event_silent ev start E). apply IH.
  - intros id. unfold Lanes.run_events. rewrite fold_left_app. cbn [fold_left].
    apply on_event_silent. unfold Lanes.speaks, Lanes.Done. cbn.
    apply andb_false_r.
Qed.

Lemma keys_set {V : Type} (k : jsstring) (v : V) (d : Dict.t V) :
  Dict.keys (Dict.set k v d) =
  Dict.keys d ++ Seq.distinct_from (Dict.keys d) [k].
Proof.
  cbn [Seq.distinct_from].
  induction d as [|[k' v'] d IH]; cbn [Dict.set Dict.keys map existsb app fst];
    [reflexivity|].
  destruct (Js.eqb k k') eqn:E; cbn [orb map fst].
  - now rewrite app_nil_r.
  - fold (Dict.keys (Dict.set k v d)). fold (Dict.keys d). rewrite IH.
    now destruct (existsb (Js.eqb k) (Dict.keys d)).
Qed.

Lemma distinct_from_distinct (l : list jsstring) :
  forall s s' : list jsstring,
  (forall y, In y s' -> In y s) ->
  Seq.distinct_from s (Seq.distinct_from s' l) = Seq.distinct_from s l.
Proof.
  induction l as [|x l IH]; intros s s' Hsub; cbn [Seq.distinct_from]; [reflexivity|].
  destruct (existsb (Js.eqb x) s') eqn:E'.
  - apply existsb_eqb in E'.
    replace (existsb (Js.eqb x) s) with true
      by (symmetry; apply existsb_eqb; auto).
    now apply IH.
  - cbn [Seq.distinct_from]. destruct (existsb (Js.eqb x) s) eqn:E.
    + apply IH. intros y Hy. apply in_app_iff in Hy as [Hy|[<-|[]]]; [auto|].
      now apply existsb_eqb.
    + f_equal. apply IH. intros y. rewrite !in_app_iff. intuition.
Qed.

Lemma keys_assign (k v : jsstring) (d : Dict.t jsstring) :
  Dict.ordinary k = true ->
  Dict.keys (Dict.assign k v d) =
  Dict.keys d ++ Seq.distinct_from (Dict.keys d) [k].
Proof.
  unfold Dict.ordinary. intros H. apply andb_true_iff in H as [Hi Hx].
  apply negb_true_iff in Hi. unfold Dict.assign.
  rewrite (inherited_proto k Hi).
  destruct (Dict.index k); [discriminate|].
  destruct (Dict.get k d); apply keys_set.
Qed.

(** The names of the two dictionaries after a sequence of events of
    providers with ordinary names: the names before, then the new names
    in the order of their first event with a non-empty delta,
    respectively a non-empty error. *)
Lemma run_events_keys (evs : list Api.StreamEvent.t) :
  forallb (fun ev => Dict.ordinary (Api.StreamEvent.model_id ev)) evs = true ->
  forall prev st : App.StreamingTurn.t,
  Lanes.run_events evs (Some prev) = Some st ->
  Dict.keys (App.StreamingTurn.content st) =
  Dict.keys (App.StreamingTurn.content prev)
  ++ Seq.distinct_from (Dict.keys (App.StreamingTurn.content prev))
       (map Api.StreamEvent.model_id
          (filter (fun ev => App.error_truthy (Api.StreamEvent.delta ev)) evs))
  /\ Dict.keys (App.StreamingTurn.errors st) =
     Dict.keys (App.StreamingTurn.errors prev)
     ++ Seq.distinct_from (Dict.keys (App.StreamingTurn.errors prev))
          (map Api.StreamEvent.model_id
             (filter (fun ev => App.error_truthy (Api.StreamEvent.error ev)) evs)).
Proof.
  induction evs as [|ev evs IH]; intros Hord prev st Hrun.
  - injection Hrun as <-. cbn. now rewrite !app_nil_r.
  - cbn [forallb] in Hord. apply andb_true_iff in Hord as [Hev Hord].
    cbn [Lanes.run_events fold_left] in Hrun.
    destruct (on_event_some ev prev) as (st1 & H1 & _).
    rewrite H1 in Hrun. destruct (IH Hord st1 st Hrun) as [Hc He].
    rewrite Hc, He. clear IH Hc He Hrun. injection H1 as <-.
    cbn [App.StreamingTurn.content App.StreamingTurn.errors filter].
    split.
    + destruct (Api.StreamEvent.delta ev) as [d|]; cbn [App.error_truthy];
        [destruct (Js.truthy d)|]; try reflexivity.
      cbn [map]. rewrite (keys_assign _ _ _ Hev), <- app_assoc. f_equal.
      symmetry. apply (distinct_from_app [Api.StreamEvent.model_id ev]).
    + destruct (Api.StreamEvent.error ev) as [e|]; cbn [App.error_truthy];
        [destruct (Js.truthy e)|]; try reflexivity.
      cbn [map]. rewrite (keys_assign _ _ _ Hev), <- app_assoc. f_equal.
      symmetry. apply (distinct_from_app [Api.StreamEvent.model_id ev]).
Qed.

(** X24.  When no provider of the stream bears a name that is an array
    index or a member of [Object.prototype], the cards stand in the
    order in which the providers first said something: first the
    providers with content, in the order of their first non-empty delta,
    then the providers with errors only, in the order of their first
    non-empty error.  The responses of the recorded turn stand in the
    same order.  (A name that is an array index comes before the others,
    whenever it arrives.) *)
Theorem cards_stand_in_order_of_first_word
  (user : jsstring) (evs : list Api.StreamEvent.t) (st : App.StreamingTurn.t) :
  forallb (fun ev => Dict.ordinary (Api.StreamEvent.model_id ev)) evs = true ->
  Lanes.run_events evs (Some (Lanes.opened user)) = Some st ->
  App.streamingLanes st =
  Seq.distinct
    (map Api.StreamEvent.model_id
       (filter (fun ev => App.error_truthy (Api.StreamEvent.delta ev)) evs)
     ++ map Api.StreamEvent.model_id
          (filter (fun ev => App.error_truthy (Api.StreamEvent.error ev)) evs))
  /\ map Api.ProviderResponse.provider_id (App.assemble st) = App.streamingLanes st.
Proof.
  intros Hord Hrun.
  assert (Hwf : Lanes.well_formed st).
  { apply (run_events_well_formed evs _ _ Hrun (opened_well_formed user)). }
  split; [|apply assemble_names, Hwf].
  destruct (run_events_keys evs Hord _ _ Hrun) as [Hc He]. cbn [Lanes.opened
    App.StreamingTurn.content App.StreamingTurn.errors Dict.keys map app] in Hc, He.
  rewrite streamingLanes_distinct, Hc, He. unfold Seq.distinct.
  rewrite !distinct_from_app. f_equal.
  - apply distinct_from_distinct. auto.
  - rewrite (distinct_from_distinct _ [] []) by auto.
    apply distinct_from_distinct. intros y [].
Qed.

Lemma cards_stand_in_order_of_first_word_witness :
  exists st,
    Lanes.run_events
      [Lanes.Failed (str "B") (str "boom"); Lanes.Delta (str "A") (str "He");
       Lanes.Done (str "C"); Lanes.Delta (str "B") (str "late")]
      (Some (Lanes.opened (str "hi"))) = Some st
    /\ App.streamingLanes st = [str "A"; str "B"]
    /\ map Api.ProviderResponse.provider_id (App.assemble st) = [str "A"; str "B"].
Proof.
  eexists. split; [reflexivity|].
  destruct (cards_stand_in_order_of_first_word (str "hi")
              [Lanes.Failed (str "B") (str "boom"); Lanes.Delta (str "A") (str "He");
               Lanes.Done (str "C"); Lanes.Delta (str "B") (str "late")]
              _ eq_refl eq_refl) as [H1 H2].
  split; [rewrite H1 | rewrite H2, H1]; reflexivity.
Defined.

(** X25.  A submit on a blank input, or while a round is loading, does
    nothing at all: no request, and the state, a shown error and the
    typed blanks included, is what it was. *)
Theorem blank_or_busy_submit_is_a_no_op (VITE_API_URL : option jsstring)
  (server : Request.t -> result Response.t) (w : IO.world App.state) :
  Js.truthy (Js.trim (App.input (IO.state w))) = false
  \/ App.loading (IO.state w) = true ->
  App.handleSubmit VITE_API_URL server w = (w, IO.Return tt).
Proof.
  intros H. unfold App.handleSubmit, IO.bind at 1, IO.get.
  replace (negb (Js.truthy (Js.trim (App.input (IO.state w))))
           || App.loading (IO.state w)) with true; [reflexivity|].
  symmetry. destruct H as [->| ->]; [reflexivity | apply orb_true_r].
Qed.

Lemma blank_or_busy_submit_is_a_no_op_witness :
  App.handleSubmit None Example.offline
    (IO.World [] (App.with_error (Some (str "old")) (Example.ready "  " true [str "A"]))) =
  (IO.World [] (App.with_error (Some (str "old")) (Example.ready "  " true [str "A"])),
   IO.Return tt).
Proof.
  apply (blank_or_busy_submit_is_a_no_op None Example.offline
           (IO.World [] (App.with_error (Some (str "old"))
                           (Example.ready "  " true [str "A"])))).
  left. reflexivity.
Defined.
